(** * apitools client generator: the descriptor pipeline orchestrator

    A shallow embedding of [apitools/gen/gen_client_lib.py] and of the
    flag-driven entry point of [apitools/gen/gen_client.py].

    Python objects that the sources share and mutate (dicts) live in a
    heap and are referred to by address; dicts keep their entries in
    iteration order.  The collaborators that are imported but whose code is
    elsewhere (the three registries, [util], [urlparse], [os.path]) form an
    interface, and every call into them is recorded in a trace. *)

From Stdlib Require Import String Ascii ZArith List Lia.
From stdpp Require Import base option list strings sorting.

Local Open Scope string_scope.
Local Open Scope list_scope.

(** ** Python string primitives used by the sources *)

Module PyStr.

(** [sep.join(parts)] *)
Fixpoint join (sep : string) (parts : list string) : string :=
  match parts with
  | [] => ""
  | [p] => p
  | p :: rest => p +:+ sep +:+ join sep rest
  end.

(** [s.startswith(sub)] *)
Definition startswith (sub s : string) : bool := String.prefix sub s.

(** [s.find(sub)]: lowest index at which [sub] occurs. *)
Fixpoint find (sub s : string) : option nat :=
  if startswith sub s then Some 0
  else match s with
       | EmptyString => None
       | String _ s' => S <$> find sub s'
       end.

(** [sub in s] *)
Definition contains (sub s : string) : bool := bool_decide (is_Some (find sub s)).

(** [s.rfind(sub)]: highest index at which [sub] occurs. *)
Fixpoint rfind (sub s : string) : option nat :=
  match s with
  | EmptyString => if startswith sub s then Some 0 else None
  | String _ s' =>
      match rfind sub s' with
      | Some i => Some (S i)
      | None => if startswith sub s then Some 0 else None
      end
  end.

(** [s[i:]] and [s[:i]] *)
Fixpoint drop (i : nat) (s : string) : string :=
  match i, s with
  | 0, _ => s
  | S i', String _ s' => drop i' s'
  | S _, EmptyString => EmptyString
  end.

Fixpoint take (i : nat) (s : string) : string :=
  match i, s with
  | 0, _ => EmptyString
  | S i', String c s' => String c (take i' s')
  | S _, EmptyString => EmptyString
  end.

(** [s.rpartition(sep)], for a non-empty [sep] ([None] stands for the
    [ValueError] Python raises on an empty separator). *)
Definition rpartition (sep s : string) : option (string * string * string) :=
  if bool_decide (sep = "") then None
  else Some match rfind sep s with
            | Some j => (take j s, sep, drop (j + String.length sep) s)
            | None => ("", "", s)
            end.

(** [sub] occurs in [s] with [p] before it. *)
Definition occurs_after (p sub s : string) : Prop := exists q, s = p +:+ sub +:+ q.
Definition occurs (sub s : string) : Prop := exists p, occurs_after p sub s.

End PyStr.

(** ** Values, dicts and the heap *)

(** Addresses of heap objects. *)
Abbreviation addr := nat.

#[local] Set Warnings "-register-all".

(** JSON-shaped Python values.  Dicts are mutable objects, so a value holds
    the address of a dict, not the dict. *)
Inductive value : Type :=
| VNone
| VBool (b : bool)
| VInt (z : Z)
| VStr (s : string)
| VList (l : list value)
| VDict (a : addr).

(** A dict object: its entries, in iteration order.  Keys are unique. *)
Abbreviation dict := (list (string * value)).
(** The heap: the dict objects, by address. *)
Abbreviation heap := (list dict).

Module Dict.

Fixpoint lookup (k : string) (d : dict) : option value :=
  match d with
  | [] => None
  | (k', v) :: d' => if String.eqb k k' then Some v else lookup k d'
  end.

(** [d[k] = v]: overwrite the entry of [k], or add one. *)
Fixpoint set (k : string) (v : value) (d : dict) : dict :=
  match d with
  | [] => [(k, v)]
  | (k', v') :: d' =>
      if String.eqb k k' then (k, v) :: d' else (k', v') :: set k v d'
  end.

Definition keys (d : dict) : list string := fst <$> d.

Definition wf (d : dict) : Prop := NoDup (keys d).

End Dict.

(** ** Exceptions *)

Inductive exn : Type :=
| KeyError (k : string)
| TypeError (msg : string)
| AttributeError (msg : string)
| ValueError (msg : string)
| ConfigurationValueError (msg : string)
| CommunicationError (msg : string)
| OtherError (cls msg : string).

Definition result (A : Type) : Type := exn + A.

(** ** Records of the generator *)

(** Modelled from the spec: [util.ClientInfo] is a named tuple declared in
    [apitools/gen/util.py]; the fields below are [scopes] (the field that
    [_replace] is applied to) and the attributes the two source files read. *)
Record ClientInfo : Type := {
  package : string;
  version : string;
  url_version : string;
  scopes : list string;
  default_directory : string;
  client_rule_name : string;
  messages_rule_name : string;
  messages_file_name : string;
  client_file_name : string;
  cli_file_name : string;
  messages_proto_file_name : string;
  services_proto_file_name : string;
}.

(** [client_info._replace(scopes=s)]: a new tuple, every other field copied. *)
Definition ClientInfo__replace_scopes (ci : ClientInfo) (s : list string) : ClientInfo :=
  {| package := package ci;
     version := version ci;
     url_version := url_version ci;
     scopes := s;
     default_directory := default_directory ci;
     client_rule_name := client_rule_name ci;
     messages_rule_name := messages_rule_name ci;
     messages_file_name := messages_file_name ci;
     client_file_name := client_file_name ci;
     cli_file_name := cli_file_name ci;
     messages_proto_file_name := messages_proto_file_name ci;
     services_proto_file_name := services_proto_file_name ci |}.

(** Modelled from the spec: a [util.Names] object, as the arguments it is
    constructed from (its methods are not called by the two source files). *)
Record Names : Type := {
  strip_prefixes : list string;
  name_convention : string;
  capitalize_enums : bool;
}.

(** The gflags the entry point defines; [FLAGS] is process-wide and
    [root_package_dir] is assigned by [_GetCodegenFromFlags]. *)
Record Flags : Type := {
  infile : string;
  discovery_url : string;
  outdir : string;
  overwrite : bool;
  root_package_dir : string;
  strip_prefix : list string;
  api_key : option string;
  client_id : option string;
  client_secret : option string;
  scope : list string;
  user_agent : string;
  experimental_capitalize_enums : bool;
  experimental_name_convention : string;
  experimental_proto2_output : bool;
}.

Definition set_root_package_dir (f : Flags) (d : string) : Flags :=
  {| infile := infile f; discovery_url := discovery_url f; outdir := outdir f;
     overwrite := overwrite f; root_package_dir := d;
     strip_prefix := strip_prefix f; api_key := api_key f;
     client_id := client_id f; client_secret := client_secret f;
     scope := scope f; user_agent := user_agent f;
     experimental_capitalize_enums := experimental_capitalize_enums f;
     experimental_name_convention := experimental_name_convention f;
     experimental_proto2_output := experimental_proto2_output f |}.

(** The artifacts a generator writes. *)
Inductive artifact : Type :=
| MessagesFile | ClientLibrary | Cli | Init | MessagesProtoFile | ServicesProtoFile.

(** ** Calls into the collaborators

    One constructor per call that leaves the two source files, with the
    arguments that are passed.  [Descriptor] is what the message registry
    hands out. *)
Inductive call (Descriptor : Type) : Type :=
| FetchDiscoveryDoc (url : string)
| json_load (path : string)
| Names_new (strip : list string) (convention : string) (capitalize : bool)
| ClientInfo_Create (doc : value) (scope : list string)
    (client_id client_secret : option string) (user_agent : string)
    (names : Names) (api_key : option string)
| GetPackage (dir : string)
| MessageRegistry_new (ci : ClientInfo) (names : Names)
    (description : value) (root_package base_files_package : string)
| AddDescriptorFromSchema (schema_name : value) (schema : value)
| CommandRegistry_new (package version : string) (ci : ClientInfo)
    (root_package base_files_package : string) (base_url : value)
    (names : Names)
| LookupDescriptorOrDie (name : string)
| AddGlobalParameters (d : Descriptor)
| ServiceRegistry_new (ci : ClientInfo) (base_url : value) (base_path : string)
    (names : Names) (root_package base_files_package : string)
| AddServiceFromResource (service_name : string) (methods : value)
| ClientInfo__replace (new_scopes : list string)
| WriteArtifact (dir file : string) (what : artifact).

Arguments FetchDiscoveryDoc {Descriptor}.
Arguments json_load {Descriptor}.
Arguments Names_new {Descriptor}.
Arguments ClientInfo_Create {Descriptor}.
Arguments GetPackage {Descriptor}.
Arguments MessageRegistry_new {Descriptor}.
Arguments AddDescriptorFromSchema {Descriptor}.
Arguments CommandRegistry_new {Descriptor}.
Arguments LookupDescriptorOrDie {Descriptor}.
Arguments AddGlobalParameters {Descriptor}.
Arguments ServiceRegistry_new {Descriptor}.
Arguments AddServiceFromResource {Descriptor}.
Arguments ClientInfo__replace {Descriptor}.
Arguments WriteArtifact {Descriptor}.

(** The collaborators: code that the sources import and call.  Everything
    outside the two files (the registries, the written files) shares one
    state [Registry]; a call reads the heap (the schemas and resources it is
    handed are heap objects) and either raises or moves to a new state. *)
Class Collaborators : Type := {
  Descriptor : Type;
  Registry : Type;
  (** [urlparse.urljoin] on two strings, and the exception it raises on
      two true values that are not both strings *)
  urljoin : string -> string -> string;
  urljoin_error : value -> value -> exn;
  (** ['%s' % v] for a value that is not a string *)
  format_value : value -> heap -> string;
  (** [base_cli.TRACE_HELP] *)
  TRACE_HELP : string;
  (** [os.path.expanduser], [os.path.abspath], [os.path.exists] *)
  expanduser : string -> string;
  abspath : string -> string;
  path_exists : string -> bool;
  (** [util.FetchDiscoveryDoc(url)] and [json.load(open(path))]: the parsed
      document is a new object graph in the heap *)
  fetch_discovery_doc : string -> heap -> result (value * heap);
  json_load_file : string -> heap -> result (value * heap);
  (** [util.ClientInfo.Create] and [util.GetPackage] *)
  client_info_create :
    value -> heap -> list string -> option string -> option string ->
    string -> Names -> option string -> result ClientInfo;
  get_package : string -> result string;
  (** [MessageRegistry.LookupDescriptorOrDie] *)
  lookup_descriptor : string -> heap -> Registry -> result Descriptor;
  (** any other call: constructors, registrations, file writes *)
  respond : call Descriptor -> heap -> Registry -> result Registry;
  (** the [scopes] property of the service registry *)
  registry_scopes : Registry -> list string;
}.

(** ** The world and the monad of the embedded code *)

Inductive level : Type := WARNING | ERROR.

Section Program.

Context `{C : Collaborators}.

Record world : Type := {
  w_heap : heap;
  w_flags : Flags;
  w_calls : list (call Descriptor);
  w_log : list (level * string);
  w_reg : Registry;
}.

(** A computation either raises or returns; the world it leaves behind is
    kept in both cases. *)
Definition M (A : Type) : Type := world -> result A * world.

Definition ret {A} (x : A) : M A := fun w => (inr x, w).
Definition raise {A} (e : exn) : M A := fun w => (inl e, w).
Definition bind {A B} (m : M A) (k : A -> M B) : M B :=
  fun w => match m w with
           | (inr x, w') => k x w'
           | (inl e, w') => (inl e, w')
           end.

(** [try: m except CommunicationError: h] *)
Definition try_except_CommunicationError {A} (m : M A) (h : M A) : M A :=
  fun w => match m w with
           | (inl (CommunicationError _), w') => h w'
           | r => r
           end.

Fixpoint for_ {A} (xs : list A) (body : A -> M unit) : M unit :=
  match xs with
  | [] => ret tt
  | x :: xs' => bind (body x) (fun _ => for_ xs' body)
  end.

End Program.

Notation "'let*' x ':=' m 'in' k" := (bind m (fun x => k))
  (at level 10, x pattern, m at level 100, k at level 200, only parsing).
Notation "'do' m 'then' k" := (bind m (fun _ => k))
  (at level 10, m at level 100, k at level 200, only parsing).

Section Primitives.

Context `{C : Collaborators}.

Definition set_heap (h : heap) (w : world) : world :=
  {| w_heap := h; w_flags := w_flags w; w_calls := w_calls w;
     w_log := w_log w; w_reg := w_reg w |}.
Definition set_flags (f : Flags) (w : world) : world :=
  {| w_heap := w_heap w; w_flags := f; w_calls := w_calls w;
     w_log := w_log w; w_reg := w_reg w |}.
Definition set_reg (r : Registry) (w : world) : world :=
  {| w_heap := w_heap w; w_flags := w_flags w; w_calls := w_calls w;
     w_log := w_log w; w_reg := r |}.
Definition record (c : call Descriptor) (w : world) : world :=
  {| w_heap := w_heap w; w_flags := w_flags w; w_calls := w_calls w ++ [c];
     w_log := w_log w; w_reg := w_reg w |}.
Definition set_log (l : list (level * string)) (w : world) : world :=
  {| w_heap := w_heap w; w_flags := w_flags w; w_calls := w_calls w;
     w_log := l; w_reg := w_reg w |}.
(** The world after the calls [cs] have left the registries in [r]. *)
Definition after (cs : list (call Descriptor)) (r : Registry) (w : world) : world :=
  {| w_heap := w_heap w; w_flags := w_flags w; w_calls := w_calls w ++ cs;
     w_log := w_log w; w_reg := r |}.
Definition add_log (l : level) (msg : string) (w : world) : world :=
  {| w_heap := w_heap w; w_flags := w_flags w; w_calls := w_calls w;
     w_log := w_log w ++ [(l, msg)]; w_reg := w_reg w |}.

Definition FLAGS : M Flags := fun w => (inr (w_flags w), w).
Definition assign_root_package_dir (d : string) : M unit :=
  fun w => (inr tt, set_flags (set_root_package_dir (w_flags w) d) w).

Definition logging_warning (msg : string) : M unit :=
  fun w => (inr tt, add_log WARNING msg w).
Definition logging_error (msg : string) : M unit :=
  fun w => (inr tt, add_log ERROR msg w).

(** A dict display [{k1: v1, ...}]: a new object at the next address. *)
Definition new_dict (d : dict) : M value :=
  fun w => (inr (VDict (List.length (w_heap w))), set_heap (w_heap w ++ [d]) w).

(** [d.get(k, default)] *)
Definition py_get (d : value) (k : string) (default : value) : M value :=
  fun w => match d with
           | VDict a =>
               match w_heap w !! a with
               | Some o => (inr (from_option id default (Dict.lookup k o)), w)
               | None => (inl (OtherError "SystemError" "dangling reference"), w)
               end
           | _ => (inl (AttributeError "get"), w)
           end.

(** [d[k]] *)
Definition py_getitem (d : value) (k : string) : M value :=
  fun w => match d with
           | VDict a =>
               match w_heap w !! a with
               | Some o =>
                   match Dict.lookup k o with
                   | Some v => (inr v, w)
                   | None => (inl (KeyError k), w)
                   end
               | None => (inl (OtherError "SystemError" "dangling reference"), w)
               end
           | _ => (inl (TypeError "subscript"), w)
           end.

(** [d[k] = v]: the object at the address of [d] is updated in place. *)
Definition py_setitem (d : value) (k : string) (v : value) : M unit :=
  fun w => match d with
           | VDict a =>
               match w_heap w !! a with
               | Some o => (inr tt, set_heap (<[a := Dict.set k v o]> (w_heap w)) w)
               | None => (inl (OtherError "SystemError" "dangling reference"), w)
               end
           | _ => (inl (TypeError "item assignment"), w)
           end.

(** [d.iteritems()], consumed at once: the entries in iteration order. *)
Definition py_iteritems (d : value) : M (list (string * value)) :=
  fun w => match d with
           | VDict a =>
               match w_heap w !! a with
               | Some o => (inr o, w)
               | None => (inl (OtherError "SystemError" "dangling reference"), w)
               end
           | _ => (inl (AttributeError "iteritems"), w)
           end.

(** Truth value of an object ([if v:]): containers are true when they are
    not empty. *)
Definition truth_value (h : heap) (v : value) : result bool :=
  match v with
  | VNone => inr false
  | VBool b => inr b
  | VInt z => inr (negb (Z.eqb z 0))
  | VStr s => inr (negb (String.eqb s EmptyString))
  | VList l => inr (negb (bool_decide (l = [])))
  | VDict a =>
      match h !! a with
      | Some o => inr (negb (bool_decide (o = [])))
      | None => inl (OtherError "SystemError" "dangling reference")
      end
  end.

Definition py_truthy (v : value) : M bool :=
  fun w => (truth_value (w_heap w) v, w).

(** [sorted(items)] on [(name, value)] pairs with distinct names: ascending
    by name. *)
Definition item_le (x y : string * value) : Prop := String.le (fst x) (fst y).
Definition py_sorted (items : list (string * value)) : list (string * value) :=
  merge_sort item_le items.

(** A call that returns nothing the sources use. *)
Definition invoke (c : call Descriptor) : M unit :=
  fun w => let w1 := record c w in
           match respond c (w_heap w1) (w_reg w1) with
           | inl e => (inl e, w1)
           | inr r => (inr tt, set_reg r w1)
           end.

(** Calls with a result. *)
Definition call_FetchDiscoveryDoc (url : string) : M value :=
  fun w => let w1 := record (FetchDiscoveryDoc url) w in
           match fetch_discovery_doc url (w_heap w1) with
           | inl e => (inl e, w1)
           | inr (doc, h) => (inr doc, set_heap h w1)
           end.

Definition call_json_load (path : string) : M value :=
  fun w => let w1 := record (json_load path) w in
           match json_load_file path (w_heap w1) with
           | inl e => (inl e, w1)
           | inr (doc, h) => (inr doc, set_heap h w1)
           end.

Definition call_Names (strip : list string) (convention : string) (cap : bool) : M Names :=
  do invoke (Names_new strip convention cap) then
  ret {| strip_prefixes := strip; name_convention := convention;
         capitalize_enums := cap |}.

Definition call_ClientInfo_Create (doc : value) (sc : list string)
    (cid csec : option string) (ua : string) (names : Names)
    (key : option string) : M ClientInfo :=
  fun w => let w1 := record (ClientInfo_Create doc sc cid csec ua names key) w in
           match client_info_create doc (w_heap w1) sc cid csec ua names key with
           | inl e => (inl e, w1)
           | inr ci => (inr ci, w1)
           end.

Definition call_GetPackage (dir : string) : M string :=
  fun w => let w1 := record (GetPackage dir) w in
           match get_package dir with
           | inl e => (inl e, w1)
           | inr s => (inr s, w1)
           end.

Definition call_LookupDescriptorOrDie (name : string) : M Descriptor :=
  fun w => let w1 := record (LookupDescriptorOrDie name) w in
           match lookup_descriptor name (w_heap w1) (w_reg w1) with
           | inl e => (inl e, w1)
           | inr d => (inr d, w1)
           end.

(** [registry.scopes] *)
Definition services_registry_scopes : M (list string) :=
  fun w => (inr (registry_scopes (w_reg w)), w).

(** [client_info._replace(scopes=s)] *)
Definition call_replace_scopes (ci : ClientInfo) (s : list string) : M ClientInfo :=
  fun w => (inr (ClientInfo__replace_scopes ci s), record (ClientInfo__replace s) w).

End Primitives.

(** ** gen_client_lib.py *)

Section GenClientLib.

Context `{C : Collaborators}.

(** The generator object: the attributes [__init__] assigns.  The three
    registries it also holds are the collaborators' state. *)
Record DescriptorGenerator : Type := {
  self_discovery_doc : value;
  self_client_info : ClientInfo;
  self_outdir : string;
  self_use_proto2 : bool;
  self_description : value;
  self_package : string;
  self_version : string;
  self_root_package : string;
  self_base_files_package : string;
  self_base_files_target : string;
  self_names : Names;
  self_base_url : value;
  self_base_path : string;
}.

Definition trace_entry : dict :=
  [("type", VStr "string");
   ("description", VStr TRACE_HELP);
   ("location", VStr "query")].

Definition _StandardQueryParametersSchema (discovery_doc : value) : M value :=
  let* default := new_dict [] in
  let* parameters := py_get discovery_doc "parameters" default in
  let* standard_query_schema :=
    new_dict [("id", VStr "StandardQueryParameters");
              ("type", VStr "object");
              ("description", VStr "Query parameters accepted by all methods.");
              ("properties", parameters)] in
  (* We add an entry for the trace, since Discovery doesn't. *)
  let* trace := new_dict trace_entry in
  let* properties := py_getitem standard_query_schema "properties" in
  do py_setitem properties "trace" trace then
  ret standard_query_schema.

(** [urlparse.urljoin(base, url)]: two strings are joined; otherwise a
    false [base] gives [url] back as it is, a false [url] gives [base]
    back, and two true values that are not both strings raise. *)
Definition py_urljoin (base url : value) : M value :=
  match base, url with
  | VStr b, VStr u => ret (VStr (urljoin b u))
  | _, _ =>
      let* base_true := py_truthy base in
      if negb base_true then ret url
      else
        let* url_true := py_truthy url in
        if negb url_true then ret base
        else raise (urljoin_error base url)
  end.

(** [x == s] for a string [s] *)
Definition equals_str (s : string) (x : value) : bool :=
  match x with
  | VStr t => String.eqb t s
  | _ => false
  end.

(** [sub in v]: a substring of a string, an element of a list, a key of a
    dict. *)
Definition py_in (sub : string) (v : value) : M bool :=
  fun w => match v with
           | VStr s => (inr (PyStr.contains sub s), w)
           | VList l => (inr (existsb (equals_str sub) l), w)
           | VDict a =>
               match w_heap w !! a with
               | Some o => (inr (bool_decide (is_Some (Dict.lookup sub o))), w)
               | None => (inl (OtherError "SystemError" "dangling reference"), w)
               end
           | _ => (inl (TypeError "argument is not iterable"), w)
           end.

(** ['%s' % v] *)
Definition py_format (v : value) : M string :=
  fun w => match v with
           | VStr s => (inr s, w)
           | _ => (inr (format_value v (w_heap w)), w)
           end.

Definition dquote : string := String (Ascii.ascii_of_nat 34) EmptyString.

(** ['Could not find path "%s" in API path "%s"' % (component, full_path)] *)
Definition path_warning (component full_path : string) : string :=
  "Could not find path " +:+ dquote +:+ component +:+ dquote +:+
  " in API path " +:+ dquote +:+ full_path +:+ dquote.

Definition _ComputePaths (package version : string) (discovery_doc : value)
    : M (value * string) :=
  let* rootUrl := py_getitem discovery_doc "rootUrl" in
  let* servicePath := py_getitem discovery_doc "servicePath" in
  let* full_path := py_urljoin rootUrl servicePath in
  let api_path_component := PyStr.join "/" [package; version; EmptyString] in
  let* found := py_in api_path_component full_path in
  if negb found then
    let* shown := py_format full_path in
    do logging_warning (path_warning api_path_component shown) then
    ret (full_path, EmptyString)
  else
    match full_path with
    | VStr s =>
        match PyStr.rpartition api_path_component s with
        | None => raise (ValueError "empty separator")
        | Some (prefix, _, suffix) =>
            ret (VStr (prefix +:+ api_path_component), suffix)
        end
    | _ => raise (AttributeError "rpartition")
    end.

Definition DescriptorGenerator__init__ (discovery_doc : value)
    (client_info : ClientInfo) (names : Names) (root_package outdir : string)
    (use_proto2 : bool) : M DescriptorGenerator :=
  let* description := py_get discovery_doc "description" (VStr EmptyString) in
  let package_ := package client_info in
  let version_ := version client_info in
  let base_files_package := "apitools.base.py" in
  let base_files_target := "//cloud/bigscience/apitools/base/py:apitools_base" in
  let* (base_url, base_path) :=
    _ComputePaths package_ (url_version client_info) discovery_doc in
  (* Order is important here: we need the schemas before we can
     define the services. *)
  do invoke (MessageRegistry_new client_info names description root_package
               base_files_package) then
  let* no_schemas := new_dict [] in
  let* schemas := py_get discovery_doc "schemas" no_schemas in
  let* schema_items := py_iteritems schemas in
  do for_ schema_items
       (fun item => invoke (AddDescriptorFromSchema (VStr (fst item)) (snd item))) then
  (* We need to add one more message type for the global parameters. *)
  let* standard_query_schema := _StandardQueryParametersSchema discovery_doc in
  let* schema_id := py_getitem standard_query_schema "id" in
  do invoke (AddDescriptorFromSchema schema_id standard_query_schema) then
  do invoke (CommandRegistry_new package_ version_ client_info root_package
               base_files_package base_url names) then
  let* global_params := call_LookupDescriptorOrDie "StandardQueryParameters" in
  do invoke (AddGlobalParameters global_params) then
  do invoke (ServiceRegistry_new client_info base_url base_path names
               root_package base_files_package) then
  let* no_services := new_dict [] in
  let* services := py_get discovery_doc "resources" no_services in
  let* service_items := py_iteritems services in
  do for_ (py_sorted service_items)
       (fun item => invoke (AddServiceFromResource (fst item) (snd item))) then
  (* We might also have top-level methods. *)
  let* api_methods := py_get discovery_doc "methods" (VList []) in
  let* has_api_methods := py_truthy api_methods in
  do (if has_api_methods then
        let* api_resource := new_dict [("methods", api_methods)] in
        invoke (AddServiceFromResource "api" api_resource)
      else ret tt) then
  let* new_scopes := services_registry_scopes in
  let* client_info' := call_replace_scopes client_info new_scopes in
  ret {| self_discovery_doc := discovery_doc;
         self_client_info := client_info';
         self_outdir := outdir;
         self_use_proto2 := use_proto2;
         self_description := description;
         self_package := package_;
         self_version := version_;
         self_root_package := root_package;
         self_base_files_package := base_files_package;
         self_base_files_target := base_files_target;
         self_names := names;
         self_base_url := base_url;
         self_base_path := base_path |}.

End GenClientLib.

(** ** gen_client.py *)

Section GenClient.

Context `{C : Collaborators}.

(** [a or b] on strings *)
Definition str_or (a b : string) : string :=
  if String.eqb a EmptyString then b else a.

Definition output_directory_exists : string :=
  "Output directory exists, pass --overwrite to replace the existing files.".

(** Create a codegen object from flags.  [None] is Python's [None]; the
    first step ends in [return None] when the fetch fails. *)
Definition _GetCodegenFromFlags : M (option DescriptorGenerator) :=
  let* F := FLAGS in
  let* loaded :=
    (if negb (String.eqb (discovery_url F) EmptyString) then
       try_except_CommunicationError
         (let* doc := call_FetchDiscoveryDoc (discovery_url F) in ret (Some doc))
         (ret None)
     else
       let infile_ := str_or (expanduser (infile F)) "/dev/stdin" in
       let* doc := call_json_load infile_ in ret (Some doc)) in
  match loaded with
  | None => ret None
  | Some discovery_doc =>
      let* names := call_Names (strip_prefix F) (experimental_name_convention F)
                      (experimental_capitalize_enums F) in
      let* client_info :=
        call_ClientInfo_Create discovery_doc (scope F) (client_id F)
          (client_secret F) (user_agent F) names (api_key F) in
      let outdir_ :=
        str_or (expanduser (outdir F)) (default_directory client_info) in
      if path_exists outdir_ && negb (overwrite F) then
        raise (ConfigurationValueError output_directory_exists)
      else
        do (if String.eqb (root_package_dir F) EmptyString
            then assign_root_package_dir outdir_ else ret tt) then
        let* F' := FLAGS in
        do assign_root_package_dir (abspath (root_package_dir F')) then
        let* F'' := FLAGS in
        let* root_package := call_GetPackage (root_package_dir F'') in
        let* codegen :=
          DescriptorGenerator__init__ discovery_doc client_info names
            root_package outdir_ (experimental_proto2_output F'') in
        ret (Some codegen)
  end.

Definition write (codegen : DescriptorGenerator) (file : string) (what : artifact)
    : M unit :=
  invoke (WriteArtifact (self_outdir codegen) file what).

Definition _WriteProtoFiles (codegen : option DescriptorGenerator) : M unit :=
  match codegen with
  | None => raise (AttributeError "outdir")
  | Some g =>
      do write g (messages_proto_file_name (self_client_info g)) MessagesProtoFile then
      write g (services_proto_file_name (self_client_info g)) ServicesProtoFile
  end.

Definition _WriteGeneratedFiles (g : DescriptorGenerator) : M unit :=
  do (if self_use_proto2 g then _WriteProtoFiles (Some g) else ret tt) then
  do write g (messages_file_name (self_client_info g)) MessagesFile then
  do write g (client_file_name (self_client_info g)) ClientLibrary then
  write g (cli_file_name (self_client_info g)) Cli.

Definition _WriteInit (g : DescriptorGenerator) : M unit :=
  write g "__init__.py" Init.

(** [GenerateClient.Run]: the value returned is the exit status
    ([VNone] when the method falls off its end). *)
Definition GenerateClient_Run : M value :=
  let* codegen := _GetCodegenFromFlags in
  match codegen with
  | None =>
      do logging_error "Failed to create codegen, exiting." then
      ret (VInt 128)
  | Some g =>
      do _WriteGeneratedFiles g then
      do _WriteInit g then
      ret VNone
  end.

(** [GenerateProto.Run] *)
Definition GenerateProto_Run : M value :=
  let* codegen := _GetCodegenFromFlags in
  do _WriteProtoFiles codegen then
  ret VNone.

End GenClient.

(** ** gen_client.py: the flag validators and the local files *)

Section LocalFiles.

(** [bool(s)] of a string *)
Definition str_truthy (s : string) : bool := negb (String.eqb s EmptyString).

(** The validators registered for [--infile] and [--discovery_url]; each
    lambda is applied to the value [i] of its flag. *)
Definition infile_validator (F : Flags) (i : string) : bool :=
  negb (str_truthy i && str_truthy (discovery_url F)).

Definition discovery_url_validator (F : Flags) (i : string) : bool :=
  negb (str_truthy i && str_truthy (infile F)).

(** The files of the working directory: the content by name. *)
Definition files : Type := string -> option string.

(** [pkgutil.get_data(package, resource)], which returns the data or [None],
    or raises; and the exception, if any, of opening a file for writing. *)
Variable get_data : string -> string -> result (option string).
Variable open_error : string -> option exn.

(** [open(name, 'w')]: the file is created, or emptied. *)
Definition open_w (name : string) (fs : files) : result unit * files :=
  match open_error name with
  | Some e => (inl e, fs)
  | None =>
      (inr tt, fun n => if String.eqb n name then Some EmptyString else fs n)
  end.

(** [out.write(data)] *)
Definition file_write (name data : string) (fs : files) : files :=
  fun n =>
    if String.eqb n name then Some (default EmptyString (fs n) +:+ data)
    else fs n.

Definition _CopyLocalFile (filename : string) (fs : files)
    : result unit * files :=
  match open_w filename fs with
  | (inl e, fs1) => (inl e, fs1)
  | (inr _, fs1) =>
      match get_data "apitools.base.py" filename with
      | inl e => (inl e, fs1)
      | inr None =>
          (inl (OtherError "GeneratedClientError"
                  ("Could not find file " +:+ filename)), fs1)
      | inr (Some src_data) => (inr tt, file_write filename src_data fs1)
      end
  end.

End LocalFiles.

(** ** The vocabulary of the statements *)

Section Observations.

Context `{C : Collaborators}.

(** The dict object that [v] refers to, if any. *)
Definition deref (h : heap) (v : value) : option dict :=
  match v with
  | VDict a => h !! a
  | _ => None
  end.

(** The entry of [k] in the dict that [doc] refers to, if any. *)
Definition doc_field (h : heap) (doc : value) (k : string) : option value :=
  o ← deref h doc; Dict.lookup k o.

(** The mapping under the key [k] of the document: its entries, none when
    the key is absent. *)
Definition doc_mapping (h : heap) (doc : value) (k : string) : option dict :=
  o ← deref h doc;
  match Dict.lookup k o with
  | None => Some []
  | Some v => deref h v
  end.

(** The dict that [_StandardQueryParametersSchema] builds. *)
Definition sqp_schema (parameters : value) : dict :=
  [("id", VStr "StandardQueryParameters");
   ("type", VStr "object");
   ("description", VStr "Query parameters accepted by all methods.");
   ("properties", parameters)].

(** The registration of a schema of the document under its name, and of a
    resource of the document as a service. *)
Definition add_schema (item : string * value) : call Descriptor :=
  AddDescriptorFromSchema (VStr (fst item)) (snd item).
Definition add_service (item : string * value) : call Descriptor :=
  AddServiceFromResource (fst item) (snd item).

(** The calls of a completed construction, in order. *)
Definition construction_calls (ci : ClientInfo) (names : Names)
    (root_package : string) (description : value) (base_url : value)
    (base_path : string)
    (schema_items : list (string * value)) (sqs : addr) (d : Descriptor)
    (services : list (string * value)) (new_scopes : list string)
    : list (call Descriptor) :=
  MessageRegistry_new ci names description root_package "apitools.base.py" ::
  (add_schema <$> schema_items) ++
  [AddDescriptorFromSchema (VStr "StandardQueryParameters") (VDict sqs);
   CommandRegistry_new (package ci) (version ci) ci root_package
     "apitools.base.py" base_url names;
   LookupDescriptorOrDie "StandardQueryParameters";
   AddGlobalParameters d;
   ServiceRegistry_new ci base_url base_path names root_package
     "apitools.base.py"] ++
  (add_service <$> services) ++
  [ClientInfo__replace new_scopes].

(** The registries after the calls [steps], each made on the heap that is
    given with it; none when one of the calls raises. *)
Fixpoint responses (steps : list (heap * call Descriptor)) (reg : Registry)
    : option Registry :=
  match steps with
  | [] => Some reg
  | (h, c) :: steps =>
      match respond c h reg with
      | inr reg' => responses steps reg'
      | inl _ => None
      end
  end.

(** The calls of a construction that precede the lookup of the global
    parameters, each with the heap it is made on: [h0] is the heap at the
    start, [h1] has the default for [schemas] as well, [h2] has the
    synthetic schema. *)
Definition steps_before_lookup (ci : ClientInfo) (names : Names)
    (root_package : string) (description : value) (base_url : value)
    (schema_items : list (string * value)) (sqs : addr) (h0 h1 h2 : heap)
    : list (heap * call Descriptor) :=
  (h0, MessageRegistry_new ci names description root_package "apitools.base.py") ::
  ((fun item => (h1, add_schema item)) <$> schema_items) ++
  [(h2, AddDescriptorFromSchema (VStr "StandardQueryParameters") (VDict sqs));
   (h2, CommandRegistry_new (package ci) (version ci) ci root_package
          "apitools.base.py" base_url names)].

(** [d] is what the message registry returns for [name] on the heap [h],
    once the calls [steps] have been made from the registries [reg0]. *)
Definition looked_up (steps : list (heap * call Descriptor)) (reg0 : Registry)
    (name : string) (h : heap) (d : Descriptor) : Prop :=
  exists reg,
    responses steps reg0 = Some reg /\ lookup_descriptor name h reg = inr d.

(** The synthetic resource for the top-level methods of the document:
    [("api", {'methods': methods})] when the document has a [methods]
    entry that is true (not empty), nothing otherwise. *)
Definition api_resource (h : heap) (doc : value) (api : list (string * value)) : Prop :=
  exists o, deref h doc = Some o /\
    let methods := default (VList []) (Dict.lookup "methods" o) in
    (truth_value h methods = inr true /\
     exists a, api = [("api", VDict a)] /\ h !! a = Some [("methods", methods)]) \/
    (truth_value h methods = inr false /\ api = []).

(** In the calls [cs], a service is only added after the schema at
    address [a] was registered as [StandardQueryParameters]. *)
Definition services_follow (a : addr) (cs : list (call Descriptor)) : Prop :=
  forall i name methods,
    cs !! i = Some (AddServiceFromResource name methods) ->
    exists j, j < i /\
      cs !! j = Some (AddDescriptorFromSchema (VStr "StandardQueryParameters") (VDict a)).

(** How the flags say the document is loaded: the call, and its outcome
    on a heap. *)
Definition load_call (F : Flags) : call Descriptor :=
  if negb (String.eqb (discovery_url F) EmptyString)
  then FetchDiscoveryDoc (discovery_url F)
  else json_load (str_or (expanduser (infile F)) "/dev/stdin").

Definition load_result (F : Flags) (h : heap) : result (value * heap) :=
  if negb (String.eqb (discovery_url F) EmptyString)
  then fetch_discovery_doc (discovery_url F) h
  else json_load_file (str_or (expanduser (infile F)) "/dev/stdin") h.

(** The [Names] object the flags describe. *)
Definition names_of_flags (F : Flags) : Names :=
  {| strip_prefixes := strip_prefix F;
     name_convention := experimental_name_convention F;
     capitalize_enums := experimental_capitalize_enums F |}.

(** The exceptions that the registries and [util.GetPackage] can raise. *)
Definition raised_by_collaborators (e : exn) : Prop :=
  (exists c h r, respond c h r = inl e) \/
  (exists name h r, lookup_descriptor name h r = inl e) \/
  (exists dir, get_package dir = inl e) \/
  (exists base url, urljoin_error base url = e).

(** What [_GetCodegenFromFlags] does once the output-directory check has
    passed: it settles [root_package_dir] and constructs the generator. *)
Definition construct_after_check (F : Flags) (discovery_doc : value)
    (client_info : ClientInfo) (outdir_ : string) : M (option DescriptorGenerator) :=
  do (if String.eqb (root_package_dir F) EmptyString
      then assign_root_package_dir outdir_ else ret tt) then
  let* F' := FLAGS in
  do assign_root_package_dir (abspath (root_package_dir F')) then
  let* F'' := FLAGS in
  let* root_package := call_GetPackage (root_package_dir F'') in
  let* codegen :=
    DescriptorGenerator__init__ discovery_doc client_info (names_of_flags F)
      root_package outdir_ (experimental_proto2_output F'') in
  ret (Some codegen).

(** Any exception but the one of the output-directory check. *)
Definition benign (e : exn) : Prop :=
  e <> ConfigurationValueError output_directory_exists.

Definition is_service (c : call Descriptor) : bool :=
  match c with AddServiceFromResource _ _ => true | _ => false end.

Definition is_replace (c : call Descriptor) : bool :=
  match c with ClientInfo__replace _ => true | _ => false end.

(** Every call that [m] makes satisfies [P]. *)
Definition emits {A} (P : call Descriptor -> Prop) (m : M A) : Prop :=
  forall w r w', m w = (r, w') ->
    exists cs, w_calls w' = w_calls w ++ cs /\ Forall P cs.

(** A computation whose first part adds no service: what follows decides. *)
Definition guarded {A} (a : addr) (m : M A) (w : world) : Prop :=
  forall r w', m w = (r, w') ->
    exists cs, w_calls w' = w_calls w ++ cs /\ services_follow a cs.

(** [m] never raises the exception of the output-directory check. *)
Definition raises_benign {A} (m : M A) : Prop :=
  forall w e w', m w = (inl e, w') -> benign e.

End Observations.

(** ** More vocabulary: outcomes of a computation *)

Section Outcomes.

Context `{C : Collaborators}.

(** Every value that [m] returns satisfies [P]. *)
Definition returns_with {A} (P : A -> Prop) (m : M A) : Prop :=
  forall w x w', m w = (inr x, w') -> P x.

(** When [m] raises, every call it has made satisfies [P]. *)
Definition fails_without {A} (P : call Descriptor -> Prop) (m : M A) : Prop :=
  forall w e w', m w = (inl e, w') ->
    exists cs, w_calls w' = w_calls w ++ cs /\ Forall P cs.

(** [m] only adds objects to the heap. *)
Definition heap_grows {A} (m : M A) : Prop :=
  forall w r w', m w = (r, w') -> exists ext, w_heap w' = w_heap w ++ ext.

(** The heap of [w] has the objects of [h0] as they are in [h0]. *)
Definition extends (h0 : heap) (w : world) : Prop :=
  exists ext, w_heap w = h0 ++ ext.

(** Reading the document, and writing a file. *)
Definition is_load (c : call Descriptor) : bool :=
  match c with FetchDiscoveryDoc _ | json_load _ => true | _ => false end.

Definition is_write (c : call Descriptor) : bool :=
  match c with WriteArtifact _ _ _ => true | _ => false end.

(** [m] leaves the flags as they are. *)
Definition keeps_flags {A} (m : M A) : Prop :=
  forall w r w', m w = (r, w') -> w_flags w' = w_flags w.

(** The flags [F'] are the flags [F], but for [root_package_dir]. *)
Definition same_but_root_package_dir (F F' : Flags) : Prop :=
  F' = set_root_package_dir F (root_package_dir F').

(** [m] writes no flag but [root_package_dir]. *)
Definition touches_only_root_package_dir {A} (m : M A) : Prop :=
  forall w r w', m w = (r, w') ->
    same_but_root_package_dir (w_flags w) (w_flags w').

(** The files a client generation writes for [g], in order. *)
Definition planned_writes (g : DescriptorGenerator) : list (call Descriptor) :=
  let ci := self_client_info g in
  let dir := self_outdir g in
  (if self_use_proto2 g
   then [WriteArtifact dir (messages_proto_file_name ci) MessagesProtoFile;
         WriteArtifact dir (services_proto_file_name ci) ServicesProtoFile]
   else []) ++
  [WriteArtifact dir (messages_file_name ci) MessagesFile;
   WriteArtifact dir (client_file_name ci) ClientLibrary;
   WriteArtifact dir (cli_file_name ci) Cli;
   WriteArtifact dir "__init__.py" Init].

(** The two files of a proto generation for [g], in order. *)
Definition planned_proto_writes (g : DescriptorGenerator) : list (call Descriptor) :=
  let ci := self_client_info g in
  let dir := self_outdir g in
  [WriteArtifact dir (messages_proto_file_name ci) MessagesProtoFile;
   WriteArtifact dir (services_proto_file_name ci) ServicesProtoFile].

(** The first step of [_GetCodegenFromFlags]: the document from the URL
    ([None] when the fetch fails to communicate) or from the file. *)
Definition load_document (F : Flags) : M (option value) :=
  if negb (String.eqb (discovery_url F) EmptyString) then
    try_except_CommunicationError
      (let* doc := call_FetchDiscoveryDoc (discovery_url F) in ret (Some doc))
      (ret None)
  else
    let infile_ := str_or (expanduser (infile F)) "/dev/stdin" in
    let* doc := call_json_load infile_ in ret (Some doc).

End Outcomes.

(** ** A small set of collaborators and documents to run the code on *)

Module Sample.

(** The registries keep the ids of the registered schemas and a scope per
    registered service; looking up an unregistered schema is fatal. *)
Definition registry : Type := list value * list string.

Definition is_registered (name : string) (ids : list value) : bool :=
  existsb (fun v => match v with VStr s => String.eqb s name | _ => false end) ids.

(** The document of the spec's scenario, with a schema [Foo] and a global
    parameter [fields]; the root object is at address 0. *)
Definition doc_heap : heap :=
  [ [("rootUrl", VStr "https://x.com/"); ("servicePath", VStr "pkg/v1/");
     ("schemas", VDict 1); ("parameters", VDict 3); ("resources", VDict 4)];
    [("Foo", VDict 2)];
    [("id", VStr "Foo"); ("type", VStr "object")];
    [("fields", VDict 5)];
    [("items", VDict 6); ("books", VDict 7)];
    [("type", VStr "string"); ("location", VStr "query")];
    [("methods", VDict 8)];
    [("methods", VDict 8)];
    [("get", VDict 9)];
    [("path", VStr "pkg/v1/items/{id}")] ].

Definition client : ClientInfo :=
  {| package := "pkg"; version := "v1"; url_version := "v1"; scopes := [];
     default_directory := "pkg"; client_rule_name := "pkg_v1_client";
     messages_rule_name := "pkg_v1_messages";
     messages_file_name := "pkg_v1_messages.py";
     client_file_name := "pkg_v1_client.py";
     cli_file_name := "pkg_v1.py";
     messages_proto_file_name := "pkg_v1_messages.proto";
     services_proto_file_name := "pkg_v1_services.proto" |}.

#[export] Instance collaborators : Collaborators := {|
  Descriptor := string;
  Registry := registry;
  urljoin := String.append;
  urljoin_error := fun _ _ => TypeError "Cannot mix str and non-str arguments";
  format_value := fun _ _ => "<object>";
  TRACE_HELP := "A tracing token to include in api requests.";
  expanduser := fun p => p;
  abspath := fun p => "/work/" +:+ p;
  path_exists := fun p => String.eqb p "existing";
  fetch_discovery_doc := fun url h =>
    if String.eqb url "https://down.example/" then inl (CommunicationError "unreachable")
    else inr (VDict (List.length h), h ++ doc_heap);
  json_load_file := fun path h => inr (VDict (List.length h), h ++ doc_heap);
  client_info_create := fun _ _ _ _ _ _ _ _ => inr client;
  get_package := fun dir => inr dir;
  lookup_descriptor := fun name _ r =>
    if is_registered name (fst r) then inr name else inl (OtherError "LookupError" name);
  respond := fun c _ r =>
    match c with
    | AddDescriptorFromSchema id _ => inr (fst r ++ [id], snd r)
    | AddServiceFromResource name _ => inr (fst r, snd r ++ ["scope/" +:+ name])
    | _ => inr r
    end;
  registry_scopes := snd;
|}.

Definition flags : Flags :=
  {| infile := "doc.json"; discovery_url := EmptyString; outdir := "out";
     overwrite := false; root_package_dir := EmptyString; strip_prefix := [];
     api_key := None; client_id := Some "id"; client_secret := Some "secret";
     scope := []; user_agent := EmptyString;
     experimental_capitalize_enums := false;
     experimental_name_convention := "legacy";
     experimental_proto2_output := false |}.

Definition names : Names :=
  {| strip_prefixes := []; name_convention := "legacy"; capitalize_enums := false |}.

Definition set_outdir (f : Flags) (d : string) : Flags :=
  {| infile := infile f; discovery_url := discovery_url f; outdir := d;
     overwrite := overwrite f; root_package_dir := root_package_dir f;
     strip_prefix := strip_prefix f; api_key := api_key f;
     client_id := client_id f; client_secret := client_secret f;
     scope := scope f; user_agent := user_agent f;
     experimental_capitalize_enums := experimental_capitalize_enums f;
     experimental_name_convention := experimental_name_convention f;
     experimental_proto2_output := experimental_proto2_output f |}.

Definition set_discovery_url (f : Flags) (u : string) : Flags :=
  {| infile := EmptyString; discovery_url := u; outdir := outdir f;
     overwrite := overwrite f; root_package_dir := root_package_dir f;
     strip_prefix := strip_prefix f; api_key := api_key f;
     client_id := client_id f; client_secret := client_secret f;
     scope := scope f; user_agent := user_agent f;
     experimental_capitalize_enums := experimental_capitalize_enums f;
     experimental_name_convention := experimental_name_convention f;
     experimental_proto2_output := experimental_proto2_output f |}.

Definition start (h : heap) (f : Flags) : world :=
  {| w_heap := h; w_flags := f; w_calls := []; w_log := []; w_reg := ([], []) |}.

(** The construction of a generator for the document at address 0. *)
Definition construct (h : heap) : result DescriptorGenerator * world :=
  DescriptorGenerator__init__ (VDict 0) client names "root" "out" false
    (start h flags).

Definition with_methods : heap :=
  <[0 := [("rootUrl", VStr "https://x.com/"); ("servicePath", VStr "pkg/v1/");
          ("resources", VDict 4); ("methods", VDict 8)]]> doc_heap.

(** Flags that name an output directory that exists, and flags that name
    a discovery URL that cannot be reached. *)
Definition flags_existing : Flags := set_outdir flags "existing".
Definition flags_down : Flags := set_discovery_url flags "https://down.example/".
Definition flags_down_existing : Flags := set_outdir flags_down "existing".

End Sample.

(** ** Documents that are not well formed, and collaborators that fail *)

Module Broken.
Import Sample.

(** A document without [rootUrl], and the sample document with a
    [parameters] entry that is not a mapping. *)
Definition no_root_url : heap := [[("servicePath", VStr "pkg/v1/")]].

(** Documents whose [rootUrl] is null, whose two fields are null, and
    whose [servicePath] is a list. *)
Definition null_root_url : heap :=
  [[("rootUrl", VNone); ("servicePath", VStr "pkg/v1/")]].
Definition null_paths : heap := [[("rootUrl", VNone); ("servicePath", VNone)]].
Definition list_service_path : heap :=
  [[("rootUrl", VStr ""); ("servicePath", VList [VStr "v1"])]].

Definition bad_parameters : heap :=
  <[0 := [("rootUrl", VStr "https://x.com/"); ("servicePath", VStr "pkg/v1/");
          ("schemas", VDict 1); ("parameters", VStr "none");
          ("resources", VDict 4)]]> doc_heap.

(** The sample collaborators, but no document can be loaded: the fetch
    refuses the URL, and the file is not there. *)
Definition failing : Collaborators := {|
  Descriptor := string;
  Registry := registry;
  urljoin := String.append;
  urljoin_error := fun _ _ => TypeError "Cannot mix str and non-str arguments";
  format_value := fun _ _ => "<object>";
  TRACE_HELP := "A tracing token to include in api requests.";
  expanduser := fun p => p;
  abspath := fun p => "/work/" +:+ p;
  path_exists := fun p => String.eqb p "existing";
  fetch_discovery_doc := fun url h => inl (OtherError "ValueError" "unknown url type");
  json_load_file := fun path h => inl (OtherError "IOError" "No such file");
  client_info_create := fun _ _ _ _ _ _ _ _ => inr client;
  get_package := fun dir => inr dir;
  lookup_descriptor := fun name _ r =>
    if is_registered name (fst r) then inr name else inl (OtherError "LookupError" name);
  respond := fun c _ r =>
    match c with
    | AddDescriptorFromSchema id _ => inr (fst r ++ [id], snd r)
    | AddServiceFromResource name _ => inr (fst r, snd r ++ ["scope/" +:+ name])
    | _ => inr r
    end;
  registry_scopes := snd;
|}.

Definition start_failing (f : Flags) : @world failing :=
  @Build_world failing [] f [] [] ([], []).

(** Flags that name a discovery URL. *)
Definition flags_url : Flags := set_discovery_url flags "ftp:/x".

(** Package data with one file, and a working directory that has an older
    copy of it and of another one. *)
Definition package_data (package resource : string) : result (option string) :=
  if String.eqb resource "base_api.py" then inr (Some "# base api") else inr None.

Definition writable (name : string) : option exn := None.

Definition old_files : files :=
  fun n =>
    if String.eqb n "base_api.py" then Some "# old base api"
    else if String.eqb n "app2.py" then Some "# old app" else None.

End Broken.

(** * Properties *)

(** ** Strings: occurrences, [find], [rfind] and [rpartition] *)

Module PyStrFacts.
Import PyStr.

Lemma app_nil_l s : EmptyString +:+ s = s.
Proof. reflexivity. Qed.

Lemma app_cons a s t : String a s +:+ t = String a (s +:+ t).
Proof. reflexivity. Qed.

Lemma app_nil_r s : s +:+ EmptyString = s.
Proof. induction s as [|a s IH]; [reflexivity|]. rewrite app_cons, IH. reflexivity. Qed.

Lemma app_assoc s t u : (s +:+ t) +:+ u = s +:+ t +:+ u.
Proof. induction s as [|a s IH]; [reflexivity|]. rewrite !app_cons, IH. reflexivity. Qed.

Lemma length_app s t : String.length (s +:+ t) = String.length s + String.length t.
Proof. induction s as [|a s IH]; [reflexivity|]. rewrite app_cons. simpl. lia. Qed.

Lemma app_eq_nil s t : s +:+ t = EmptyString -> s = EmptyString /\ t = EmptyString.
Proof. destruct s; [auto|]. rewrite app_cons. discriminate. Qed.

Lemma startswith_nil s : startswith EmptyString s = true.
Proof. destruct s; reflexivity. Qed.

Lemma startswith_cons a sub b s :
  startswith (String a sub) (String b s) = bool_decide (a = b) && startswith sub s.
Proof.
  unfold startswith. simpl. destruct (ascii_dec a b) as [->|Hne].
  - rewrite bool_decide_eq_true_2 by reflexivity. reflexivity.
  - rewrite bool_decide_eq_false_2 by assumption. reflexivity.
Qed.

Lemma startswith_iff sub s : startswith sub s = true <-> occurs_after EmptyString sub s.
Proof.
  unfold occurs_after. setoid_rewrite app_nil_l.
  revert s. induction sub as [|a sub IH]; intros s.
  - rewrite startswith_nil. split; [eauto|reflexivity].
  - destruct s as [|b s].
    + split; [discriminate|]. intros [q Hq]. rewrite app_cons in Hq. discriminate.
    + rewrite startswith_cons, andb_true_iff, bool_decide_eq_true, IH.
      setoid_rewrite app_cons. split.
      * intros [-> [q ->]]. eauto.
      * intros [q Hq]. injection Hq as -> ->. eauto.
Qed.

Lemma occurs_after_cons a p sub s :
  occurs_after (String a p) sub (String a s) <-> occurs_after p sub s.
Proof.
  unfold occurs_after. setoid_rewrite app_cons. split.
  - intros [q Hq]. injection Hq as ->. eauto.
  - intros [q ->]. eauto.
Qed.

Lemma occurs_after_head p sub s :
  occurs_after p sub s ->
  p = EmptyString \/ exists a p' s', p = String a p' /\ s = String a s' /\ occurs_after p' sub s'.
Proof.
  intros [q Hq]. destruct p as [|a p]; [auto|right].
  rewrite app_cons in Hq. subst s. exists a, p, (p +:+ sub +:+ q).
  repeat split. exists q. reflexivity.
Qed.

Lemma take_drop_app p t : take (String.length p) (p +:+ t) = p /\ drop (String.length p) (p +:+ t) = t.
Proof.
  induction p as [|a p [IH1 IH2]].
  - rewrite app_nil_l. split; [destruct t|]; reflexivity.
  - rewrite app_cons. cbn [String.length take drop]. rewrite IH1, IH2. auto.
Qed.

(** [find] returns an occurrence, and fails only when there is none. *)
Lemma find_spec sub s :
  match find sub s with
  | Some i => exists p, occurs_after p sub s /\ String.length p = i
  | None => ~ occurs sub s
  end.
Proof.
  induction s as [|a s IH]; cbn [find].
  - destruct (startswith sub EmptyString) eqn:E.
    + apply startswith_iff in E. exists EmptyString. auto.
    + intros [p Hp]. destruct (occurs_after_head _ _ _ Hp) as [->|(?&?&?&_&?&_)]; [|discriminate].
      apply startswith_iff in Hp. congruence.
  - destruct (startswith sub (String a s)) eqn:E.
    + apply startswith_iff in E. exists EmptyString. auto.
    + destruct (find sub s) as [i|]; cbn [fmap option_fmap option_map].
      * destruct IH as (p & Hp & <-). exists (String a p).
        split; [by apply occurs_after_cons|reflexivity].
      * intros [p Hp]. destruct (occurs_after_head _ _ _ Hp) as [->|(b&p'&s'&->&Hs&Hp')].
        -- apply startswith_iff in Hp. congruence.
        -- injection Hs as -> ->. apply IH. by exists p'.
Qed.

Lemma contains_iff sub s : contains sub s = true <-> occurs sub s.
Proof.
  unfold contains. rewrite bool_decide_eq_true.
  pose proof (find_spec sub s) as H. destruct (find sub s) as [i|].
  - split; [|eauto]. intros _. destruct H as (p & Hp & _). by exists p.
  - split; [intros [? ?]; discriminate|]. intros Ho. by destruct H.
Qed.

(** [rfind] returns the last occurrence, and fails only when there is
    none. *)
Lemma rfind_spec sub s :
  match rfind sub s with
  | Some j =>
      occurs_after (take j s) sub s /\
      s = take j s +:+ sub +:+ drop (j + String.length sub) s /\
      String.length (take j s) = j /\
      forall p, occurs_after p sub s -> String.length p <= j
  | None => ~ occurs sub s
  end.
Proof.
  induction s as [|a s IH].
  - cbn [rfind]. destruct (startswith sub EmptyString) eqn:E.
    + apply startswith_iff in E. destruct E as [q Hq].
      rewrite app_nil_l in Hq. symmetry in Hq. apply app_eq_nil in Hq as [-> ->].
      split; [|split; [|split]]; try reflexivity.
      * exists EmptyString. reflexivity.
      * intros p [q Hq]. symmetry in Hq. apply app_eq_nil in Hq as [-> _]. simpl. lia.
    + intros [p Hp]. destruct (occurs_after_head _ _ _ Hp) as [->|(?&?&?&_&?&_)]; [|discriminate].
      apply startswith_iff in Hp. congruence.
  - cbn [rfind]. destruct (rfind sub s) as [i|].
    + destruct IH as (Hocc & Heq & Hlen & Hmax). cbn [take drop Nat.add].
      split; [|split; [|split]].
      * by apply occurs_after_cons.
      * rewrite app_cons. congruence.
      * simpl. congruence.
      * intros p Hp. destruct (occurs_after_head _ _ _ Hp) as [->|(b&p'&s'&->&Hs&Hp')].
        -- simpl. lia.
        -- injection Hs as -> ->. simpl. apply Hmax in Hp'. lia.
    + destruct (startswith sub (String a s)) eqn:E.
      * apply startswith_iff in E. pose proof E as [q Hq]. rewrite app_nil_l in Hq.
        cbn [take Nat.add]. split; [|split; [|split]].
        -- assumption.
        -- rewrite app_nil_l. rewrite Hq at 2.
           destruct (take_drop_app sub q) as [_ ->]. assumption.
        -- reflexivity.
        -- intros p Hp. destruct (occurs_after_head _ _ _ Hp) as [->|(b&p'&s'&->&Hs&Hp')].
           ++ simpl. lia.
           ++ injection Hs as -> ->. destruct IH. by exists p'.
      * intros [p Hp]. destruct (occurs_after_head _ _ _ Hp) as [->|(b&p'&s'&->&Hs&Hp')].
        -- apply startswith_iff in Hp. congruence.
        -- injection Hs as -> ->. apply IH. by exists p'.
Qed.

(** [rpartition] at a separator that occurs: the split is at the last
    occurrence. *)
Lemma rpartition_occurs sep s :
  sep <> EmptyString -> occurs sep s ->
  exists prefix suffix,
    rpartition sep s = Some (prefix, sep, suffix) /\
    s = prefix +:+ sep +:+ suffix /\
    forall p, occurs_after p sep s -> String.length p <= String.length prefix.
Proof.
  intros Hne Ho. unfold rpartition. rewrite bool_decide_eq_false_2 by assumption.
  pose proof (rfind_spec sep s) as H. destruct (rfind sep s) as [j|]; [|contradiction].
  destruct H as (_ & Heq & Hlen & Hmax).
  exists (take j s), (drop (j + String.length sep) s).
  split; [reflexivity|]. split; [assumption|].
  intros p Hp. rewrite Hlen. by apply Hmax.
Qed.

Lemma join3 sep a b : join sep [a; b; EmptyString] = a +:+ sep +:+ b +:+ sep.
Proof. simpl. rewrite app_nil_r. reflexivity. Qed.

Lemma app_ne_nil_r s t : t <> EmptyString -> s +:+ t <> EmptyString.
Proof. intros Ht H. apply app_eq_nil in H as [_ ?]. contradiction. Qed.

End PyStrFacts.

(** ** Dicts *)

Module DictFacts.

Lemma lookup_set_eq k v d : Dict.lookup k (Dict.set k v d) = Some v.
Proof.
  induction d as [|[k' v'] d IH]; simpl.
  - by rewrite String.eqb_refl.
  - destruct (String.eqb k k') eqn:E; simpl; rewrite ?String.eqb_refl, ?E; auto.
Qed.

Lemma lookup_set_ne k k' v d :
  k <> k' -> Dict.lookup k' (Dict.set k v d) = Dict.lookup k' d.
Proof.
  intros Hne. induction d as [|[k0 v0] d IH]; simpl.
  - apply String.eqb_neq in Hne. rewrite String.eqb_sym in Hne. by rewrite Hne.
  - destruct (String.eqb k k0) eqn:E; simpl.
    + apply String.eqb_eq in E as <-.
      apply String.eqb_neq in Hne. rewrite String.eqb_sym in Hne. by rewrite Hne.
    + by rewrite IH.
Qed.

Lemma lookup_set k k' v d :
  Dict.lookup k' (Dict.set k v d) =
    if String.eqb k' k then Some v else Dict.lookup k' d.
Proof.
  destruct (String.eqb k' k) eqn:E.
  - apply String.eqb_eq in E as ->. apply lookup_set_eq.
  - apply String.eqb_neq in E. apply lookup_set_ne. congruence.
Qed.

End DictFacts.

(** ** Runs of the primitives *)

Section Runs.

Context `{C : Collaborators}.

Lemma bind_inv {A B} (m : M A) (k : A -> M B) w r w' :
  bind m k w = (r, w') ->
  (exists e, m w = (inl e, w') /\ r = inl e) \/
  (exists x w1, m w = (inr x, w1) /\ k x w1 = (r, w')).
Proof.
  unfold bind. destruct (m w) as [[e|x] w1]; intros H.
  - injection H as <- <-. left. eauto.
  - right. eauto.
Qed.

Lemma bind_inr {A B} (m : M A) (k : A -> M B) w y w' :
  bind m k w = (inr y, w') ->
  exists x w1, m w = (inr x, w1) /\ k x w1 = (inr y, w').
Proof.
  intros H. apply bind_inv in H as [(e & _ & [=])|H]. exact H.
Qed.

Lemma deref_app h ext v o : deref h v = Some o -> deref (h ++ ext) v = Some o.
Proof. destruct v; try discriminate. cbn. apply lookup_app_l_Some. Qed.

Lemma deref_lt h a o : deref h (VDict a) = Some o -> a < List.length h.
Proof. cbn. apply lookup_lt_Some. Qed.

Lemma doc_field_app h ext doc k v :
  doc_field h doc k = Some v -> doc_field (h ++ ext) doc k = Some v.
Proof.
  unfold doc_field. destruct (deref h doc) as [o|] eqn:E; [|discriminate].
  rewrite (deref_app _ ext _ _ E). auto.
Qed.

Lemma py_getitem_field doc k v w :
  doc_field (w_heap w) doc k = Some v -> py_getitem doc k w = (inr v, w).
Proof.
  destruct doc; try discriminate. cbn.
  destruct (w_heap w !! a) as [o|]; [|discriminate]. cbn.
  intros ->. reflexivity.
Qed.

Lemma py_getitem_inv doc k r w w' :
  py_getitem doc k w = (r, w') ->
  w' = w /\ forall v, r = inr v -> doc_field (w_heap w) doc k = Some v.
Proof.
  unfold py_getitem, doc_field.
  destruct doc; try (intros [= <- <-]; split; [reflexivity|discriminate]).
  cbn. destruct (w_heap w !! a) as [o|]; cbn.
  - destruct (Dict.lookup k o); intros [= <- <-];
      (split; [reflexivity|]); [intros ? [= <-]; reflexivity|discriminate].
  - intros [= <- <-]. split; [reflexivity|discriminate].
Qed.

Lemma py_get_deref doc o k default w :
  deref (w_heap w) doc = Some o ->
  py_get doc k default w = (inr (from_option id default (Dict.lookup k o)), w).
Proof.
  destruct doc; try discriminate. cbn. intros ->. reflexivity.
Qed.

Lemma py_get_inv doc k default w r w' :
  py_get doc k default w = (r, w') ->
  w' = w /\
  forall v, r = inr v ->
    exists o, deref (w_heap w) doc = Some o /\
              v = from_option id default (Dict.lookup k o).
Proof.
  unfold py_get. destruct doc; try (intros [= <- <-]; split; [reflexivity|discriminate]).
  cbn [deref]. destruct (w_heap w !! a) as [o|]; intros [= <- <-].
  - split; [reflexivity|]. intros v [= <-]. eauto.
  - split; [reflexivity|discriminate].
Qed.

Lemma py_iteritems_inv d w r w' :
  py_iteritems d w = (r, w') ->
  w' = w /\ forall items, r = inr items -> deref (w_heap w) d = Some items.
Proof.
  unfold py_iteritems. destruct d; try (intros [= <- <-]; split; [reflexivity|discriminate]).
  cbn [deref]. destruct (w_heap w !! a) as [o|]; intros [= <- <-];
    (split; [reflexivity|]); [intros ? [= <-]; reflexivity|discriminate].
Qed.

Lemma invoke_inv c w r w' :
  invoke c w = (r, w') ->
  (exists e, respond c (w_heap w) (w_reg w) = inl e /\ r = inl e /\ w' = record c w) \/
  (exists reg, respond c (w_heap w) (w_reg w) = inr reg /\ r = inr tt /\
               w' = after [c] reg w).
Proof.
  unfold invoke. cbn. destruct (respond c (w_heap w) (w_reg w)) as [e|reg];
    intros [= <- <-]; [left|right]; eauto.
Qed.

Lemma invoke_inr c w u w' :
  invoke c w = (inr u, w') -> exists reg, w' = after [c] reg w.
Proof.
  intros H. apply invoke_inv in H as [(e & _ & [=] & _)|(reg & _ & _ & ->)]. eauto.
Qed.

Lemma invoke_inr_respond c w u w' :
  invoke c w = (inr u, w') ->
  exists reg, respond c (w_heap w) (w_reg w) = inr reg /\ w' = after [c] reg w.
Proof.
  intros H. apply invoke_inv in H as [(e & _ & [=] & _)|(reg & Hr & _ & ->)]. eauto.
Qed.

Lemma responses_app steps1 steps2 reg :
  responses (steps1 ++ steps2) reg = responses steps1 reg ≫= responses steps2.
Proof.
  revert reg. induction steps1 as [|[h c] steps1 IH]; intros reg; [reflexivity|].
  cbn [app responses]. destruct (respond c h reg); [reflexivity|apply IH].
Qed.

Lemma after_after cs1 cs2 r1 r2 w :
  after cs2 r2 (after cs1 r1 w) = after (cs1 ++ cs2) r2 w.
Proof. unfold after. cbn. by rewrite app_assoc. Qed.

Lemma after_nil w : after [] (w_reg w) w = w.
Proof. destruct w. unfold after. cbn. by rewrite app_nil_r. Qed.

(** A loop of calls that completes has made every call, in order. *)
Lemma for_invoke_inr {A} (f : A -> call Descriptor) items w u w' :
  for_ items (fun item => invoke (f item)) w = (inr u, w') ->
  exists reg, w' = after (f <$> items) reg w.
Proof.
  revert w. induction items as [|x items IH]; intros w.
  - cbn. intros [= <- <-]. exists (w_reg w). by rewrite after_nil.
  - cbn [for_]. intros H. apply bind_inr in H as (? & w1 & Hx & H).
    apply invoke_inr in Hx as (r1 & ->). apply IH in H as (r2 & ->).
    exists r2. by rewrite after_after.
Qed.

(** A loop of calls that stops has made the calls up to the one that
    raised. *)
Lemma for_invoke_inv {A} (f : A -> call Descriptor) items w r w' :
  for_ items (fun item => invoke (f item)) w = (r, w') ->
  exists n reg, w' = after (f <$> take n items) reg w.
Proof.
  revert w. induction items as [|x items IH]; intros w.
  - cbn. intros [= <- <-]. exists 0, (w_reg w). by rewrite after_nil.
  - cbn [for_]. intros H. apply bind_inv in H as [(e & Hx & ->)|(? & w1 & Hx & H)].
    + apply invoke_inv in Hx as [(e' & _ & _ & ->)|(reg & _ & [=] & _)].
      exists 1, (w_reg w). reflexivity.
    + apply invoke_inr in Hx as (r1 & ->). apply IH in H as (n & r2 & ->).
      exists (S n), r2. by rewrite after_after.
Qed.

Lemma for_invoke_responses {A} (f : A -> call Descriptor) items w u w' :
  for_ items (fun item => invoke (f item)) w = (inr u, w') ->
  exists reg,
    responses ((fun item => (w_heap w, f item)) <$> items) (w_reg w) = Some reg /\
    w' = after (f <$> items) reg w.
Proof.
  revert w. induction items as [|x items IH]; intros w.
  - cbn. intros [= <- <-]. exists (w_reg w). by rewrite after_nil.
  - cbn [for_]. intros H. apply bind_inr in H as (? & w1 & Hx & H).
    apply invoke_inr_respond in Hx as (r1 & Hr1 & ->).
    apply IH in H as (r2 & Hr2 & ->).
    exists r2. split; [|by rewrite after_after].
    cbn [fmap list_fmap responses]. rewrite Hr1. exact Hr2.
Qed.

Lemma call_LookupDescriptorOrDie_inr name w d w' :
  call_LookupDescriptorOrDie name w = (inr d, w') ->
  lookup_descriptor name (w_heap w) (w_reg w) = inr d /\
  w' = record (LookupDescriptorOrDie name) w.
Proof.
  unfold call_LookupDescriptorOrDie. cbn.
  destruct (lookup_descriptor _ _ _); intros [= <- <-]; auto.
Qed.

Lemma call_LookupDescriptorOrDie_inv name w r w' :
  call_LookupDescriptorOrDie name w = (r, w') ->
  w' = record (LookupDescriptorOrDie name) w.
Proof.
  unfold call_LookupDescriptorOrDie. cbn.
  destruct (lookup_descriptor _ _ _); intros [= <- <-]; reflexivity.
Qed.

End Runs.

(** ** [_ComputePaths] *)

Section ComputePaths.

Context `{C : Collaborators}.
Import PyStr PyStrFacts.

Lemma component_nonempty package version :
  PyStr.join "/" [package; version; EmptyString] <> EmptyString.
Proof.
  rewrite join3. rewrite <- !app_assoc. apply app_ne_nil_r. discriminate.
Qed.

(** The computation once the two fields are read. *)
Lemma ComputePaths_unfold package version doc rootUrl servicePath w :
  doc_field (w_heap w) doc "rootUrl" = Some (VStr rootUrl) ->
  doc_field (w_heap w) doc "servicePath" = Some (VStr servicePath) ->
  _ComputePaths package version doc w =
    let full_path := urljoin rootUrl servicePath in
    let component := PyStr.join "/" [package; version; EmptyString] in
    if negb (PyStr.contains component full_path) then
      (inr (VStr full_path, EmptyString),
       add_log WARNING (path_warning component full_path) w)
    else
      match PyStr.rpartition component full_path with
      | None => (inl (ValueError "empty separator"), w)
      | Some (prefix, _, suffix) => (inr (VStr (prefix +:+ component), suffix), w)
      end.
Proof.
  intros Hr Hs. unfold _ComputePaths, bind.
  rewrite (py_getitem_field _ _ _ _ Hr), (py_getitem_field _ _ _ _ Hs).
  cbn [py_urljoin ret py_in py_format]. cbv zeta.
  destruct (negb _); [reflexivity|].
  destruct (PyStr.rpartition _ _) as [[[prefix mid] suffix]|]; reflexivity.
Qed.

(** C1.  With [rootUrl] and [servicePath] read from the document and
    joined, [_ComputePaths] splits the joined URL on the component
    [package/version/]: when the component occurs, the base URL is the part
    up to and including it and the path suffix is the rest, and nothing is
    logged; when it does not occur, a warning is logged, the call still
    returns, the base is the whole joined URL and the suffix is empty. *)
Theorem ComputePaths_splits_on_component
    package version doc rootUrl servicePath w :
  doc_field (w_heap w) doc "rootUrl" = Some (VStr rootUrl) ->
  doc_field (w_heap w) doc "servicePath" = Some (VStr servicePath) ->
  let full_path := urljoin rootUrl servicePath in
  let component := package +:+ "/" +:+ version +:+ "/" in
  (occurs component full_path ->
     exists prefix suffix,
       full_path = prefix +:+ component +:+ suffix /\
       _ComputePaths package version doc w =
         (inr (VStr (prefix +:+ component), suffix), w)) /\
  (~ occurs component full_path ->
     _ComputePaths package version doc w =
       (inr (VStr full_path, EmptyString),
        add_log WARNING (path_warning component full_path) w)).
Proof.
  intros Hr Hs full_path component.
  rewrite (ComputePaths_unfold _ _ _ _ _ _ Hr Hs). cbv zeta.
  pose proof (component_nonempty package version) as Hne.
  rewrite join3 in *. fold component in Hne |- *. fold full_path.
  split.
  - intros Ho. pose proof Ho as Hc. apply contains_iff in Hc. rewrite Hc. cbn [negb].
    destruct (rpartition_occurs _ _ Hne Ho) as (prefix & suffix & -> & Heq & _).
    exists prefix, suffix. auto.
  - intros Hno. destruct (PyStr.contains component full_path) eqn:Hc.
    + apply contains_iff in Hc. contradiction.
    + reflexivity.
Qed.

(** C10.  The two strings returned by [_ComputePaths] concatenate to the
    join of [rootUrl] and [servicePath], and no occurrence of the component
    [package/version/] in the joined URL starts after the one the base URL
    ends with: the split is at the last occurrence. *)
Theorem ComputePaths_concat_last_occurrence
    package version doc rootUrl servicePath w :
  doc_field (w_heap w) doc "rootUrl" = Some (VStr rootUrl) ->
  doc_field (w_heap w) doc "servicePath" = Some (VStr servicePath) ->
  let full_path := urljoin rootUrl servicePath in
  let component := package +:+ "/" +:+ version +:+ "/" in
  exists base_url base_path w',
    _ComputePaths package version doc w = (inr (VStr base_url, base_path), w') /\
    base_url +:+ base_path = full_path /\
    forall p q, full_path = p +:+ component +:+ q ->
      exists prefix, base_url = prefix +:+ component /\
                     String.length p <= String.length prefix.
Proof.
  intros Hr Hs full_path component.
  rewrite (ComputePaths_unfold _ _ _ _ _ _ Hr Hs). cbv zeta.
  pose proof (component_nonempty package version) as Hne.
  rewrite join3 in *. fold component in Hne |- *. fold full_path.
  destruct (PyStr.contains component full_path) eqn:Hc; cbn [negb].
  - apply contains_iff in Hc.
    destruct (rpartition_occurs _ _ Hne Hc) as (prefix & suffix & -> & Heq & Hmax).
    exists (prefix +:+ component), suffix, w. split; [reflexivity|].
    split; [rewrite app_assoc; congruence|].
    intros p q Hpq. exists prefix. split; [reflexivity|].
    apply Hmax. by exists q.
  - exists full_path, EmptyString, (add_log WARNING (path_warning component full_path) w).
    split; [reflexivity|]. split; [apply app_nil_r|].
    intros p q Hpq. exfalso.
    assert (occurs component full_path) as Ho by (exists p, q; exact Hpq).
    apply contains_iff in Ho. congruence.
Qed.

End ComputePaths.

(** ** [_StandardQueryParametersSchema] *)

Section StandardQueryParameters.
Context `{C : Collaborators}.
Import DictFacts.

Lemma lookup_fresh (h ext : heap) i : (h ++ ext) !! (List.length h + i) = ext !! i.
Proof. rewrite lookup_app_r by lia. f_equal. lia. Qed.

Lemma py_get_None doc k default w :
  deref (w_heap w) doc = None -> exists e, py_get doc k default w = (inl e, w).
Proof.
  destruct doc; cbn; try (intros _; eexists; reflexivity). intros ->. eauto.
Qed.

Lemma SQP_unfold doc o w :
  deref (w_heap w ++ [[]]) doc = Some o ->
  let n := List.length (w_heap w) in
  let parameters := default (VDict n) (Dict.lookup "parameters" o) in
  let h3 := w_heap w ++ [[]; sqp_schema parameters; trace_entry] in
  _StandardQueryParametersSchema doc w =
    match parameters with
    | VDict pa =>
        match h3 !! pa with
        | Some pd =>
            (inr (VDict (n + 1)),
             set_heap (<[pa := Dict.set "trace" (VDict (n + 2)) pd]> h3) w)
        | None => (inl (OtherError "SystemError" "dangling reference"), set_heap h3 w)
        end
    | _ => (inl (TypeError "item assignment"), set_heap h3 w)
    end.
Proof.
  intros Hdoc n parameters h3.
  unfold _StandardQueryParametersSchema.
  unfold bind at 1. cbn [new_dict].
  unfold bind at 1.
  erewrite py_get_deref; [|exact Hdoc].
  fold n. fold parameters.
  unfold bind at 1. cbn [new_dict set_heap w_heap].
  unfold bind at 1. cbn [new_dict set_heap w_heap].
  unfold bind at 1.
  rewrite <- !app_assoc. cbn [app]. rewrite !length_app. cbn [List.length].
  fold (sqp_schema parameters). fold n. fold h3.
  unfold py_getitem. cbn [w_heap set_heap].
  unfold h3 at 1. unfold n at 1. rewrite lookup_fresh. cbn [lookup list_lookup].
  change (Dict.lookup "properties" (sqp_schema parameters)) with (Some parameters).
  unfold bind, py_setitem, ret. cbn [w_heap set_heap]. fold h3.
  destruct parameters; try reflexivity.
  unfold h3. destruct (_ !! a); reflexivity.
Qed.

(** What the schema builder leaves behind, whatever the document. *)
Lemma SQP_inv doc w r w' :
  _StandardQueryParametersSchema doc w = (r, w') ->
  exists h', w' = set_heap h' w /\
    forall v, r = inr v ->
      v = VDict (List.length (w_heap w) + 1) /\
      List.length h' = List.length (w_heap w) + 3 /\
      doc_field h' v "id" = Some (VStr "StandardQueryParameters").
Proof.
  destruct (deref (w_heap w ++ [[]]) doc) as [o|] eqn:Hdoc.
  - rewrite (SQP_unfold _ _ _ Hdoc). cbv zeta.
    set (n := List.length (w_heap w)).
    set (parameters := default (VDict n) (Dict.lookup "parameters" o)).
    set (h3 := w_heap w ++ [[]; sqp_schema parameters; trace_entry]).
    assert (Hlen : List.length h3 = n + 3).
    { unfold h3. rewrite length_app. reflexivity. }
    assert (Hs : h3 !! (n + 1) = Some (sqp_schema parameters)).
    { unfold h3, n. by rewrite lookup_fresh. }
    destruct parameters as [| | | | |pa] eqn:Hpar;
      try (intros [= <- <-]; eexists; split; [reflexivity|discriminate]).
    destruct (h3 !! pa) as [pd|] eqn:Hpd; intros [= <- <-];
      (eexists; split; [reflexivity|]); [|discriminate].
    intros v [= <-]. split; [reflexivity|]. split; [by rewrite length_insert|].
    unfold doc_field. cbn [deref].
    destruct (decide (pa = n + 1)) as [->|Hne].
    + rewrite list_lookup_insert_eq by lia. cbn.
      rewrite lookup_set_ne by discriminate.
      rewrite Hs in Hpd. injection Hpd as <-. reflexivity.
    + rewrite list_lookup_insert_ne by assumption. rewrite Hs. reflexivity.
  - unfold _StandardQueryParametersSchema, bind. cbn [new_dict].
    destruct (py_get_None doc "parameters" (VDict (List.length (w_heap w)))
                (set_heap (w_heap w ++ [[]]) w) Hdoc) as [e He].
    destruct (py_get _ _ _ _) as [[e'|x] w1]; [|discriminate He].
    injection He as -> ->.
    intros [= <- <-]. eexists. split; [reflexivity|discriminate].
Qed.

(** C2.  For a document whose global [parameters] mapping is [params]
    (no entries when the key is absent), the schema that
    [_StandardQueryParametersSchema] returns has id
    [StandardQueryParameters] and type [object], and its [properties]
    mapping has, under every key but [trace], the entry of [params], and
    under [trace] a synthesized entry of type [string] and location
    [query], whether or not [params] had a [trace] of its own. *)
Theorem StandardQueryParametersSchema_spec doc params w :
  doc_mapping (w_heap w) doc "parameters" = Some params ->
  exists sqs w' schema props properties t entry,
    _StandardQueryParametersSchema doc w = (inr (VDict sqs), w') /\
    w_heap w' !! sqs = Some schema /\
    Dict.lookup "id" schema = Some (VStr "StandardQueryParameters") /\
    Dict.lookup "type" schema = Some (VStr "object") /\
    Dict.lookup "properties" schema = Some (VDict props) /\
    w_heap w' !! props = Some properties /\
    (forall k, Dict.lookup k properties =
               if String.eqb k "trace" then Some (VDict t) else Dict.lookup k params) /\
    w_heap w' !! t = Some entry /\
    Dict.lookup "type" entry = Some (VStr "string") /\
    Dict.lookup "location" entry = Some (VStr "query").
Proof.
  unfold doc_mapping. destruct (deref (w_heap w) doc) as [o|] eqn:Hdoc; [|discriminate].
  cbn [mbind option_bind]. intros Hp.
  rewrite (SQP_unfold doc o w) by (by apply deref_app). cbv zeta.
  set (n := List.length (w_heap w)).
  set (parameters := default (VDict n) (Dict.lookup "parameters" o)).
  set (h3 := w_heap w ++ [[]; sqp_schema parameters; trace_entry]).
  assert (Hs : h3 !! (n + 1) = Some (sqp_schema parameters)).
  { unfold h3, n. by rewrite lookup_fresh. }
  assert (Ht : h3 !! (n + 2) = Some trace_entry).
  { unfold h3, n. by rewrite lookup_fresh. }
  assert (exists pa, parameters = VDict pa /\ pa <= n /\ h3 !! pa = Some params)
    as (pa & Hpar & Hle & Hpa).
  { unfold parameters. destruct (Dict.lookup "parameters" o) as [v|]; cbn.
    - destruct v as [| | | | |pa]; try discriminate. cbn in Hp.
      exists pa. split; [reflexivity|]. split.
      + apply lookup_lt_Some in Hp. fold n in Hp. lia.
      + unfold h3. by apply lookup_app_l_Some.
    - injection Hp as <-. exists n. split; [reflexivity|]. split; [lia|].
      unfold h3, n. by apply list_lookup_middle. }
  rewrite Hpar, Hpa.
  exists (n + 1), (set_heap (<[pa := Dict.set "trace" (VDict (n + 2)) params]> h3) w),
    (sqp_schema parameters), pa, (Dict.set "trace" (VDict (n + 2)) params),
    (n + 2), trace_entry.
  cbn [w_heap set_heap].
  split; [reflexivity|].
  split; [rewrite list_lookup_insert_ne by lia; exact Hs|].
  split; [reflexivity|]. split; [reflexivity|].
  split; [by rewrite Hpar|].
  split; [apply list_lookup_insert_eq; by eapply lookup_lt_Some|].
  split; [intros k; apply lookup_set|].
  split; [rewrite list_lookup_insert_ne by lia; exact Ht|].
  split; reflexivity.
Qed.
End StandardQueryParameters.

Section Construction.
Context `{C : Collaborators}.

Lemma set_log_id w : set_log (w_log w) w = w.
Proof. by destruct w. Qed.

Lemma py_urljoin_inv base url w r w' :
  py_urljoin base url w = (r, w') -> w' = w.
Proof.
  assert (forall r w', (let* base_true := py_truthy base in
                        if negb base_true then ret url
                        else
                          let* url_true := py_truthy url in
                          if negb url_true then ret base
                          else raise (urljoin_error base url)) w = (r, w') ->
                       w' = w) as Hother.
  { clear r w'. intros r w'. unfold bind, py_truthy, ret, raise.
    destruct (truth_value (w_heap w) base) as [e|[|]]; cbn [negb];
      try (by intros [= _ <-]).
    destruct (truth_value (w_heap w) url) as [e|[|]]; by intros [= _ <-]. }
  destruct base, url; try apply Hother. by intros [= _ <-].
Qed.

Lemma py_in_inv sub v w r w' : py_in sub v w = (r, w') -> w' = w.
Proof.
  unfold py_in. destruct v; try (by intros [= _ <-]).
  destruct (w_heap w !! a); by intros [= _ <-].
Qed.

Lemma py_format_inv v w r w' :
  py_format v w = (r, w') -> w' = w /\ exists shown, r = inr shown.
Proof. unfold py_format. destruct v; intros [= <- <-]; eauto. Qed.

Lemma ComputePaths_inv package version doc w r w' :
  _ComputePaths package version doc w = (r, w') -> exists l, w' = set_log l w.
Proof.
  unfold _ComputePaths. intros H.
  apply bind_inv in H as [(e & H & _)|(rootUrl & w1 & H1 & H)].
  { apply py_getitem_inv in H as [-> _]. exists (w_log w). by rewrite set_log_id. }
  apply py_getitem_inv in H1 as [-> _].
  apply bind_inv in H as [(e & H & _)|(servicePath & w1 & H1 & H)].
  { apply py_getitem_inv in H as [-> _]. exists (w_log w). by rewrite set_log_id. }
  apply py_getitem_inv in H1 as [-> _].
  apply bind_inv in H as [(e & H & _)|(full_path & w1 & H1 & H)].
  { apply py_urljoin_inv in H as ->. exists (w_log w). by rewrite set_log_id. }
  apply py_urljoin_inv in H1 as ->.
  apply bind_inv in H as [(e & H & _)|(found & w1 & H1 & H)].
  { apply py_in_inv in H as ->. exists (w_log w). by rewrite set_log_id. }
  apply py_in_inv in H1 as ->.
  destruct (negb found).
  - apply bind_inv in H as [(e & H & _)|(shown & w1 & H1 & H)].
    { apply py_format_inv in H as [-> _]. exists (w_log w). by rewrite set_log_id. }
    apply py_format_inv in H1 as [-> _].
    injection H as _ <-. eexists. reflexivity.
  - destruct full_path as [| | |s| |];
      try (injection H as _ <-; exists (w_log w); by rewrite set_log_id).
    destruct (PyStr.rpartition _ _) as [[[prefix mid] suffix]|];
      injection H as _ <-; exists (w_log w); by rewrite set_log_id.
Qed.

Lemma doc_mapping_app h ext doc k d :
  doc_mapping h doc k = Some d -> doc_mapping (h ++ ext) doc k = Some d.
Proof.
  unfold doc_mapping. destruct (deref h doc) as [o|] eqn:E; [|discriminate].
  rewrite (deref_app _ ext _ _ E). cbn.
  destruct (Dict.lookup k o); [apply deref_app|auto].
Qed.

Lemma truth_value_app h ext v b :
  truth_value h v = inr b -> truth_value (h ++ ext) v = inr b.
Proof.
  destruct v; try (cbn; auto; fail). cbn [truth_value].
  destruct (h !! a) as [o|] eqn:E; [|discriminate].
  by rewrite (lookup_app_l_Some _ ext _ _ E).
Qed.

(** [d.get(k, {})] followed by [iteritems()] reads the mapping under [k]. *)
Lemma get_items_mapping h doc o k items :
  deref (h ++ [[]]) doc = Some o ->
  deref (h ++ [[]]) (default (VDict (List.length h)) (Dict.lookup k o)) = Some items ->
  doc_mapping (h ++ [[]]) doc k = Some items.
Proof.
  intros Hdoc Hitems. unfold doc_mapping. rewrite Hdoc. cbn.
  destruct (Dict.lookup k o); [exact Hitems|].
  cbn in Hitems. rewrite list_lookup_middle in Hitems by reflexivity. exact Hitems.
Qed.

(** A completed construction: the calls it made and the generator it
    returns. *)
Lemma init_success doc ci names rp outdir p2 w g w' :
  DescriptorGenerator__init__ doc ci names rp outdir p2 w = (inr g, w') ->
  exists description base_url base_path schema_items d service_items api,
    w_calls w' =
      w_calls w ++
      construction_calls ci names rp description base_url base_path schema_items
        (List.length (w_heap w) + 2) d (py_sorted service_items ++ api)
        (registry_scopes (w_reg w')) /\
    w_flags w' = w_flags w /\
    g = {| self_discovery_doc := doc;
           self_client_info :=
             ClientInfo__replace_scopes ci (registry_scopes (w_reg w'));
           self_outdir := outdir;
           self_use_proto2 := p2;
           self_description := description;
           self_package := package ci;
           self_version := version ci;
           self_root_package := rp;
           self_base_files_package := "apitools.base.py";
           self_base_files_target :=
             "//cloud/bigscience/apitools/base/py:apitools_base";
           self_names := names;
           self_base_url := base_url;
           self_base_path := base_path |} /\
    doc_mapping (w_heap w ++ [[]]) doc "schemas" = Some schema_items /\
    doc_field (w_heap w') (VDict (List.length (w_heap w) + 2)) "id" =
      Some (VStr "StandardQueryParameters") /\
    doc_mapping (w_heap w') doc "resources" = Some service_items /\
    api_resource (w_heap w') doc api /\
    let h2 := firstn (List.length (w_heap w) + 4) (w_heap w') in
    looked_up
      (steps_before_lookup ci names rp description base_url schema_items
         (List.length (w_heap w) + 2) (w_heap w) (w_heap w ++ [[]]) h2)
      (w_reg w) "StandardQueryParameters" h2 d.
Proof.
  unfold DescriptorGenerator__init__. intros H.
  apply bind_inr in H as (description & w1 & H1 & H).
  apply py_get_inv in H1 as [-> H1]. destruct (H1 _ eq_refl) as (o0 & Hdoc0 & Hdescr). clear H1.
  apply bind_inr in H as ([base_url base_path] & w1 & H1 & H).
  apply ComputePaths_inv in H1 as [l ->].
  apply bind_inr in H as (? & w1 & H1 & H).
  apply invoke_inr_respond in H1 as (reg1 & Hr1 & ->).
  apply bind_inr in H as (no_schemas & w1 & H1 & H).
  injection H1 as <- <-.
  apply bind_inr in H as (schemas & w1 & H1 & H).
  apply py_get_inv in H1 as [-> H1]. destruct (H1 _ eq_refl) as (o1 & Hdoc1 & Hschemas). clear H1.
  apply bind_inr in H as (schema_items & w1 & H1 & H).
  apply py_iteritems_inv in H1 as [-> H1]. specialize (H1 _ eq_refl).
  apply bind_inr in H as (? & w1 & H2 & H).
  apply for_invoke_responses in H2 as (reg2 & Hr2 & ->).
  apply bind_inr in H as (sqs & w1 & H2 & H).
  apply SQP_inv in H2 as (h2 & -> & H2). destruct (H2 _ eq_refl) as (-> & Hlen2 & Hid). clear H2.
  apply bind_inr in H as (schema_id & w1 & H2 & H).
  apply py_getitem_inv in H2 as [-> H2]. specialize (H2 _ eq_refl).
  cbn [w_heap w_reg set_heap after set_log] in *.
  rewrite Hid in H2. injection H2 as <-.
  apply bind_inr in H as (? & w1 & H2 & H).
  apply invoke_inr_respond in H2 as (reg3 & Hr3 & ->).
  apply bind_inr in H as (? & w1 & H2 & H).
  apply invoke_inr_respond in H2 as (reg4 & Hr4 & ->).
  apply bind_inr in H as (d & w1 & H2 & H).
  apply call_LookupDescriptorOrDie_inr in H2 as [Hd ->].
  apply bind_inr in H as (? & w1 & H2 & H).
  apply invoke_inr in H2 as (reg5 & ->).
  apply bind_inr in H as (? & w1 & H2 & H).
  apply invoke_inr in H2 as (reg6 & ->).
  apply bind_inr in H as (no_services & w1 & H2 & H).
  injection H2 as <- <-.
  apply bind_inr in H as (services & w1 & H2 & H).
  apply py_get_inv in H2 as [-> H2]. destruct (H2 _ eq_refl) as (o2 & Hdoc2 & Hservices). clear H2.
  apply bind_inr in H as (service_items & w1 & H2 & H).
  apply py_iteritems_inv in H2 as [-> H2]. specialize (H2 _ eq_refl).
  apply bind_inr in H as (? & w1 & H3 & H).
  apply for_invoke_inr in H3 as (reg7 & ->).
  apply bind_inr in H as (api_methods & w1 & H3 & H).
  apply py_get_inv in H3 as [-> H3]. destruct (H3 _ eq_refl) as (o3 & Hdoc3 & Hmethods). clear H3.
  apply bind_inr in H as (has_api & w1 & H3 & H).
  unfold py_truthy in H3. injection H3 as Htruth <-.
  cbn [w_heap set_heap after set_log record w_reg] in *.
  assert (Hres : doc_mapping (h2 ++ [[]]) doc "resources" = Some service_items).
  { subst services. exact (get_items_mapping _ _ _ _ _ Hdoc2 H2). }
  assert (o3 = o2) as -> by congruence.
  assert (Hsch : doc_mapping (w_heap w ++ [[]]) doc "schemas" = Some schema_items).
  { subst schemas. exact (get_items_mapping _ _ _ _ _ Hdoc1 H1). }
  rewrite length_app in Hid, Hlen2, H, Hr3. cbn [List.length] in Hid, Hlen2, H, Hr3.
  rewrite <- Nat.add_assoc in Hid, H, Hr3. cbn [Nat.add] in Hid, H, Hr3.
  assert (List.length h2 = List.length (w_heap w) + 4) as Hlen by lia.
  assert (Hlook : forall ext,
    let h := firstn (List.length (w_heap w) + 4) (h2 ++ ext) in
    looked_up
      (steps_before_lookup ci names rp description base_url schema_items
         (List.length (w_heap w) + 2) (w_heap w) (w_heap w ++ [[]]) h)
      (w_reg w) "StandardQueryParameters" h d).
  { intros ext. cbv zeta. rewrite <- Hlen, take_app_length.
    exists reg4. split; [|exact Hd].
    unfold steps_before_lookup. cbn [responses]. rewrite Hr1.
    rewrite responses_app. unfold add_schema. rewrite Hr2.
    cbn [mbind option_bind responses]. by rewrite Hr3, Hr4. }
  apply bind_inr in H as (? & w1 & H3 & H).
  cbn in H. injection H as <- <-.
  exists description, base_url, base_path, schema_items, d, service_items.
  destruct has_api.
  - apply bind_inr in H3 as (api & w2 & H4 & H3).
    injection H4 as <- <-. apply invoke_inr in H3 as (reg8 & ->).
    exists [("api", VDict (List.length (h2 ++ [[]])))].
    cbn [w_heap w_calls w_flags w_reg set_heap after set_log record].
    split; [|split; [reflexivity|split; [reflexivity|split;
      [exact Hsch|split; [|split; [|split]]]]]].
    + unfold construction_calls, add_schema, add_service.
      rewrite fmap_app. cbn [fmap list_fmap app].
      rewrite <- !app_assoc. reflexivity.
    + by do 2 apply doc_field_app.
    + by apply doc_mapping_app.
    + exists o2. split; [by apply deref_app|]. left. rewrite <- Hmethods.
      split; [by apply truth_value_app|].
      eexists. split; [reflexivity|]. by apply list_lookup_middle.
    + rewrite <- app_assoc. apply Hlook.
  - injection H3 as _ <-. exists [].
    cbn [w_heap w_calls w_flags w_reg set_heap after set_log record].
    split; [|split; [reflexivity|split; [reflexivity|split;
      [exact Hsch|split; [|split; [|split]]]]]].
    + unfold construction_calls, add_schema, add_service. rewrite app_nil_r.
      rewrite <- !app_assoc. reflexivity.
    + by apply doc_field_app.
    + exact Hres.
    + exists o2. split; [exact Hdoc2|]. right. rewrite <- Hmethods. auto.
    + apply Hlook.
Qed.


(** *** Calls of a run, whatever its outcome *)

Lemma emits_silent {A} P (m : M A) :
  (forall w r w', m w = (r, w') -> w_calls w' = w_calls w) -> emits P m.
Proof.
  intros Hs w r w' H. exists []. rewrite app_nil_r. split; [by eapply Hs|constructor].
Qed.

Lemma emits_bind {A B} P (m : M A) (k : A -> M B) :
  emits P m -> (forall x, emits P (k x)) -> emits P (bind m k).
Proof.
  intros Hm Hk w r w' H. apply bind_inv in H as [(e & H & _)|(x & w1 & H1 & H)].
  - by eapply Hm.
  - apply Hm in H1 as (cs1 & E1 & F1). apply Hk in H as (cs2 & E2 & F2).
    exists (cs1 ++ cs2). split; [by rewrite E2, E1, app_assoc|by apply Forall_app].
Qed.

Lemma emits_ret {A} P (x : A) : emits P (ret x).
Proof. apply emits_silent. by intros w r w' [= _ <-]. Qed.

Lemma emits_invoke P c : P c -> emits P (invoke c).
Proof.
  intros Hc w r w' H. exists [c]. split; [|by repeat constructor].
  apply invoke_inv in H as [(e & _ & _ & ->)|(reg & _ & _ & ->)]; reflexivity.
Qed.

Lemma emits_for {A} P (xs : list A) body :
  (forall x, emits P (body x)) -> emits P (for_ xs body).
Proof.
  intros Hb. induction xs as [|x xs IH]; cbn [for_].
  - apply emits_ret.
  - apply emits_bind; auto.
Qed.

Lemma emits_new_dict P d : emits P (new_dict d).
Proof. apply emits_silent. by intros w r w' [= _ <-]. Qed.

Lemma emits_py_get P d k v : emits P (py_get d k v).
Proof. apply emits_silent. intros w r w' H. by apply py_get_inv in H as [-> _]. Qed.

Lemma emits_py_getitem P d k : emits P (py_getitem d k).
Proof. apply emits_silent. intros w r w' H. by apply py_getitem_inv in H as [-> _]. Qed.

Lemma emits_py_iteritems P d : emits P (py_iteritems d).
Proof. apply emits_silent. intros w r w' H. by apply py_iteritems_inv in H as [-> _]. Qed.

Lemma emits_py_truthy P v : emits P (py_truthy v).
Proof. apply emits_silent. by intros w r w' [= _ <-]. Qed.

Lemma emits_ComputePaths P package version doc :
  emits P (_ComputePaths package version doc).
Proof. apply emits_silent. intros w r w' H. by apply ComputePaths_inv in H as [l ->]. Qed.

Lemma emits_StandardQueryParametersSchema P doc :
  emits P (_StandardQueryParametersSchema doc).
Proof. apply emits_silent. intros w r w' H. by apply SQP_inv in H as (h & -> & _). Qed.

Lemma emits_LookupDescriptorOrDie P name :
  P (LookupDescriptorOrDie name) -> emits P (call_LookupDescriptorOrDie name).
Proof.
  intros Hc w r w' H. exists [LookupDescriptorOrDie name].
  split; [|by repeat constructor].
  by apply call_LookupDescriptorOrDie_inv in H as ->.
Qed.

Lemma emits_scopes P : emits P services_registry_scopes.
Proof. apply emits_silent. by intros w r w' [= _ <-]. Qed.

Lemma emits_replace_scopes P ci s :
  P (ClientInfo__replace s) -> emits P (call_replace_scopes ci s).
Proof.
  intros Hc w r w' [= _ <-]. exists [ClientInfo__replace s].
  split; [reflexivity|by repeat constructor].
Qed.

Lemma services_follow_quiet a cs :
  Forall (fun c => is_service c = false) cs -> services_follow a cs.
Proof.
  intros Hq i name methods Hi. rewrite Forall_lookup in Hq.
  apply Hq in Hi. discriminate.
Qed.

Lemma services_follow_app a cs1 cs2 :
  Forall (fun c => is_service c = false) cs1 ->
  services_follow a cs2 -> services_follow a (cs1 ++ cs2).
Proof.
  intros Hq Hf i name methods Hi.
  destruct (decide (i < List.length cs1)) as [Hlt|Hge].
  - rewrite lookup_app_l in Hi by assumption.
    rewrite Forall_lookup in Hq. apply Hq in Hi. discriminate.
  - rewrite lookup_app_r in Hi by lia. apply Hf in Hi as (j & Hj & Hi).
    exists (List.length cs1 + j). split; [lia|].
    rewrite lookup_app_r by lia. rewrite <- Hi. f_equal. lia.
Qed.

Lemma services_follow_cons a cs :
  services_follow a
    (AddDescriptorFromSchema (VStr "StandardQueryParameters") (VDict a) :: cs).
Proof.
  intros [|i] name methods Hi; [discriminate|]. exists 0. split; [lia|reflexivity].
Qed.

Lemma guarded_bind {A B} a (m : M A) (k : A -> M B) w :
  emits (fun c => is_service c = false) m ->
  (forall x w1, m w = (inr x, w1) -> guarded a (k x) w1) ->
  guarded a (bind m k) w.
Proof.
  intros Hm Hk r w' H. apply bind_inv in H as [(e & H & _)|(x & w1 & H1 & H)].
  - apply Hm in H as (cs & E & F). exists cs. split; [exact E|by apply services_follow_quiet].
  - pose proof (Hm _ _ _ H1) as (cs1 & E1 & F1).
    apply (Hk _ _ H1) in H as (cs2 & E2 & F2).
    exists (cs1 ++ cs2). split; [by rewrite E2, E1, app_assoc|by apply services_follow_app].
Qed.

Lemma guarded_registered {B} a (k : unit -> M B) w :
  (forall x, emits (fun _ => True) (k x)) ->
  guarded a
    (bind (invoke (AddDescriptorFromSchema (VStr "StandardQueryParameters") (VDict a))) k) w.
Proof.
  intros Hk r w' H. apply bind_inv in H as [(e & H & _)|(x & w1 & H1 & H)].
  - apply invoke_inv in H as [(? & _ & _ & ->)|(? & _ & [=] & _)].
    eexists. split; [reflexivity|apply services_follow_cons].
  - apply invoke_inr in H1 as (reg & ->). apply Hk in H as (cs & E & _).
    eexists. split; [|apply services_follow_cons].
    rewrite E. cbn. rewrite <- app_assoc. reflexivity.
Qed.

Ltac emits_step :=
  first
    [ apply emits_ComputePaths
    | apply emits_StandardQueryParametersSchema
    | apply emits_LookupDescriptorOrDie
    | apply emits_scopes
    | apply emits_replace_scopes
    | apply emits_ret
    | apply emits_invoke
    | apply emits_for; intros ?
    | apply emits_new_dict
    | apply emits_py_get
    | apply emits_py_getitem
    | apply emits_py_iteritems
    | apply emits_py_truthy
    | apply emits_bind; [|intros ?]
    | match goal with |- emits _ (if ?b then _ else _) => destruct b end
    | match goal with |- emits _ (match ?x with (_, _) => _ end) => destruct x end
    | exact I
    | reflexivity ].
Ltac emits_auto := repeat emits_step.

(** On every run of the constructor, completed or not, a service is only
    added after the synthetic schema was registered. *)
Lemma init_guarded doc ci names rp outdir p2 w :
  guarded (List.length (w_heap w) + 2)
    (DescriptorGenerator__init__ doc ci names rp outdir p2) w.
Proof.
  unfold DescriptorGenerator__init__.
  apply guarded_bind; [emits_auto|intros description w1 H1].
  apply py_get_inv in H1 as [-> _].
  apply guarded_bind; [emits_auto|intros [base_url base_path] w1 H1].
  apply ComputePaths_inv in H1 as [l ->].
  apply guarded_bind; [emits_auto|intros ? w1 H1].
  apply invoke_inr in H1 as [reg1 ->].
  apply guarded_bind; [emits_auto|intros no_schemas w1 H1].
  injection H1 as <- <-.
  apply guarded_bind; [emits_auto|intros schemas w1 H1].
  apply py_get_inv in H1 as [-> _].
  apply guarded_bind; [emits_auto|intros schema_items w1 H1].
  apply py_iteritems_inv in H1 as [-> _].
  apply guarded_bind; [emits_auto|intros ? w1 H1].
  apply for_invoke_inr in H1 as [reg2 ->].
  apply guarded_bind; [emits_auto|intros sqs w1 H1].
  apply SQP_inv in H1 as (h2 & -> & H1). destruct (H1 _ eq_refl) as (-> & _ & Hid). clear H1.
  apply guarded_bind; [emits_auto|intros schema_id w1 H1].
  apply py_getitem_inv in H1 as [-> H1]. specialize (H1 _ eq_refl).
  cbn [w_heap set_heap after set_log] in *.
  rewrite Hid in H1. injection H1 as <-.
  rewrite length_app. cbn [List.length]. rewrite <- Nat.add_assoc. cbn [Nat.add].
  apply guarded_registered. intros ?. emits_auto.
Qed.

Lemma init_emits doc ci names rp outdir p2 :
  emits (fun _ => True) (DescriptorGenerator__init__ doc ci names rp outdir p2).
Proof. unfold DescriptorGenerator__init__. emits_auto. Qed.

(** *** Sorting the resources *)

#[local] Instance item_le_trans : Transitive item_le.
Proof. intros x y z. unfold item_le. apply transitivity. Qed.

#[local] Instance item_le_total : Total item_le.
Proof. intros x y. unfold item_le. apply total, _. Qed.

Lemma py_sorted_Permutation items : py_sorted items ≡ₚ items.
Proof. apply merge_sort_Permutation. Qed.




(** *** The constructor *)

Lemma construction_calls_split ci names rp description base_url base_path
    schema_items a d services new_scopes :
  construction_calls ci names rp description base_url base_path schema_items a d
    services new_scopes =
  (MessageRegistry_new ci names description rp "apitools.base.py" ::
   (add_schema <$> schema_items) ++
   [AddDescriptorFromSchema (VStr "StandardQueryParameters") (VDict a);
    CommandRegistry_new (package ci) (version ci) ci rp "apitools.base.py"
      base_url names;
    LookupDescriptorOrDie "StandardQueryParameters";
    AddGlobalParameters d;
    ServiceRegistry_new ci base_url base_path names rp "apitools.base.py"]) ++
  (add_service <$> services) ++ [ClientInfo__replace new_scopes].
Proof. unfold construction_calls. cbn [app]. by rewrite <- app_assoc. Qed.

Lemma construction_prefix_quiet P ci names rp description base_url base_path
    schema_items a d :
  (forall c, is_service c = false -> is_replace c = false -> P c) ->
  Forall P
    (MessageRegistry_new ci names description rp "apitools.base.py" ::
     (add_schema <$> schema_items) ++
     [AddDescriptorFromSchema (VStr "StandardQueryParameters") (VDict a);
      CommandRegistry_new (package ci) (version ci) ci rp "apitools.base.py"
        base_url names;
      LookupDescriptorOrDie "StandardQueryParameters";
      AddGlobalParameters d;
      ServiceRegistry_new ci base_url base_path names rp "apitools.base.py"]).
Proof.
  intros HP. constructor; [by apply HP|]. apply Forall_app. split.
  - apply Forall_fmap, Forall_forall. intros x _. by apply HP.
  - repeat (constructor; [by apply HP|]). constructor.
Qed.

(** C3.  The calls of [DescriptorGenerator.__init__] come in a fixed order.
    On every run, completed or not, a service is only added after the
    synthetic schema (a new object, at the second address after the input
    heap) was registered as [StandardQueryParameters].  A run that
    completes on a document whose [schemas] mapping is [schema_items] has
    made exactly these calls: the message registry is created, every schema
    of the document is registered under its name, then the synthetic
    schema, the command registry is created and seeded with the descriptor
    that the message registry, as these calls left it, returns for
    [StandardQueryParameters], the service registry is created, every
    resource is added, and the scopes of the client info are replaced.
    The description, the base URL and the base path in these calls are the
    ones the generator holds. *)
Theorem construction_order doc ci names rp outdir p2 w r w' :
  DescriptorGenerator__init__ doc ci names rp outdir p2 w = (r, w') ->
  let sqs := List.length (w_heap w) + 2 in
  exists cs,
    w_calls w' = w_calls w ++ cs /\
    services_follow sqs cs /\
    forall g schema_items,
      r = inr g ->
      doc_mapping (w_heap w) doc "schemas" = Some schema_items ->
      exists d resource_items api,
        cs = construction_calls ci names rp (self_description g)
               (self_base_url g) (self_base_path g) schema_items sqs d
               (py_sorted resource_items ++ api)
               (scopes (self_client_info g)) /\
        doc_field (w_heap w') (VDict sqs) "id" =
          Some (VStr "StandardQueryParameters") /\
        (let h2 := firstn (List.length (w_heap w) + 4) (w_heap w') in
         looked_up
           (steps_before_lookup ci names rp (self_description g)
              (self_base_url g) schema_items sqs
              (w_heap w) (w_heap w ++ [[]]) h2)
           (w_reg w) "StandardQueryParameters" h2 d) /\
        doc_mapping (w_heap w') doc "resources" = Some resource_items /\
        py_sorted resource_items ≡ₚ resource_items /\
        api_resource (w_heap w') doc api.
Proof.
  intros H sqs. destruct (init_guarded _ _ _ _ _ _ _ _ _ H) as (cs & E & Hf).
  exists cs. split; [exact E|]. split; [exact Hf|].
  intros g schema_items -> Hs.
  apply init_success in H
    as (description & base_url & base_path & items & d & resource_items & api
        & E' & _ & -> & Hs' & Hid & Hres & Hapi & Hd).
  rewrite (doc_mapping_app _ [[]] _ _ _ Hs) in Hs'. injection Hs' as <-.
  rewrite E in E'. apply app_inv_head in E'.
  exists d, resource_items, api. cbn [self_description self_base_url
    self_base_path self_client_info ClientInfo__replace_scopes scopes].
  split; [exact E'|]. split; [exact Hid|]. split; [exact Hd|].
  split; [exact Hres|]. split; [apply py_sorted_Permutation|exact Hapi].
Qed.

(** C4.  When the construction completes, the [scopes] of the generator's
    client info are the scopes of the service registry as all the calls
    left it, every other field is the one of the client info that was
    passed in (which the registries were created with and which is
    untouched: [_replace] builds a new tuple), and [_replace] was called
    once, as the last call of the construction. *)
Theorem scopes_replaced_once doc ci names rp outdir p2 w g w' :
  DescriptorGenerator__init__ doc ci names rp outdir p2 w = (inr g, w') ->
  let ci' := self_client_info g in
  scopes ci' = registry_scopes (w_reg w') /\
  ci' = ClientInfo__replace_scopes ci (registry_scopes (w_reg w')) /\
  (package ci' = package ci /\ version ci' = version ci /\
   url_version ci' = url_version ci /\
   default_directory ci' = default_directory ci /\
   client_rule_name ci' = client_rule_name ci /\
   messages_rule_name ci' = messages_rule_name ci /\
   messages_file_name ci' = messages_file_name ci /\
   client_file_name ci' = client_file_name ci /\
   cli_file_name ci' = cli_file_name ci /\
   messages_proto_file_name ci' = messages_proto_file_name ci /\
   services_proto_file_name ci' = services_proto_file_name ci) /\
  exists cs,
    w_calls w' = w_calls w ++ cs ++ [ClientInfo__replace (scopes ci')] /\
    Forall (fun c => is_replace c = false) cs.
Proof.
  intros H. apply init_success in H
    as (description & base_url & base_path & items & d & resource_items & api
        & E & _ & -> & _).
  cbn. split; [reflexivity|]. split; [reflexivity|].
  split; [repeat split|].
  rewrite construction_calls_split in E.
  eexists (_ ++ _). split; [rewrite <- app_assoc; exact E|].
  apply Forall_app. split.
  - by apply construction_prefix_quiet.
  - apply Forall_fmap, Forall_forall. by intros x _.
Qed.


(** C6.  When the construction completes, the services were added in this
    order: the resources of the document, then the synthetic services
    [api].  There is such a synthetic service exactly when the document
    has a [methods] entry that is true (a mapping that is not empty); there
    is then one, named [api], over a new dict [{'methods': methods}]. *)
Theorem api_service_iff_methods doc ci names rp outdir p2 w g w' :
  DescriptorGenerator__init__ doc ci names rp outdir p2 w = (inr g, w') ->
  exists pre resource_items api o,
    w_calls w' =
      w_calls w ++ pre ++ (add_service <$> py_sorted resource_items) ++
      (add_service <$> api) ++ [ClientInfo__replace (scopes (self_client_info g))] /\
    Forall (fun c => is_service c = false) pre /\
    doc_mapping (w_heap w') doc "resources" = Some resource_items /\
    deref (w_heap w') doc = Some o /\
    (api <> [] <->
     exists methods, Dict.lookup "methods" o = Some methods /\
                     truth_value (w_heap w') methods = inr true) /\
    (forall item, item ∈ api ->
       api = [item] /\
       exists a methods,
         item = ("api", VDict a) /\
         Dict.lookup "methods" o = Some methods /\
         w_heap w' !! a = Some [("methods", methods)]).
Proof.
  intros H. apply init_success in H
    as (description & base_url & base_path & items & d & resource_items & api
        & E & _ & -> & _ & _ & Hres & (o & Ho & Hapi) & _).
  rewrite construction_calls_split, fmap_app, <- app_assoc in E.
  eexists _, resource_items, api, o. split; [exact E|].
  split; [by apply construction_prefix_quiet|].
  split; [exact Hres|]. split; [exact Ho|].
  cbv zeta in Hapi. destruct (Dict.lookup "methods" o) as [methods|] eqn:Hm; cbn in Hapi.
  - destruct Hapi as [(Ht & a & -> & Ha)|(Ht & ->)].
    + split.
      * split; [intros _; eauto|discriminate].
      * intros item Hi. apply list_elem_of_singleton in Hi as ->.
        split; [reflexivity|]. eauto.
    + split.
      * split; [done|]. intros (m & [= <-] & Ht'). congruence.
      * intros item Hi. inv Hi.
  - destruct Hapi as [([=] & _)|(_ & ->)]. split.
    + split; [done|]. intros (m & [=] & _).
    + intros item Hi. inv Hi.
Qed.

End Construction.

(** ** The entry point *)

Section EntryPoint.

Context `{C : Collaborators}.

Lemma GetCodegenFromFlags_fetch_failure w msg :
  discovery_url (w_flags w) <> EmptyString ->
  fetch_discovery_doc (discovery_url (w_flags w)) (w_heap w) =
    inl (CommunicationError msg) ->
  _GetCodegenFromFlags w =
    (inr None, record (FetchDiscoveryDoc (discovery_url (w_flags w))) w).
Proof.
  intros Hurl Hfetch. apply String.eqb_neq in Hurl.
  unfold _GetCodegenFromFlags. unfold bind at 1. cbn [FLAGS].
  unfold bind at 1. rewrite Hurl. cbn [negb].
  unfold try_except_CommunicationError, bind, call_FetchDiscoveryDoc.
  cbn [record w_heap]. rewrite Hfetch. reflexivity.
Qed.

(** *** Exceptions of a run *)

Section Benign.

Hypothesis collaborators_benign : forall e, raised_by_collaborators e -> benign e.

Lemma benign_bind {A B} (m : M A) (k : A -> M B) :
  raises_benign m -> (forall x, raises_benign (k x)) -> raises_benign (bind m k).
Proof.
  intros Hm Hk w e w' H. apply bind_inv in H as [(e' & H & [= ->])|(x & w1 & _ & H)].
  - by eapply Hm.
  - by eapply Hk.
Qed.

Lemma benign_total {A} (m : M A) :
  (forall w, exists x w', m w = (inr x, w')) -> raises_benign m.
Proof. intros Ht w e w' H. destruct (Ht w) as (x & w1 & E). congruence. Qed.

Lemma benign_ret {A} (x : A) : raises_benign (ret x).
Proof. apply benign_total. intros w. by eexists _, _. Qed.

Lemma benign_raise {A} e : benign e -> raises_benign (@raise _ A e).
Proof. intros He w e' w' [= <- _]. exact He. Qed.

Lemma benign_invoke c : raises_benign (invoke c).
Proof.
  intros w e w' H. apply invoke_inv in H as [(e' & Hr & [= ->] & _)|(? & _ & [=] & _)].
  apply collaborators_benign. left. eauto.
Qed.

Lemma benign_for {A} (xs : list A) body :
  (forall x, raises_benign (body x)) -> raises_benign (for_ xs body).
Proof.
  intros Hb. induction xs as [|x xs IH]; cbn [for_].
  - apply benign_ret.
  - apply benign_bind; auto.
Qed.

Lemma benign_new_dict d : raises_benign (new_dict d).
Proof. apply benign_total. intros w. by eexists _, _. Qed.

Lemma benign_py_get d k v : raises_benign (py_get d k v).
Proof.
  intros w e w' H. unfold py_get in H.
  repeat case_match; simplify_eq; discriminate.
Qed.

Lemma benign_py_getitem d k : raises_benign (py_getitem d k).
Proof.
  intros w e w' H. unfold py_getitem in H.
  repeat case_match; simplify_eq; discriminate.
Qed.

Lemma benign_py_setitem d k v : raises_benign (py_setitem d k v).
Proof.
  intros w e w' H. unfold py_setitem in H.
  repeat case_match; simplify_eq; discriminate.
Qed.

Lemma benign_py_iteritems d : raises_benign (py_iteritems d).
Proof.
  intros w e w' H. unfold py_iteritems in H.
  repeat case_match; simplify_eq; discriminate.
Qed.

Lemma benign_py_truthy v : raises_benign (py_truthy v).
Proof.
  intros w e w' H. unfold py_truthy, truth_value in H.
  repeat case_match; simplify_eq; discriminate.
Qed.

Lemma benign_urljoin_error {A} b u : raises_benign (@raise _ A (urljoin_error b u)).
Proof. apply benign_raise, collaborators_benign. do 3 right. eauto. Qed.

Lemma benign_py_urljoin b u : raises_benign (py_urljoin b u).
Proof.
  unfold py_urljoin.
  repeat first
    [ apply benign_ret
    | apply benign_urljoin_error
    | apply benign_py_truthy
    | apply benign_bind; [|intros ?]
    | match goal with |- raises_benign (if ?b then _ else _) => destruct b end
    | match goal with |- raises_benign (match ?x with _ => _ end) => destruct x end ].
Qed.

Lemma benign_py_in sub v : raises_benign (py_in sub v).
Proof.
  intros w e w' H. unfold py_in in H.
  repeat case_match; simplify_eq; discriminate.
Qed.

Lemma benign_py_format v : raises_benign (py_format v).
Proof.
  intros w e w' H. unfold py_format in H.
  repeat case_match; simplify_eq.
Qed.

Lemma benign_logging_warning msg : raises_benign (logging_warning msg).
Proof. apply benign_total. intros w. by eexists _, _. Qed.

Lemma benign_LookupDescriptorOrDie name :
  raises_benign (call_LookupDescriptorOrDie name).
Proof.
  intros w e w' H. unfold call_LookupDescriptorOrDie in H. cbn in H.
  destruct (lookup_descriptor _ _ _) eqn:E; simplify_eq.
  apply collaborators_benign. right. left. eauto.
Qed.

Lemma benign_GetPackage dir : raises_benign (call_GetPackage dir).
Proof.
  intros w e w' H. unfold call_GetPackage in H. cbn in H.
  destruct (get_package _) eqn:E; simplify_eq.
  apply collaborators_benign. right. right. eauto.
Qed.

Lemma benign_scopes : raises_benign services_registry_scopes.
Proof. apply benign_total. intros w. by eexists _, _. Qed.

Lemma benign_replace_scopes ci s : raises_benign (call_replace_scopes ci s).
Proof. apply benign_total. intros w. by eexists _, _. Qed.

Lemma benign_FLAGS : raises_benign FLAGS.
Proof. apply benign_total. intros w. by eexists _, _. Qed.

Lemma benign_assign d : raises_benign (assign_root_package_dir d).
Proof. apply benign_total. intros w. by eexists _, _. Qed.

Ltac benign_step :=
  first
    [ apply benign_ret
    | apply benign_raise; discriminate
    | apply benign_invoke
    | apply benign_for; intros ?
    | apply benign_new_dict
    | apply benign_py_get
    | apply benign_py_getitem
    | apply benign_py_setitem
    | apply benign_py_iteritems
    | apply benign_py_truthy
    | apply benign_py_urljoin
    | apply benign_py_in
    | apply benign_py_format
    | apply benign_logging_warning
    | apply benign_LookupDescriptorOrDie
    | apply benign_GetPackage
    | apply benign_scopes
    | apply benign_replace_scopes
    | apply benign_FLAGS
    | apply benign_assign
    | apply benign_bind; [|intros ?]
    | match goal with |- raises_benign (if ?b then _ else _) => destruct b end
    | match goal with |- raises_benign (match ?x with _ => _ end) => destruct x end ].

Lemma benign_ComputePaths package version doc :
  raises_benign (_ComputePaths package version doc).
Proof. unfold _ComputePaths. repeat benign_step. Qed.

Lemma benign_StandardQueryParametersSchema doc :
  raises_benign (_StandardQueryParametersSchema doc).
Proof. unfold _StandardQueryParametersSchema. repeat benign_step. Qed.

Lemma benign_init doc ci names rp outdir p2 :
  raises_benign (DescriptorGenerator__init__ doc ci names rp outdir p2).
Proof.
  unfold DescriptorGenerator__init__.
  repeat first [ apply benign_ComputePaths
               | apply benign_StandardQueryParametersSchema
               | benign_step ].
Qed.

End Benign.

(** The run up to the output-directory check, when the document loads and
    the names and the client info are created. *)
Lemma GetCodegenFromFlags_loaded w doc h1 reg1 ci :
  let F := w_flags w in
  let new_names :=
    Names_new (strip_prefix F) (experimental_name_convention F)
      (experimental_capitalize_enums F) in
  let create :=
    ClientInfo_Create doc (scope F) (client_id F) (client_secret F)
      (user_agent F) (names_of_flags F) (api_key F) in
  load_result F (w_heap w) = inr (doc, h1) ->
  respond new_names h1 (w_reg w) = inr reg1 ->
  client_info_create doc h1 (scope F) (client_id F) (client_secret F)
    (user_agent F) (names_of_flags F) (api_key F) = inr ci ->
  let outdir_ := str_or (expanduser (outdir F)) (default_directory ci) in
  let w2 := record create (after [new_names] reg1 (set_heap h1 (record (load_call F) w))) in
  _GetCodegenFromFlags w =
    if path_exists outdir_ && negb (overwrite F)
    then (inl (ConfigurationValueError output_directory_exists), w2)
    else construct_after_check F doc ci outdir_ w2.
Proof.
  intros F new_names create Hload Hnames Hci outdir_ w2.
  unfold _GetCodegenFromFlags. unfold bind at 1. cbn [FLAGS]. fold F.
  unfold load_result in Hload. unfold w2, load_call. fold F in Hload |- *.
  unfold bind at 1.
  destruct (negb (String.eqb (discovery_url F) EmptyString)).
  - unfold try_except_CommunicationError. unfold bind at 1.
    unfold call_FetchDiscoveryDoc. cbn [record w_heap]. fold F. rewrite Hload.
    cbn [ret]. unfold bind at 1. unfold call_Names. unfold bind at 1.
    unfold invoke. cbn [record w_heap w_reg set_heap].
    fold new_names. rewrite Hnames. cbn [ret].
    unfold bind at 1. unfold call_ClientInfo_Create. cbn [record w_heap w_reg set_heap set_reg].
    fold (names_of_flags F). rewrite Hci. fold outdir_.
    destruct (path_exists outdir_ && negb (overwrite F)); reflexivity.
  - unfold bind at 1.
    unfold call_json_load. cbn [record w_heap]. fold F. rewrite Hload.
    cbn [ret]. unfold bind at 1. unfold call_Names. unfold bind at 1.
    unfold invoke. cbn [record w_heap w_reg set_heap].
    fold new_names. rewrite Hnames. cbn [ret].
    unfold bind at 1. unfold call_ClientInfo_Create. cbn [record w_heap w_reg set_heap set_reg].
    fold (names_of_flags F). rewrite Hci. fold outdir_.
    destruct (path_exists outdir_ && negb (overwrite F)); reflexivity.
Qed.

(** After the check: the package of [root_package_dir] is asked for, and
    the exception of the check is not raised. *)
Lemma construct_after_check_run F doc ci outdir_ w r w' :
  w_flags w = F ->
  (forall e, raised_by_collaborators e -> benign e) ->
  construct_after_check F doc ci outdir_ w = (r, w') ->
  r <> inl (ConfigurationValueError output_directory_exists) /\
  exists cs,
    w_calls w' =
      w_calls w ++
      GetPackage (abspath (if String.eqb (root_package_dir F) EmptyString
                           then outdir_ else root_package_dir F)) :: cs.
Proof.
  intros HF Hc H. split.
  - intros ->. revert H. unfold construct_after_check.
    assert (raises_benign
              (construct_after_check F doc ci outdir_)) as Hb.
    { unfold construct_after_check.
      repeat first [ apply benign_init; assumption
                   | apply benign_GetPackage; assumption
                   | apply benign_bind; [|intros ?]
                   | apply benign_FLAGS
                   | apply benign_assign
                   | apply benign_ret
                   | match goal with
                     | |- raises_benign (if ?b then _ else _) => destruct b
                     end ]. }
    intros H. apply Hb in H. by apply H.
  - subst F. unfold construct_after_check, bind in H.
    destruct (String.eqb (root_package_dir (w_flags w)) EmptyString);
      cbn [assign_root_package_dir ret FLAGS w_flags set_flags
           set_root_package_dir root_package_dir] in H;
      (destruct (call_GetPackage _ _) as [[e|root_package] w4] eqn:E4;
       unfold call_GetPackage in E4; cbn [record w_calls] in E4;
       destruct (get_package _); cbv beta iota in H; simplify_eq;
       [by exists []|];
       destruct (DescriptorGenerator__init__ _ _ _ _ _ _ _) as [[e|g] w5] eqn:E5;
       apply init_emits in E5 as (cs & E5 & _); cbv beta iota in H;
       unfold ret in H; simplify_eq;
       exists cs; rewrite E5; cbn; by rewrite <- app_assoc).
Qed.

(** C8, as amended.  Once the document is loaded and the names and the
    client info are created, the output directory is the expanded [--outdir], or the
    default directory of the client when that is empty.  When it exists
    and [--overwrite] is false, [_GetCodegenFromFlags] raises the
    configuration error of the check, and the calls it made are the three
    before the check: no generator was constructed.  When it does not
    exist or [--overwrite] is true, the run goes on to ask for the package
    of [root_package_dir], and it does not raise that error (the
    collaborators not raising it themselves). *)
Theorem existing_output_directory w doc h1 reg1 ci :
  let F := w_flags w in
  let new_names :=
    Names_new (strip_prefix F) (experimental_name_convention F)
      (experimental_capitalize_enums F) in
  let create :=
    ClientInfo_Create doc (scope F) (client_id F) (client_secret F)
      (user_agent F) (names_of_flags F) (api_key F) in
  load_result F (w_heap w) = inr (doc, h1) ->
  respond new_names h1 (w_reg w) = inr reg1 ->
  client_info_create doc h1 (scope F) (client_id F) (client_secret F)
    (user_agent F) (names_of_flags F) (api_key F) = inr ci ->
  let outdir_ := str_or (expanduser (outdir F)) (default_directory ci) in
  (path_exists outdir_ = true /\ overwrite F = false ->
     exists w',
       _GetCodegenFromFlags w =
         (inl (ConfigurationValueError output_directory_exists), w') /\
       w_calls w' = w_calls w ++ [load_call F; new_names; create]) /\
  (path_exists outdir_ = false \/ overwrite F = true ->
     (forall e, raised_by_collaborators e -> benign e) ->
     exists r w' cs,
       _GetCodegenFromFlags w = (r, w') /\
       r <> inl (ConfigurationValueError output_directory_exists) /\
       w_calls w' =
         w_calls w ++ [load_call F; new_names; create] ++
         GetPackage (abspath (if String.eqb (root_package_dir F) EmptyString
                              then outdir_ else root_package_dir F)) :: cs).
Proof.
  intros F new_names create Hload Hnames Hci outdir_.
  rewrite (GetCodegenFromFlags_loaded w doc h1 reg1 ci Hload Hnames Hci).
  fold F. fold new_names. fold create. fold outdir_. split.
  - intros [-> ->]. cbn [andb negb]. eexists. split; [reflexivity|].
    cbn. by rewrite <- !app_assoc.
  - intros Hpass Hc.
    assert (path_exists outdir_ && negb (overwrite F) = false) as ->.
    { destruct Hpass as [-> | ->]; [reflexivity|]. apply andb_false_r. }
    destruct (construct_after_check F doc ci outdir_ _) as [r w'] eqn:E.
    apply construct_after_check_run in E as (Hr & cs & E); [|reflexivity|exact Hc].
    exists r, w', cs. split; [reflexivity|]. split; [exact Hr|].
    rewrite E. cbn. by rewrite <- !app_assoc.
Qed.

(** C9.  When the fetch of the document from [--discovery_url] fails with
    a communication error, [_GetCodegenFromFlags] returns [None] after
    that one call (no registry was created, the fetch was not tried
    again), and [GenerateClient.Run] logs an error and returns 128. *)
Theorem fetch_failure_exits_128 w msg :
  discovery_url (w_flags w) <> EmptyString ->
  fetch_discovery_doc (discovery_url (w_flags w)) (w_heap w) =
    inl (CommunicationError msg) ->
  exists w1,
    _GetCodegenFromFlags w = (inr None, w1) /\
    w_calls w1 = w_calls w ++ [FetchDiscoveryDoc (discovery_url (w_flags w))] /\
    w_heap w1 = w_heap w /\ w_reg w1 = w_reg w /\ w_log w1 = w_log w /\
    exists w2,
      GenerateClient_Run w = (inr (VInt 128), w2) /\
      w_calls w2 = w_calls w1 /\
      w_log w2 = w_log w1 ++ [(ERROR, "Failed to create codegen, exiting.")].
Proof.
  intros Hurl Hfetch.
  pose proof (GetCodegenFromFlags_fetch_failure _ _ Hurl Hfetch) as E.
  eexists. split; [exact E|]. repeat (split; [reflexivity|]).
  eexists. unfold GenerateClient_Run, bind. rewrite E.
  split; [reflexivity|]. split; reflexivity.
Qed.

End EntryPoint.

(** * Further properties *)

(** ** [_ComputePaths]: missing keys, the suffix, and what it leaves alone *)

Section ComputePathsMore.

Context `{C : Collaborators}.
Import PyStr PyStrFacts.

Lemma py_getitem_missing doc o k w :
  deref (w_heap w) doc = Some o -> Dict.lookup k o = None ->
  py_getitem doc k w = (inl (KeyError k), w).
Proof.
  destruct doc; try discriminate. cbn. intros -> ->. reflexivity.
Qed.

Lemma ComputePaths_no_rootUrl package version doc o w :
  deref (w_heap w) doc = Some o -> Dict.lookup "rootUrl" o = None ->
  _ComputePaths package version doc w = (inl (KeyError "rootUrl"), w).
Proof.
  intros Hdoc Hr. unfold _ComputePaths, bind.
  by rewrite (py_getitem_missing _ _ _ _ Hdoc Hr).
Qed.

Lemma ComputePaths_no_servicePath package version doc o w :
  deref (w_heap w) doc = Some o ->
  Dict.lookup "rootUrl" o <> None -> Dict.lookup "servicePath" o = None ->
  _ComputePaths package version doc w = (inl (KeyError "servicePath"), w).
Proof.
  intros Hdoc Hr Hs. destruct (Dict.lookup "rootUrl" o) as [r|] eqn:Er; [|done].
  unfold _ComputePaths, bind.
  rewrite (py_getitem_field doc "rootUrl" r w)
    by (unfold doc_field; rewrite Hdoc; exact Er).
  by rewrite (py_getitem_missing _ _ _ _ Hdoc Hs).
Qed.

(** X1.  The two keys are read in the order [rootUrl], [servicePath]: a
    document without [rootUrl] raises [KeyError] on it, a document with
    [rootUrl] and without [servicePath] raises [KeyError] on that one, and
    in both cases nothing is logged and the world is left as it was. *)
Theorem ComputePaths_missing_key package version doc o w :
  deref (w_heap w) doc = Some o ->
  (Dict.lookup "rootUrl" o = None ->
     _ComputePaths package version doc w = (inl (KeyError "rootUrl"), w)) /\
  (Dict.lookup "rootUrl" o <> None -> Dict.lookup "servicePath" o = None ->
     _ComputePaths package version doc w = (inl (KeyError "servicePath"), w)).
Proof.
  intros Hdoc. split.
  - by apply ComputePaths_no_rootUrl.
  - by apply ComputePaths_no_servicePath.
Qed.

Lemma component_length package version :
  0 < String.length (package +:+ "/" +:+ version +:+ "/").
Proof. rewrite !length_app. cbn. lia. Qed.


(** A returned pair, whatever the two fields are: the suffix is empty, or
    it is what [rpartition] leaves after the last occurrence of the
    component in a string. *)
Lemma ComputePaths_returned package version doc w base_url base_path w' :
  _ComputePaths package version doc w = (inr (base_url, base_path), w') ->
  base_path = EmptyString \/
  exists s prefix mid,
    rpartition (join "/" [package; version; EmptyString]) s =
      Some (prefix, mid, base_path) /\
    contains (join "/" [package; version; EmptyString]) s = true.
Proof.
  unfold _ComputePaths. intros H.
  apply bind_inr in H as (rootUrl & w1 & _ & H).
  apply bind_inr in H as (servicePath & w2 & _ & H).
  apply bind_inr in H as (full_path & w3 & _ & H).
  apply bind_inr in H as (found & w4 & Hin & H).
  destruct found; cbn [negb] in H.
  - destruct full_path as [| | |s| |]; try discriminate H.
    unfold py_in in Hin. injection Hin as Hin _.
    destruct (rpartition _ s) as [[[prefix mid] suffix]|] eqn:E; [|discriminate H].
    injection H as _ <- _. right. eauto.
  - apply bind_inr in H as (shown & w5 & _ & H).
    apply bind_inr in H as (? & w6 & _ & H). injection H as _ <- _. by left.
Qed.

(** X2.  The path suffix that [_ComputePaths] returns never contains the
    component [package/version/]: every occurrence is in the base URL. *)
Theorem ComputePaths_suffix_free package version doc w base_url base_path w' :
  _ComputePaths package version doc w = (inr (base_url, base_path), w') ->
  ~ occurs (package +:+ "/" +:+ version +:+ "/") base_path.
Proof.
  intros H. pose proof (component_nonempty package version) as Hne.
  pose proof (component_length package version) as Hlen.
  apply ComputePaths_returned in H as [->|(s & prefix & mid & Hpart & Hc)];
    rewrite join3 in *;
    set (component := package +:+ "/" +:+ version +:+ "/") in *.
  - intros (p & q & Hq).
    symmetry in Hq. apply app_eq_nil in Hq as [_ Hq].
    apply app_eq_nil in Hq as [Hq _]. contradiction.
  - apply contains_iff in Hc.
    destruct (rpartition_occurs _ _ Hne Hc) as (prefix' & suffix & E & Heq & Hmax).
    rewrite E in Hpart. injection Hpart as -> _ ->.
    intros (p & q & Hq).
    assert (occurs_after (prefix +:+ component +:+ p) component s) as Ho.
    { exists q. rewrite Heq, Hq. by rewrite !app_assoc. }
    apply Hmax in Ho. rewrite !length_app in Ho. lia.
Qed.

(** X3.  Whatever the document, [_ComputePaths] calls no collaborator and
    leaves the heap, the flags and the registries alone.  It logs at most
    one line, a warning, and then it returns the joined URL it could not
    split, with an empty suffix; when it raises it has logged nothing. *)
Theorem ComputePaths_frame package version doc w r w' :
  _ComputePaths package version doc w = (r, w') ->
  w_heap w' = w_heap w /\ w_calls w' = w_calls w /\
  w_flags w' = w_flags w /\ w_reg w' = w_reg w /\
  (w_log w' = w_log w \/
   exists msg full_path,
     w_log w' = w_log w ++ [(WARNING, msg)] /\ r = inr (full_path, EmptyString)) /\
  (forall e, r = inl e -> w_log w' = w_log w).
Proof.
  unfold _ComputePaths. intros H.
  apply bind_inv in H as [(e & H & ->)|(rootUrl & w1 & H1 & H)].
  { apply py_getitem_inv in H as [-> _]. repeat split; auto. }
  apply py_getitem_inv in H1 as [-> _].
  apply bind_inv in H as [(e & H & ->)|(servicePath & w1 & H1 & H)].
  { apply py_getitem_inv in H as [-> _]. repeat split; auto. }
  apply py_getitem_inv in H1 as [-> _].
  apply bind_inv in H as [(e & H & ->)|(full_path & w1 & H1 & H)].
  { apply py_urljoin_inv in H as ->. repeat split; auto. }
  apply py_urljoin_inv in H1 as ->.
  apply bind_inv in H as [(e & H & ->)|(found & w1 & H1 & H)].
  { apply py_in_inv in H as ->. repeat split; auto. }
  apply py_in_inv in H1 as ->.
  destruct (negb found).
  - apply bind_inv in H as [(e & H & ->)|(shown & w1 & H1 & H)].
    { apply py_format_inv in H as [-> [? [=]]]. }
    apply py_format_inv in H1 as [-> _].
    injection H as <- <-. cbn. repeat split; [right; eauto|discriminate].
  - destruct full_path as [| | |s| |];
      try (injection H as <- <-; repeat split; auto).
    destruct (rpartition _ _) as [[[prefix mid] suffix]|];
      injection H as <- <-; repeat split; auto.
Qed.

End ComputePathsMore.

(** ** [_StandardQueryParametersSchema]: bad parameters, the frame, the keys *)

Module DictMore.

Lemma keys_set k v d k' :
  k' ∈ Dict.keys (Dict.set k v d) <-> k' = k \/ k' ∈ Dict.keys d.
Proof.
  unfold Dict.keys. induction d as [|[k0 v0] d IH]; cbn.
  - rewrite list_elem_of_singleton. split; [auto|]. intros [H|H]; [done|inv H].
  - destruct (String.eqb k k0) eqn:E; cbn; rewrite !elem_of_cons.
    + apply String.eqb_eq in E as <-. tauto.
    + rewrite IH. tauto.
Qed.

Lemma wf_set k v d : Dict.wf d -> Dict.wf (Dict.set k v d).
Proof.
  unfold Dict.wf. induction d as [|[k0 v0] d IH]; cbn; intros Hnd.
  - apply NoDup_singleton.
  - apply NoDup_cons in Hnd as [Hk0 Hnd].
    destruct (String.eqb k k0) eqn:E; cbn.
    + apply String.eqb_eq in E as <-. by apply NoDup_cons.
    + apply NoDup_cons. split; [|by apply IH].
      fold (Dict.keys (Dict.set k v d)). rewrite keys_set.
      apply String.eqb_neq in E. intros [->|H]; [done|]. by apply Hk0.
Qed.

Lemma length_set k v d :
  List.length (Dict.set k v d) =
    match Dict.lookup k d with
    | Some _ => List.length d
    | None => S (List.length d)
    end.
Proof.
  induction d as [|[k0 v0] d IH]; cbn; [reflexivity|].
  destruct (String.eqb k k0); cbn; [reflexivity|].
  rewrite IH. by destruct (Dict.lookup k d).
Qed.

End DictMore.

Section StandardQueryParametersMore.

Context `{C : Collaborators}.
Import DictFacts DictMore.

(** The run of the schema builder on a document whose [parameters] are a
    mapping: the mapping is the object at [pa], written in place. *)
Lemma SQP_success doc params w :
  doc_mapping (w_heap w) doc "parameters" = Some params ->
  let n := List.length (w_heap w) in
  exists pa,
    pa <= n /\
    (w_heap w ++ [[]; sqp_schema (VDict pa); trace_entry]) !! pa = Some params /\
    _StandardQueryParametersSchema doc w =
      (inr (VDict (n + 1)),
       set_heap (<[pa := Dict.set "trace" (VDict (n + 2)) params]>
                   (w_heap w ++ [[]; sqp_schema (VDict pa); trace_entry])) w).
Proof.
  unfold doc_mapping. destruct (deref (w_heap w) doc) as [o|] eqn:Hdoc; [|discriminate].
  cbn [mbind option_bind]. intros Hp. cbv zeta.
  set (n := List.length (w_heap w)).
  rewrite (SQP_unfold doc o w) by (by apply deref_app). cbv zeta. fold n.
  destruct (Dict.lookup "parameters" o) as [v|]; cbn [from_option id].
  - destruct v as [| | | | |pa]; try discriminate. cbn in Hp.
    exists pa. split; [apply lookup_lt_Some in Hp as Hlt; fold n in Hlt; lia|].
    rewrite !(lookup_app_l_Some _ _ _ _ Hp). done.
  - injection Hp as <-. exists n. split; [lia|].
    unfold n. rewrite !list_lookup_middle by reflexivity. done.
Qed.

(** X4.  When the document has a [parameters] entry that is not a mapping
    (null, a string, a list, ...), the schema builder raises [TypeError] at
    the assignment of [trace]; it has called no collaborator and every
    object of the heap is as it was. *)
Theorem StandardQueryParametersSchema_bad_parameters doc o v w :
  deref (w_heap w) doc = Some o ->
  Dict.lookup "parameters" o = Some v ->
  (forall a, v <> VDict a) ->
  exists w',
    _StandardQueryParametersSchema doc w = (inl (TypeError "item assignment"), w') /\
    w_calls w' = w_calls w /\
    forall a d, w_heap w !! a = Some d -> w_heap w' !! a = Some d.
Proof.
  intros Hdoc Hv Hnd.
  rewrite (SQP_unfold doc o w) by (by apply deref_app). cbv zeta.
  rewrite Hv. cbn [from_option id].
  destruct v as [| | | | |a]; try (by destruct (Hnd a));
    (eexists; split; [reflexivity|]; split; [reflexivity|];
     intros a d Ha; cbn; by apply lookup_app_l_Some).
Qed.

(** The objects that the schema builder leaves as they are. *)
Lemma SQP_heap_frame doc o w r w' :
  deref (w_heap w) doc = Some o ->
  _StandardQueryParametersSchema doc w = (r, w') ->
  forall a d,
    w_heap w !! a = Some d ->
    Dict.lookup "parameters" o <> Some (VDict a) ->
    w_heap w' !! a = Some d.
Proof.
  intros Hdoc.
  rewrite (SQP_unfold doc o w) by (by apply deref_app). cbv zeta.
  set (n := List.length (w_heap w)).
  destruct (Dict.lookup "parameters" o) as [v|] eqn:Hv; cbn [from_option id].
  - destruct v as [| | | | |pa];
      try (intros [= <- <-]; repeat (split; [reflexivity|]);
           intros a d Ha _; cbn; by apply lookup_app_l_Some).
    destruct (_ !! pa) as [pd|]; intros [= <- <-]; repeat (split; [reflexivity|]);
      intros a d Ha Hne; cbn.
    + rewrite list_lookup_insert_ne by congruence. by apply lookup_app_l_Some.
    + by apply lookup_app_l_Some.
  - rewrite list_lookup_middle by reflexivity.
    intros [= <- <-]. repeat (split; [reflexivity|]).
    intros a d Ha _. cbn. apply lookup_lt_Some in Ha as Hlt. fold n in Hlt.
    rewrite list_lookup_insert_ne by lia. by apply lookup_app_l_Some.
Qed.

(** X5.  Whatever comes of it, the schema builder calls no collaborator,
    logs nothing, leaves flags and registries alone, and among the objects
    that were in the heap it writes to one at most: the dict under the
    [parameters] key of the document.  A document without that key is left
    untouched. *)
Theorem StandardQueryParametersSchema_frame doc o w r w' :
  deref (w_heap w) doc = Some o ->
  _StandardQueryParametersSchema doc w = (r, w') ->
  w_calls w' = w_calls w /\ w_log w' = w_log w /\
  w_flags w' = w_flags w /\ w_reg w' = w_reg w /\
  forall a d,
    w_heap w !! a = Some d ->
    Dict.lookup "parameters" o <> Some (VDict a) ->
    w_heap w' !! a = Some d.
Proof.
  intros Hdoc H.
  pose proof (SQP_heap_frame _ _ _ _ _ Hdoc H) as Hframe.
  apply SQP_inv in H as (h' & -> & _).
  repeat (split; [reflexivity|]). exact Hframe.
Qed.

(** X6.  On a document whose [parameters] mapping has distinct names, the
    [properties] of the schema have distinct names too: those of the
    parameters and [trace], once.  The mapping grows by one entry, unless
    the parameters had a [trace] already, which is then replaced. *)
Theorem StandardQueryParametersSchema_keys doc params w :
  doc_mapping (w_heap w) doc "parameters" = Some params ->
  Dict.wf params ->
  exists sqs w' props properties,
    _StandardQueryParametersSchema doc w = (inr (VDict sqs), w') /\
    doc_field (w_heap w') (VDict sqs) "properties" = Some (VDict props) /\
    w_heap w' !! props = Some properties /\
    Dict.wf properties /\
    (forall k, k ∈ Dict.keys properties <-> k = "trace" \/ k ∈ Dict.keys params) /\
    List.length properties =
      match Dict.lookup "trace" params with
      | Some _ => List.length params
      | None => S (List.length params)
      end.
Proof.
  intros Hp Hwf. destruct (SQP_success doc params w Hp) as (pa & Hle & Hpa & ->).
  set (n := List.length (w_heap w)) in *.
  set (h3 := w_heap w ++ [[]; sqp_schema (VDict pa); trace_entry]) in *.
  exists (n + 1), (set_heap (<[pa := Dict.set "trace" (VDict (n + 2)) params]> h3) w),
    pa, (Dict.set "trace" (VDict (n + 2)) params).
  split; [reflexivity|]. cbn [w_heap set_heap]. split.
  { unfold doc_field. cbn [deref]. rewrite list_lookup_insert_ne by lia.
    unfold h3, n. by rewrite lookup_fresh. }
  split; [apply list_lookup_insert_eq; by eapply lookup_lt_Some|].
  split; [by apply wf_set|].
  split; [intros k; apply keys_set|apply length_set].
Qed.

End StandardQueryParametersMore.

(** ** The constructor: malformed documents, failures, what the generator holds *)

Section ConstructionMore.

Context `{C : Collaborators}.
Import PyStr PyStrFacts.

Lemma returns_bind {A B} (P : B -> Prop) (m : M A) (k : A -> M B) :
  (forall x, returns_with P (k x)) -> returns_with P (bind m k).
Proof.
  intros Hk w y w' H. apply bind_inr in H as (x & w1 & _ & H). by eapply Hk.
Qed.

Lemma returns_ret {A} (P : A -> Prop) (x : A) : P x -> returns_with P (ret x).
Proof. intros HP w y w' [= <- _]. exact HP. Qed.

Lemma fails_without_bind {A B} P (m : M A) (k : A -> M B) :
  emits P m -> (forall x, fails_without P (k x)) -> fails_without P (bind m k).
Proof.
  intros Hm Hk w e w' H. apply bind_inv in H as [(e' & H & _)|(x & w1 & H1 & H)].
  - by eapply Hm.
  - apply Hm in H1 as (cs1 & E1 & F1). apply Hk in H as (cs2 & E2 & F2).
    exists (cs1 ++ cs2). split; [by rewrite E2, E1, List.app_assoc|by apply Forall_app].
Qed.

Lemma fails_without_total {A} P (m : M A) :
  (forall w, exists x w', m w = (inr x, w')) -> fails_without P m.
Proof. intros Ht w e w' H. destruct (Ht w) as (x & w1 & E). congruence. Qed.

Ltac quiet_step :=
  first
    [ apply emits_ComputePaths
    | apply emits_StandardQueryParametersSchema
    | apply emits_LookupDescriptorOrDie
    | apply emits_scopes
    | apply emits_ret
    | apply emits_invoke
    | apply emits_for; intros ?
    | apply emits_new_dict
    | apply emits_py_get
    | apply emits_py_getitem
    | apply emits_py_iteritems
    | apply emits_py_truthy
    | apply emits_bind; [|intros ?]
    | match goal with |- emits _ (if ?b then _ else _) => destruct b end
    | reflexivity ].

(** X7.  A construction that raises has not replaced the scopes: among the
    calls it made up to the exception there is no [_replace]. *)
Theorem failed_construction_keeps_scopes doc ci names rp outdir p2 w e w' :
  DescriptorGenerator__init__ doc ci names rp outdir p2 w = (inl e, w') ->
  exists cs,
    w_calls w' = w_calls w ++ cs /\
    Forall (fun c => is_replace c = false) cs.
Proof.
  revert w e w'. change (fails_without (fun c => is_replace c = false)
    (DescriptorGenerator__init__ doc ci names rp outdir p2)).
  unfold DescriptorGenerator__init__.
  repeat first
    [ apply fails_without_bind; [solve [repeat quiet_step]|intros ?]
    | match goal with
      | |- fails_without _ (match ?x with (_, _) => _ end) => destruct x
      end ].
  apply fails_without_total. intros w. eexists _, _. reflexivity.
Qed.

(** X8.  A malformed document is turned down before any registry is
    created: a document that is not a mapping raises [AttributeError] at
    the first [get]; a mapping without [rootUrl], or with [rootUrl] and
    without [servicePath], raises [KeyError] on the missing key.  In each
    case the world is as it was: no call was made. *)
Theorem construction_rejects_malformed_document doc ci names rp outdir p2 w :
  ((forall a, doc <> VDict a) ->
     DescriptorGenerator__init__ doc ci names rp outdir p2 w =
       (inl (AttributeError "get"), w)) /\
  (forall o,
     deref (w_heap w) doc = Some o ->
     (Dict.lookup "rootUrl" o = None ->
        DescriptorGenerator__init__ doc ci names rp outdir p2 w =
          (inl (KeyError "rootUrl"), w)) /\
     (Dict.lookup "rootUrl" o <> None -> Dict.lookup "servicePath" o = None ->
        DescriptorGenerator__init__ doc ci names rp outdir p2 w =
          (inl (KeyError "servicePath"), w))).
Proof.
  split.
  - intros Hnd. unfold DescriptorGenerator__init__, bind.
    destruct doc as [| | | | |a]; try reflexivity. by destruct (Hnd a).
  - intros o Hdoc. split.
    + intros Hr. unfold DescriptorGenerator__init__. unfold bind at 1.
      rewrite (py_get_deref _ _ _ _ _ Hdoc). unfold bind at 1.
      by rewrite (ComputePaths_no_rootUrl _ _ _ _ _ Hdoc Hr).
    + intros Hr Hs. unfold DescriptorGenerator__init__. unfold bind at 1.
      rewrite (py_get_deref _ _ _ _ _ Hdoc). unfold bind at 1.
      by rewrite (ComputePaths_no_servicePath _ _ _ _ _ Hdoc Hr Hs).
Qed.

(** What a completed construction read first: the description and the
    two paths, which the generator holds. *)
Lemma init_reads doc ci names rp outdir p2 w g w' :
  DescriptorGenerator__init__ doc ci names rp outdir p2 w = (inr g, w') ->
  exists o w1,
    deref (w_heap w) doc = Some o /\
    self_description g = default (VStr EmptyString) (Dict.lookup "description" o) /\
    _ComputePaths (package ci) (url_version ci) doc w =
      (inr (self_base_url g, self_base_path g), w1).
Proof.
  unfold DescriptorGenerator__init__. intros H.
  apply bind_inr in H as (description & w1 & H1 & H).
  apply py_get_inv in H1 as [-> H1]. destruct (H1 _ eq_refl) as (o & Hdoc & ->). clear H1.
  apply bind_inr in H as ([base_url base_path] & w1 & H1 & H).
  exists o, w1. split; [exact Hdoc|].
  match type of H with
  | ?m _ = _ =>
      assert (returns_with
                (fun g => self_description g =
                            default (VStr EmptyString) (Dict.lookup "description" o) /\
                          self_base_url g = base_url /\ self_base_path g = base_path)
                m) as Hg
  end.
  { repeat (apply returns_bind; intros ?). by apply returns_ret. }
  apply Hg in H as (-> & -> & ->). split; [reflexivity|exact H1].
Qed.


(** X10.  What the accessors of a constructed generator return: the
    document, the names, the output directory and the proto2 switch are the
    arguments of the constructor, the package and the version are those of
    the client info, and the description is the [description] of the
    document, the empty string when the document has none. *)
Theorem generator_accessors doc ci names rp outdir p2 w g w' :
  DescriptorGenerator__init__ doc ci names rp outdir p2 w = (inr g, w') ->
  self_discovery_doc g = doc /\ self_names g = names /\
  self_outdir g = outdir /\ self_use_proto2 g = p2 /\
  self_root_package g = rp /\
  self_package g = package ci /\ self_version g = version ci /\
  exists o,
    deref (w_heap w) doc = Some o /\
    (forall description,
       Dict.lookup "description" o = Some description ->
       self_description g = description) /\
    (Dict.lookup "description" o = None -> self_description g = VStr EmptyString).
Proof.
  intros H. destruct (init_reads _ _ _ _ _ _ _ _ _ H) as (o & w1 & Hdoc & Hd & _).
  apply init_success in H
    as (description & base_url & base_path & items & d & resource_items & api
        & _ & _ & -> & _).
  cbn in *. do 7 (split; [reflexivity|]). exists o. split; [exact Hdoc|].
  split; [intros v Hv|intros Hv]; by rewrite Hd, Hv.
Qed.

(** *** A construction reads no document and writes no file *)

Lemma init_no_io doc ci names rp outdir p2 :
  emits (fun c => is_load c || is_write c = false)
    (DescriptorGenerator__init__ doc ci names rp outdir p2).
Proof.
  unfold DescriptorGenerator__init__.
  repeat first
    [ apply emits_ComputePaths
    | apply emits_StandardQueryParametersSchema
    | apply emits_LookupDescriptorOrDie
    | apply emits_scopes
    | apply emits_replace_scopes
    | apply emits_ret
    | apply emits_invoke
    | apply emits_for; intros ?
    | apply emits_new_dict
    | apply emits_py_get
    | apply emits_py_getitem
    | apply emits_py_iteritems
    | apply emits_py_truthy
    | apply emits_bind; [|intros ?]
    | match goal with |- emits _ (if ?b then _ else _) => destruct b end
    | match goal with |- emits _ (match ?x with (_, _) => _ end) => destruct x end
    | reflexivity ].
Qed.

(** *** The heap of a construction *)

Lemma grows_same {A} (m : M A) :
  (forall w r w', m w = (r, w') -> w_heap w' = w_heap w) -> heap_grows m.
Proof. intros Hs w r w' H. exists []. rewrite List.app_nil_r. by eapply Hs. Qed.

Lemma grows_bind {A B} (m : M A) (k : A -> M B) :
  heap_grows m -> (forall x, heap_grows (k x)) -> heap_grows (bind m k).
Proof.
  intros Hm Hk w r w' H. apply bind_inv in H as [(e & H & _)|(x & w1 & H1 & H)].
  - by eapply Hm.
  - apply Hm in H1 as (e1 & E1). apply Hk in H as (e2 & E2).
    exists (e1 ++ e2). by rewrite E2, E1, List.app_assoc.
Qed.

Lemma grows_ret {A} (x : A) : heap_grows (ret x).
Proof. apply grows_same. by intros w r w' [= _ <-]. Qed.
Lemma grows_invoke c : heap_grows (invoke c).
Proof.
  apply grows_same. intros w r w' H.
  by apply invoke_inv in H as [(e & _ & _ & ->)|(reg & _ & _ & ->)].
Qed.
Lemma grows_for {A} (xs : list A) body :
  (forall x, heap_grows (body x)) -> heap_grows (for_ xs body).
Proof.
  intros Hb. induction xs as [|x xs IH]; cbn [for_].
  - apply grows_ret.
  - apply grows_bind; auto.
Qed.
Lemma grows_new_dict d : heap_grows (new_dict d).
Proof. intros w r w' [= _ <-]. by exists [d]. Qed.
Lemma grows_py_get d k v : heap_grows (py_get d k v).
Proof. apply grows_same. intros w r w' H. by apply py_get_inv in H as [-> _]. Qed.
Lemma grows_py_getitem d k : heap_grows (py_getitem d k).
Proof. apply grows_same. intros w r w' H. by apply py_getitem_inv in H as [-> _]. Qed.
Lemma grows_py_iteritems d : heap_grows (py_iteritems d).
Proof. apply grows_same. intros w r w' H. by apply py_iteritems_inv in H as [-> _]. Qed.
Lemma grows_py_truthy v : heap_grows (py_truthy v).
Proof. apply grows_same. by intros w r w' [= _ <-]. Qed.
Lemma grows_ComputePaths package version doc :
  heap_grows (_ComputePaths package version doc).
Proof. apply grows_same. intros w r w' H. by apply ComputePaths_inv in H as [l ->]. Qed.
Lemma grows_LookupDescriptorOrDie name : heap_grows (call_LookupDescriptorOrDie name).
Proof.
  apply grows_same. intros w r w' H.
  by apply call_LookupDescriptorOrDie_inv in H as ->.
Qed.
Lemma grows_scopes : heap_grows services_registry_scopes.
Proof. apply grows_same. by intros w r w' [= _ <-]. Qed.
Lemma grows_replace_scopes ci s : heap_grows (call_replace_scopes ci s).
Proof. apply grows_same. by intros w r w' [= _ <-]. Qed.

Ltac grows_step :=
  first
    [ apply grows_ComputePaths
    | apply grows_LookupDescriptorOrDie
    | apply grows_scopes
    | apply grows_replace_scopes
    | apply grows_ret
    | apply grows_invoke
    | apply grows_for; intros ?
    | apply grows_new_dict
    | apply grows_py_get
    | apply grows_py_getitem
    | apply grows_py_iteritems
    | apply grows_py_truthy
    | apply grows_bind; [|intros ?]
    | match goal with |- heap_grows (if ?b then _ else _) => destruct b end
    | match goal with |- heap_grows (match ?x with (_, _) => _ end) => destruct x end ].

Lemma extends_refl w : extends (w_heap w) w.
Proof. exists []. by rewrite List.app_nil_r. Qed.

Lemma extends_lookup h0 w a d :
  extends h0 w -> h0 !! a = Some d -> w_heap w !! a = Some d.
Proof. intros [ext ->]. apply lookup_app_l_Some. Qed.

Lemma extends_deref h0 w v o :
  extends h0 w -> deref h0 v = Some o -> deref (w_heap w) v = Some o.
Proof. intros [ext ->]. apply deref_app. Qed.

Lemma prefix_step {A B} (m : M A) (k : A -> M B) h0 w r w' :
  heap_grows m -> extends h0 w -> bind m k w = (r, w') ->
  extends h0 w' \/ exists x w1, extends h0 w1 /\ k x w1 = (r, w').
Proof.
  intros Hm [e0 E0] H. apply bind_inv in H as [(e & H & _)|(x & w1 & H1 & H)].
  - left. apply Hm in H as (e1 & E1). exists (e0 ++ e1).
    by rewrite E1, E0, List.app_assoc.
  - right. exists x, w1. split; [|exact H]. apply Hm in H1 as (e1 & E1).
    exists (e0 ++ e1). by rewrite E1, E0, List.app_assoc.
Qed.

(** X11.  Whatever comes of it, a construction writes to one object at
    most among those that were in the heap: the dict under the
    [parameters] key of the document.  Every other object, the document
    included unless it is that dict itself, is as it was. *)
Theorem construction_frame doc o ci names rp outdir p2 w r w' :
  deref (w_heap w) doc = Some o ->
  DescriptorGenerator__init__ doc ci names rp outdir p2 w = (r, w') ->
  forall a d,
    w_heap w !! a = Some d ->
    Dict.lookup "parameters" o <> Some (VDict a) ->
    w_heap w' !! a = Some d.
Proof.
  intros Hdoc H a d Ha Hne. pose proof (extends_refl w) as Hext.
  unfold DescriptorGenerator__init__ in H.
  apply prefix_step with (h0 := w_heap w) in H
    as [Hx|(description & w1 & Hx & H)];
    [by eapply extends_lookup| |apply grows_py_get|exact Hext].
  clear Hext.
  apply prefix_step with (h0 := w_heap w) in H
    as [Hx'|([base_url base_path] & w2 & Hx' & H)];
    [by eapply extends_lookup| |apply grows_ComputePaths|exact Hx].
  clear Hx w1.
  apply prefix_step with (h0 := w_heap w) in H as [Hx|(? & w1 & Hx & H)];
    [by eapply extends_lookup| |apply grows_invoke|exact Hx'].
  clear Hx' w2.
  apply prefix_step with (h0 := w_heap w) in H as [Hx'|(no_schemas & w2 & Hx' & H)];
    [by eapply extends_lookup| |apply grows_new_dict|exact Hx].
  clear Hx w1.
  apply prefix_step with (h0 := w_heap w) in H as [Hx|(schemas & w1 & Hx & H)];
    [by eapply extends_lookup| |apply grows_py_get|exact Hx'].
  clear Hx' w2.
  apply prefix_step with (h0 := w_heap w) in H as [Hx'|(schema_items & w2 & Hx' & H)];
    [by eapply extends_lookup| |apply grows_py_iteritems|exact Hx].
  clear Hx w1.
  apply prefix_step with (h0 := w_heap w) in H as [Hx|(? & w1 & Hx & H)];
    [by eapply extends_lookup| |apply grows_for; intros ?; apply grows_invoke|exact Hx'].
  clear Hx' w2.
  pose proof (extends_deref _ _ _ _ Hx Hdoc) as Hdoc1.
  pose proof (extends_lookup _ _ _ _ Hx Ha) as Ha1.
  apply bind_inv in H as [(e & H & _)|(sqs & w2 & H2 & H)].
  - by apply (SQP_heap_frame _ _ _ _ _ Hdoc1 H).
  - pose proof (SQP_heap_frame _ _ _ _ _ Hdoc1 H2 a d Ha1 Hne) as H2'.
    match type of H with
    | ?m _ = _ => assert (heap_grows m) as Hg by (repeat grows_step)
    end.
    apply Hg in H as [ext ->]. by apply lookup_app_l_Some.
Qed.

End ConstructionMore.

(** ** The entry point: what is returned, what is raised, what is written *)

Section EntryPointMore.

Context `{C : Collaborators}.

(** The outcomes of the loading step. *)
Lemma load_document_inv F w r w1 :
  w_flags w = F ->
  load_document F w = (r, w1) ->
  (exists doc h1, r = inr (Some doc) /\ load_result F (w_heap w) = inr (doc, h1) /\
                  w1 = set_heap h1 (record (load_call F) w)) \/
  (exists msg, r = inr None /\ discovery_url F <> EmptyString /\
               fetch_discovery_doc (discovery_url F) (w_heap w) =
                 inl (CommunicationError msg) /\
               w1 = record (FetchDiscoveryDoc (discovery_url F)) w) \/
  (exists e, r = inl e /\ load_result F (w_heap w) = inl e /\
             w1 = record (load_call F) w /\
             (discovery_url F <> EmptyString -> forall msg, e <> CommunicationError msg)).
Proof.
  intros <-. unfold load_document, load_result, load_call.
  destruct (String.eqb (discovery_url (w_flags w)) EmptyString) eqn:Hu; cbn [negb].
  - unfold bind, call_json_load. cbn [record w_heap].
    destruct (json_load_file _ _) as [e|[doc h1]]; intros [= <- <-].
    + right. right. exists e. repeat split.
      apply String.eqb_eq in Hu. intros Hne. contradiction.
    + left. eauto.
  - apply String.eqb_neq in Hu.
    unfold try_except_CommunicationError, bind, call_FetchDiscoveryDoc.
    cbn [record w_heap].
    destruct (fetch_discovery_doc _ _) as [e|[doc h1]].
    + destruct e; intros [= <- <-];
        try (right; right; eexists; repeat split; intros; discriminate).
      right. left. eauto.
    + intros [= <- <-]. left. eauto.
Qed.

Lemma call_Names_inv strip convention cap w r w1 :
  call_Names strip convention cap w = (r, w1) ->
  (exists e, r = inl e /\
             respond (Names_new strip convention cap) (w_heap w) (w_reg w) = inl e /\
             w1 = record (Names_new strip convention cap) w) \/
  (exists reg, r = inr {| strip_prefixes := strip; name_convention := convention;
                          capitalize_enums := cap |} /\
               respond (Names_new strip convention cap) (w_heap w) (w_reg w) = inr reg /\
               w1 = after [Names_new strip convention cap] reg w).
Proof.
  unfold call_Names. intros H.
  apply bind_inv in H as [(e & H & ->)|(x & w2 & H2 & H)].
  - apply invoke_inv in H as [(e' & Hr & [= ->] & ->)|(? & _ & [=] & _)]. left. eauto.
  - apply invoke_inv in H2 as [(? & _ & [=] & _)|(reg & Hr & _ & ->)].
    injection H as <- <-. right. eauto.
Qed.

Lemma call_ClientInfo_Create_inv doc sc cid csec ua names key w r w1 :
  call_ClientInfo_Create doc sc cid csec ua names key w = (r, w1) ->
  r = client_info_create doc (w_heap w) sc cid csec ua names key /\
  w1 = record (ClientInfo_Create doc sc cid csec ua names key) w.
Proof.
  unfold call_ClientInfo_Create. cbn [record w_heap].
  destruct (client_info_create _ _ _ _ _ _ _ _); by intros [= <- <-].
Qed.

Lemma call_GetPackage_inv dir w r w1 :
  call_GetPackage dir w = (r, w1) ->
  r = get_package dir /\ w1 = record (GetPackage dir) w.
Proof.
  unfold call_GetPackage. destruct (get_package dir); by intros [= <- <-].
Qed.

(** X12.  A fetch that fails with anything but a communication error is not
    turned into [None]: the exception leaves [_GetCodegenFromFlags], and
    [GenerateClient.Run], after that one call, and nothing is logged. *)
Theorem fetch_error_propagates w e :
  discovery_url (w_flags w) <> EmptyString ->
  fetch_discovery_doc (discovery_url (w_flags w)) (w_heap w) = inl e ->
  (forall msg, e <> CommunicationError msg) ->
  let w1 := record (FetchDiscoveryDoc (discovery_url (w_flags w))) w in
  _GetCodegenFromFlags w = (inl e, w1) /\
  GenerateClient_Run w = (inl e, w1).
Proof.
  intros Hurl Hfetch Hne w1. apply String.eqb_neq in Hurl.
  assert (_GetCodegenFromFlags w = (inl e, w1)) as E.
  { unfold _GetCodegenFromFlags. unfold bind at 1. cbn [FLAGS].
    unfold bind at 1. rewrite Hurl. cbn [negb].
    unfold try_except_CommunicationError, bind, call_FetchDiscoveryDoc.
    cbn [record w_heap]. rewrite Hfetch.
    destruct e; try reflexivity. by destruct (Hne msg). }
  split; [exact E|]. unfold GenerateClient_Run, bind. by rewrite E.
Qed.

(** X13.  The file branch has no handler: when [--discovery_url] is empty
    and reading the file raises, be it a communication error, the exception
    leaves [_GetCodegenFromFlags] after that one call. *)
Theorem file_error_propagates w e :
  discovery_url (w_flags w) = EmptyString ->
  let path := str_or (expanduser (infile (w_flags w))) "/dev/stdin" in
  json_load_file path (w_heap w) = inl e ->
  _GetCodegenFromFlags w = (inl e, record (json_load path) w).
Proof.
  intros Hurl path Hload.
  unfold _GetCodegenFromFlags. unfold bind at 1. cbn [FLAGS].
  unfold bind at 1. rewrite Hurl. cbn [negb String.eqb].
  unfold bind, call_json_load. cbn [record w_heap]. fold path. by rewrite Hload.
Qed.

(** *** The flags *)

Lemma keeps_bind {A B} (m : M A) (k : A -> M B) :
  keeps_flags m -> (forall x, keeps_flags (k x)) -> keeps_flags (bind m k).
Proof.
  intros Hm Hk w r w' H. apply bind_inv in H as [(e & H & _)|(x & w1 & H1 & H)].
  - by eapply Hm.
  - apply Hm in H1. apply Hk in H. congruence.
Qed.

Lemma keeps_world {A} (m : M A) :
  (forall w r w', m w = (r, w') ->
     exists h cs l reg, w' = set_log l (set_heap h (after cs reg w))) ->
  keeps_flags m.
Proof. intros Hm w r w' H. by apply Hm in H as (h & cs & l & reg & ->). Qed.

Ltac keeps_prim f :=
  apply keeps_world; intros w r w' H; unfold f in H;
  repeat case_match; simplify_eq;
  by eexists (w_heap _), [], (w_log _), (w_reg _).

Lemma keeps_ret {A} (x : A) : keeps_flags (ret x).
Proof. by intros w r w' [= _ <-]. Qed.
Lemma keeps_raise {A} e : keeps_flags (@raise _ A e).
Proof. by intros w r w' [= _ <-]. Qed.
Lemma keeps_FLAGS : keeps_flags FLAGS.
Proof. by intros w r w' [= _ <-]. Qed.
Lemma keeps_new_dict d : keeps_flags (new_dict d).
Proof. by intros w r w' [= _ <-]. Qed.
Lemma keeps_py_get d k v : keeps_flags (py_get d k v).
Proof. intros w r w' H. by apply py_get_inv in H as [-> _]. Qed.
Lemma keeps_py_getitem d k : keeps_flags (py_getitem d k).
Proof. intros w r w' H. by apply py_getitem_inv in H as [-> _]. Qed.
Lemma keeps_py_iteritems d : keeps_flags (py_iteritems d).
Proof. intros w r w' H. by apply py_iteritems_inv in H as [-> _]. Qed.
Lemma keeps_py_truthy v : keeps_flags (py_truthy v).
Proof. by intros w r w' [= _ <-]. Qed.
Lemma keeps_invoke c : keeps_flags (invoke c).
Proof.
  intros w r w' H.
  by apply invoke_inv in H as [(e & _ & _ & ->)|(reg & _ & _ & ->)].
Qed.
Lemma keeps_for {A} (xs : list A) body :
  (forall x, keeps_flags (body x)) -> keeps_flags (for_ xs body).
Proof.
  intros Hb. induction xs as [|x xs IH]; cbn [for_].
  - apply keeps_ret.
  - apply keeps_bind; auto.
Qed.
Lemma keeps_ComputePaths package version doc :
  keeps_flags (_ComputePaths package version doc).
Proof. intros w r w' H. by apply ComputePaths_inv in H as [l ->]. Qed.
Lemma keeps_StandardQueryParametersSchema doc :
  keeps_flags (_StandardQueryParametersSchema doc).
Proof. intros w r w' H. by apply SQP_inv in H as (h & -> & _). Qed.
Lemma keeps_LookupDescriptorOrDie name : keeps_flags (call_LookupDescriptorOrDie name).
Proof. intros w r w' H. by apply call_LookupDescriptorOrDie_inv in H as ->. Qed.
Lemma keeps_scopes : keeps_flags services_registry_scopes.
Proof. by intros w r w' [= _ <-]. Qed.
Lemma keeps_replace_scopes ci s : keeps_flags (call_replace_scopes ci s).
Proof. by intros w r w' [= _ <-]. Qed.
Lemma keeps_GetPackage dir : keeps_flags (call_GetPackage dir).
Proof. intros w r w' H. by apply call_GetPackage_inv in H as [_ ->]. Qed.
Lemma keeps_ClientInfo_Create doc sc cid csec ua names key :
  keeps_flags (call_ClientInfo_Create doc sc cid csec ua names key).
Proof. intros w r w' H. by apply call_ClientInfo_Create_inv in H as [_ ->]. Qed.
Lemma keeps_Names strip convention cap : keeps_flags (call_Names strip convention cap).
Proof.
  intros w r w' H.
  by apply call_Names_inv in H as [(e & _ & _ & ->)|(reg & _ & _ & ->)].
Qed.
Lemma keeps_load_document F : keeps_flags (load_document F).
Proof.
  intros w r w' H. unfold load_document in H.
  destruct (negb _).
  - unfold try_except_CommunicationError, bind, call_FetchDiscoveryDoc in H.
    cbn [record w_heap] in H.
    destruct (fetch_discovery_doc _ _) as [e|[doc h1]];
      [destruct e|]; by injection H as _ <-.
  - unfold bind, call_json_load in H. cbn [record w_heap] in H.
    destruct (json_load_file _ _) as [e|[doc h1]]; by injection H as _ <-.
Qed.

Ltac keeps_step :=
  first
    [ apply keeps_ComputePaths
    | apply keeps_StandardQueryParametersSchema
    | apply keeps_LookupDescriptorOrDie
    | apply keeps_scopes
    | apply keeps_replace_scopes
    | apply keeps_GetPackage
    | apply keeps_ClientInfo_Create
    | apply keeps_Names
    | apply keeps_ret
    | apply keeps_raise
    | apply keeps_FLAGS
    | apply keeps_invoke
    | apply keeps_for; intros ?
    | apply keeps_new_dict
    | apply keeps_py_get
    | apply keeps_py_getitem
    | apply keeps_py_iteritems
    | apply keeps_py_truthy
    | apply keeps_bind; [|intros ?]
    | match goal with |- keeps_flags (if ?b then _ else _) => destruct b end
    | match goal with |- keeps_flags (match ?x with (_, _) => _ end) => destruct x end ].

Lemma keeps_init doc ci names rp outdir p2 :
  keeps_flags (DescriptorGenerator__init__ doc ci names rp outdir p2).
Proof. unfold DescriptorGenerator__init__. repeat keeps_step. Qed.

Lemma same_but_refl F : same_but_root_package_dir F F.
Proof. by destruct F. Qed.

Lemma same_but_trans F1 F2 F3 :
  same_but_root_package_dir F1 F2 -> same_but_root_package_dir F2 F3 ->
  same_but_root_package_dir F1 F3.
Proof. unfold same_but_root_package_dir. intros -> ->. by destruct F1. Qed.

Lemma touches_keeps {A} (m : M A) :
  keeps_flags m -> touches_only_root_package_dir m.
Proof. intros Hm w r w' H. apply Hm in H as ->. apply same_but_refl. Qed.

Lemma touches_bind {A B} (m : M A) (k : A -> M B) :
  touches_only_root_package_dir m ->
  (forall x, touches_only_root_package_dir (k x)) ->
  touches_only_root_package_dir (bind m k).
Proof.
  intros Hm Hk w r w' H. apply bind_inv in H as [(e & H & _)|(x & w1 & H1 & H)].
  - by eapply Hm.
  - eapply same_but_trans; [by eapply Hm|by eapply Hk].
Qed.

Lemma touches_assign d : touches_only_root_package_dir (assign_root_package_dir d).
Proof. intros w r w' [= _ <-]. cbn. by destruct (w_flags w). Qed.

(** X14.  [_GetCodegenFromFlags] writes one flag only: on every run,
    whatever its outcome, the flags it leaves are the flags it found, but
    for [root_package_dir]. *)
Theorem GetCodegenFromFlags_flags w r w' :
  _GetCodegenFromFlags w = (r, w') ->
  same_but_root_package_dir (w_flags w) (w_flags w').
Proof.
  revert w r w'. change (touches_only_root_package_dir _GetCodegenFromFlags).
  unfold _GetCodegenFromFlags.
  apply touches_bind; [apply touches_keeps, keeps_FLAGS|intros F].
  apply touches_bind; [apply touches_keeps, (keeps_load_document F)|intros [doc|]];
    [|apply touches_keeps, keeps_ret].
  repeat first
    [ apply touches_assign
    | apply touches_keeps; solve [apply keeps_init | repeat keeps_step]
    | apply touches_bind; [|intros ?]
    | match goal with
      | |- touches_only_root_package_dir (if ?b then _ else _) => destruct b
      end ].
Qed.

(** *** What the result of [_GetCodegenFromFlags] tells *)

(** X15.  A generator that [_GetCodegenFromFlags] returns has passed the
    output-directory check, and carries what the flags and the document
    resolve to: the names of the flags, the proto2 switch, the output
    directory (the flag, or the client's default), and the package of the
    absolute root package directory, which is left in the flag. *)
Theorem returned_generator w g w' :
  _GetCodegenFromFlags w = (inr (Some g), w') ->
  let F := w_flags w in
  let dir :=
    abspath (if String.eqb (root_package_dir F) EmptyString
             then self_outdir g else root_package_dir F) in
  (path_exists (self_outdir g) = false \/ overwrite F = true) /\
  (exists h1 ci,
     load_result F (w_heap w) = inr (self_discovery_doc g, h1) /\
     client_info_create (self_discovery_doc g) h1 (scope F) (client_id F)
       (client_secret F) (user_agent F) (names_of_flags F) (api_key F) = inr ci /\
     self_outdir g = str_or (expanduser (outdir F)) (default_directory ci) /\
     self_client_info g =
       ClientInfo__replace_scopes ci (scopes (self_client_info g))) /\
  self_names g = names_of_flags F /\
  self_use_proto2 g = experimental_proto2_output F /\
  get_package dir = inr (self_root_package g) /\
  w_flags w' = set_root_package_dir F dir.
Proof.
  intros H F dir. unfold _GetCodegenFromFlags in H.
  apply bind_inr in H as (F0 & w0 & HF & H). injection HF as <- <-. fold F in H.
  apply bind_inr in H as (loaded & w1 & Hl & H).
  change (load_document F w = (inr loaded, w1)) in Hl.
  apply load_document_inv in Hl as
    [(doc & h1 & [= ->] & Hload & ->)|[(msg & [= ->] & _)|(e & [=] & _)]];
    [|discriminate H|reflexivity].
  apply bind_inr in H as (names & w2 & Hn & H).
  apply call_Names_inv in Hn as [(e & [=] & _)|(reg & [= ->] & _ & ->)].
  apply bind_inr in H as (ci & w3 & Hci & H).
  apply call_ClientInfo_Create_inv in Hci as [Hci ->].
  cbn [w_heap record after set_heap] in Hci. symmetry in Hci.
  destruct (path_exists _ && negb (overwrite F)) eqn:Hcheck; [discriminate H|].
  apply bind_inr in H as ([] & w4 & Ha & H).
  apply bind_inr in H as (F' & w5 & HF' & H). injection HF' as <- <-.
  apply bind_inr in H as ([] & w6 & Hb & H). injection Hb as <-.
  apply bind_inr in H as (F'' & w7 & HF'' & H). injection HF'' as <- <-.
  apply bind_inr in H as (rp & w8 & Hp & H).
  apply call_GetPackage_inv in Hp as [Hp ->].
  apply bind_inr in H as (g' & w9 & Hg & H). injection H as -> ->.
  apply init_success in Hg as
    (description & base_url & base_path & items & d & sitems & api &
     _ & Hflags & -> & _).
  cbn [self_outdir self_discovery_doc self_client_info self_names
       self_use_proto2 self_root_package] in *.
  cbn [w_flags record set_flags] in Hflags, Hp.
  cbn [root_package_dir set_root_package_dir] in Hflags, Hp.
  assert (root_package_dir (w_flags w4) =
          if String.eqb (root_package_dir F) EmptyString
          then str_or (expanduser (outdir F)) (default_directory ci)
          else root_package_dir F) as Hdir.
  { destruct (String.eqb (root_package_dir F) EmptyString) eqn:Hr.
    - injection Ha as <-. reflexivity.
    - injection Ha as <-. reflexivity. }
  assert (w_flags w4 = set_root_package_dir F (root_package_dir (w_flags w4))) as Hsame.
  { destruct (String.eqb (root_package_dir F) EmptyString) eqn:Hr.
    - injection Ha as <-. reflexivity.
    - injection Ha as <-. cbn. by destruct (w_flags w). }
  split; [|split; [|split; [|split; [|split]]]].
  - apply andb_false_iff in Hcheck as [Hc|Hc]; [by left|right].
    by apply negb_false_iff in Hc.
  - exists h1, ci. by repeat split.
  - reflexivity.
  - rewrite Hsame. reflexivity.
  - unfold dir. rewrite <- Hdir. by symmetry.
  - rewrite Hflags. unfold dir. rewrite <- Hdir. rewrite Hsame at 1. reflexivity.
Qed.

(** X16.  [_GetCodegenFromFlags] returns [None] in one case only: a
    discovery URL is given and fetching it fails to communicate.  The fetch
    is then the only call made. *)
Theorem no_generator_only_on_fetch_failure w w' :
  _GetCodegenFromFlags w = (inr None, w') ->
  discovery_url (w_flags w) <> EmptyString /\
  (exists msg, fetch_discovery_doc (discovery_url (w_flags w)) (w_heap w) =
                 inl (CommunicationError msg)) /\
  w' = record (FetchDiscoveryDoc (discovery_url (w_flags w))) w.
Proof.
  intros H. unfold _GetCodegenFromFlags in H.
  apply bind_inr in H as (F0 & w0 & HF & H). injection HF as <- <-.
  apply bind_inr in H as (loaded & w1 & Hl & H).
  change (load_document (w_flags w) w = (inr loaded, w1)) in Hl.
  apply load_document_inv in Hl as
    [(doc & h1 & [= ->] & Hload & ->)|[(msg & [= ->] & Hu & Hf & ->)|(e & [=] & _)]];
    [|injection H as <-; eauto|reflexivity].
  exfalso.
  apply bind_inr in H as (names & w2 & _ & H).
  apply bind_inr in H as (ci & w3 & _ & H).
  destruct (path_exists _ && negb _); [discriminate H|].
  repeat (apply bind_inr in H as (? & ? & _ & H)). discriminate H.
Qed.

(** *** The files of a run *)

Lemma writes_as_loop g w :
  (do _WriteGeneratedFiles g then _WriteInit g) w =
  for_ (planned_writes g) invoke w.
Proof.
  unfold _WriteGeneratedFiles, _WriteInit, _WriteProtoFiles, write, planned_writes.
  destruct (self_use_proto2 g); cbn [app for_]; unfold bind, ret, invoke;
    repeat match goal with
      | |- context [respond ?c ?h ?r] => destruct (respond c h r); cbn [fst snd]
      end; reflexivity.
Qed.

Lemma proto_writes_as_loop g w :
  _WriteProtoFiles (Some g) w = for_ (planned_proto_writes g) invoke w.
Proof.
  unfold _WriteProtoFiles, write, planned_proto_writes.
  cbn [for_]; unfold bind, ret, invoke;
    repeat match goal with
      | |- context [respond ?c ?h ?r] => destruct (respond c h r); cbn [fst snd]
      end; reflexivity.
Qed.

Lemma loop_of_calls cs w r w' :
  for_ cs invoke w = (r, w') ->
  exists n reg, n <= List.length cs /\ w' = after (take n cs) reg w /\
    (forall u, r = inr u -> n = List.length cs) /\
    (forall e, r = inl e -> 0 < n /\
       exists c h reg0, cs !! (n - 1) = Some c /\ respond c h reg0 = inl e).
Proof.
  revert w. induction cs as [|c cs IH]; intros w.
  - cbn [for_]. intros [= <- <-]. exists 0, (w_reg w).
    split; [reflexivity|]. split; [symmetry; apply after_nil|].
    split; [reflexivity|discriminate].
  - cbn [for_]. intros H. apply bind_inv in H as [(e & Hx & ->)|(? & w1 & Hx & H)].
    + apply invoke_inv in Hx as [(e' & Hr & [= <-] & ->)|(reg & _ & [=] & _)].
      exists 1, (w_reg w). cbn. split; [lia|]. split; [reflexivity|].
      split; [discriminate|]. intros e0 [= <-]. split; [lia|]. eauto.
    + apply invoke_inr in Hx as (r1 & ->).
      apply IH in H as (n & r2 & Hn & -> & Hok & Herr).
      exists (S n), r2. cbn [List.length take]. rewrite after_after.
      split; [lia|]. split; [reflexivity|]. split.
      * intros u Hu. f_equal. by eapply Hok.
      * intros e He. destruct (Herr e He) as (Hpos & c' & h & reg0 & Hc & Hr).
        split; [lia|]. exists c', h, reg0. split; [|exact Hr].
        replace (S n - 1) with (S (n - 1)) by lia. exact Hc.
Qed.

(** X17.  Once a generator is there, [GenerateClient.Run] does nothing but
    write files: the two proto files first when proto2 output is on, then
    the messages file, the client library, the command line and
    [__init__.py], in this order and in the generator's output directory.
    A run that returns has written them all and returns [None]; a run that
    raises stopped at the file whose writing raised. *)
Theorem client_run_writes w g w1 r w' :
  _GetCodegenFromFlags w = (inr (Some g), w1) ->
  GenerateClient_Run w = (r, w') ->
  exists n reg,
    w' = after (take n (planned_writes g)) reg w1 /\
    (forall v, r = inr v ->
       v = VNone /\ w_calls w' = w_calls w1 ++ planned_writes g) /\
    (forall e, r = inl e ->
       exists c h reg0, planned_writes g !! (n - 1) = Some c /\
                        respond c h reg0 = inl e).
Proof.
  intros Hg H. unfold GenerateClient_Run in H. unfold bind at 1 in H.
  rewrite Hg in H.
  assert (bind (do _WriteGeneratedFiles g then _WriteInit g)
            (fun _ => ret VNone) w1 = (r, w')) as H'.
  { rewrite <- H. unfold bind.
    destruct (_WriteGeneratedFiles g w1) as [[e|[]] w2]; [reflexivity|].
    destruct (_WriteInit g w2) as [[e|[]] w3]; reflexivity. }
  clear H. unfold bind at 1 in H'. rewrite writes_as_loop in H'.
  destruct (for_ (planned_writes g) invoke w1) as [[e|[]] w2] eqn:Hloop;
    apply loop_of_calls in Hloop as (n & reg & Hn & -> & Hok & Herr);
    injection H' as <- <-; exists n, reg; (split; [reflexivity|]).
  - split; [discriminate|]. intros e0 [= <-]. by destruct (Herr e eq_refl) as [_ ?].
  - split; [|discriminate]. intros v [= <-]. split; [reflexivity|].
    rewrite (Hok tt eq_refl), firstn_all. reflexivity.
Qed.

(** X18.  [GenerateClient.Run] returns 128 in one case only: a discovery
    URL is given and fetching it fails to communicate.  The fetch is then
    the only call made, no file is written, and the one line logged is the
    error. *)
Theorem exit_128_only_on_fetch_failure w w' :
  GenerateClient_Run w = (inr (VInt 128), w') ->
  discovery_url (w_flags w) <> EmptyString /\
  (exists msg, fetch_discovery_doc (discovery_url (w_flags w)) (w_heap w) =
                 inl (CommunicationError msg)) /\
  w_calls w' = w_calls w ++ [FetchDiscoveryDoc (discovery_url (w_flags w))] /\
  w_log w' = w_log w ++ [(ERROR, "Failed to create codegen, exiting.")].
Proof.
  intros H. unfold GenerateClient_Run in H.
  apply bind_inr in H as ([g|] & w1 & Hg & H).
  - apply bind_inr in H as (? & ? & _ & H).
    apply bind_inr in H as (? & ? & _ & H). discriminate H.
  - apply no_generator_only_on_fetch_failure in Hg as (Hu & Hf & ->).
    injection H as <-. by repeat split.
Qed.

(** X19.  [GenerateProto.Run] does not check for a missing generator: when
    the fetch fails to communicate, it hands [None] to [_WriteProtoFiles],
    whose [codegen.outdir] raises [AttributeError].  Nothing is logged and no
    file is written. *)
Theorem proto_run_without_generator w msg :
  discovery_url (w_flags w) <> EmptyString ->
  fetch_discovery_doc (discovery_url (w_flags w)) (w_heap w) =
    inl (CommunicationError msg) ->
  GenerateProto_Run w =
    (inl (AttributeError "outdir"),
     record (FetchDiscoveryDoc (discovery_url (w_flags w))) w).
Proof.
  intros Hu Hf. unfold GenerateProto_Run. unfold bind at 1.
  by rewrite (GetCodegenFromFlags_fetch_failure w msg Hu Hf).
Qed.

(** X20.  With a generator, [GenerateProto.Run] writes the messages proto
    file and then the services proto file, whether proto2 output is on or
    not; a run that returns has written both and returns [None], and it
    never returns anything else. *)
Theorem proto_run_writes w g w1 r w' :
  _GetCodegenFromFlags w = (inr (Some g), w1) ->
  GenerateProto_Run w = (r, w') ->
  exists n reg,
    w' = after (take n (planned_proto_writes g)) reg w1 /\
    (forall v, r = inr v ->
       v = VNone /\ w_calls w' = w_calls w1 ++ planned_proto_writes g) /\
    (forall e, r = inl e ->
       exists c h reg0, planned_proto_writes g !! (n - 1) = Some c /\
                        respond c h reg0 = inl e).
Proof.
  intros Hg H. unfold GenerateProto_Run in H. unfold bind at 1 in H.
  rewrite Hg in H. unfold bind at 1 in H. rewrite proto_writes_as_loop in H.
  destruct (for_ (planned_proto_writes g) invoke w1) as [[e|[]] w2] eqn:Hloop;
    apply loop_of_calls in Hloop as (n & reg & Hn & -> & Hok & Herr);
    injection H as <- <-; exists n, reg; (split; [reflexivity|]).
  - split; [discriminate|]. intros e0 [= <-]. by destruct (Herr e eq_refl) as [_ ?].
  - split; [|discriminate]. intros v [= <-]. split; [reflexivity|].
    rewrite (Hok tt eq_refl), firstn_all. reflexivity.
Qed.

(** *** The calls of [_GetCodegenFromFlags] *)

Lemma emits_raise {A} P e : emits P (@raise _ A e).
Proof. apply emits_silent. by intros w r w' [= _ <-]. Qed.
Lemma emits_FLAGS P : emits P FLAGS.
Proof. apply emits_silent. by intros w r w' [= _ <-]. Qed.
Lemma emits_assign P d : emits P (assign_root_package_dir d).
Proof. apply emits_silent. by intros w r w' [= _ <-]. Qed.
Lemma emits_Names P strip convention cap :
  P (Names_new strip convention cap) -> emits P (call_Names strip convention cap).
Proof.
  intros Hc w r w' H. exists [Names_new strip convention cap].
  split; [|by repeat constructor].
  by apply call_Names_inv in H as [(e & _ & _ & ->)|(reg & _ & _ & ->)].
Qed.
Lemma emits_ClientInfo_Create P doc sc cid csec ua names key :
  P (ClientInfo_Create doc sc cid csec ua names key) ->
  emits P (call_ClientInfo_Create doc sc cid csec ua names key).
Proof.
  intros Hc w r w' H. eexists [_]. split; [|by repeat constructor].
  by apply call_ClientInfo_Create_inv in H as [_ ->].
Qed.
Lemma emits_GetPackage P dir : P (GetPackage dir) -> emits P (call_GetPackage dir).
Proof.
  intros Hc w r w' H. eexists [_]. split; [|by repeat constructor].
  by apply call_GetPackage_inv in H as [_ ->].
Qed.

Lemma GetCodegenFromFlags_calls w r w' :
  _GetCodegenFromFlags w = (r, w') ->
  exists cs,
    w_calls w' = w_calls w ++ load_call (w_flags w) :: cs /\
    Forall (fun c => is_load c || is_write c = false) cs.
Proof.
  intros H. unfold _GetCodegenFromFlags in H.
  apply bind_inv in H as [(e & [=] & _)|(F0 & w0 & HF & H)]. injection HF as <- <-.
  assert (forall w1, w_calls w1 = w_calls w ++ [load_call (w_flags w)] ->
          forall cs, w_calls w' = w_calls w1 ++ cs ->
            Forall (fun c => is_load c || is_write c = false) cs ->
          exists cs,
            w_calls w' = w_calls w ++ load_call (w_flags w) :: cs /\
            Forall (fun c => is_load c || is_write c = false) cs) as Hdone.
  { intros w1 E1 cs E Hcs. exists cs. split; [|exact Hcs].
    by rewrite E, E1, <- List.app_assoc. }
  apply bind_inv in H as [(e & Hl & _)|(loaded & w1 & Hl & H)].
  - change (load_document (w_flags w) w = (inl e, w')) in Hl.
    apply load_document_inv in Hl as
      [(doc & h1 & [=] & _)|[(msg & [=] & _)|(e' & _ & _ & -> & _)]];
      [|reflexivity].
    apply (Hdone (record (load_call (w_flags w)) w) eq_refl []);
      [by rewrite List.app_nil_r|constructor].
  - change (load_document (w_flags w) w = (inr loaded, w1)) in Hl.
    assert (w_calls w1 = w_calls w ++ [load_call (w_flags w)]) as E1.
    { apply load_document_inv in Hl as
        [(doc & h1 & _ & _ & ->)|[(msg & _ & Hu & _ & ->)|(e' & [=] & _)]];
        [reflexivity| |reflexivity].
      unfold load_call. apply String.eqb_neq in Hu. by rewrite Hu. }
    match type of H with
    | ?m _ = _ =>
        assert (emits (fun c => is_load c || is_write c = false) m) as Hm
    end.
    { destruct loaded as [doc|]; [|apply emits_ret].
      repeat first
        [ apply emits_raise | apply emits_FLAGS | apply emits_assign
        | apply emits_Names | apply emits_ClientInfo_Create
        | apply emits_GetPackage
        | apply init_no_io
        | apply emits_ret
        | apply emits_bind; [|intros ?]
        | match goal with |- emits _ (if ?b then _ else _) => destruct b end
        | reflexivity ]. }
    apply Hm in H as (cs & E & Hcs). by apply (Hdone w1 E1 cs).
Qed.

(** X21.  [_GetCodegenFromFlags] reads the document first and once, from
    the URL when one is given and from the file otherwise, and writes no
    file: on every run, whatever its outcome, the first call is the load
    and no later call is a load or a write. *)
Theorem document_read_once w r w' :
  _GetCodegenFromFlags w = (r, w') ->
  exists c cs,
    w_calls w' = w_calls w ++ c :: cs /\
    (discovery_url (w_flags w) <> EmptyString ->
       c = FetchDiscoveryDoc (discovery_url (w_flags w))) /\
    (discovery_url (w_flags w) = EmptyString ->
       c = json_load (str_or (expanduser (infile (w_flags w))) "/dev/stdin")) /\
    Forall (fun c => is_load c || is_write c = false) cs.
Proof.
  intros H. apply GetCodegenFromFlags_calls in H as (cs & E & Hcs).
  exists (load_call (w_flags w)), cs. split; [exact E|].
  split; [|split; [|exact Hcs]]; unfold load_call.
  - intros Hu. apply String.eqb_neq in Hu. by rewrite Hu.
  - intros ->. reflexivity.
Qed.

(** *** The validators of the flags *)

Lemma str_truthy_false s : str_truthy s = false <-> s = EmptyString.
Proof.
  unfold str_truthy. rewrite negb_false_iff. apply String.eqb_eq.
Qed.

(** X22.  The validators of [--infile] and [--discovery_url] are one check
    seen from two sides: on the flags' own values they agree, and they
    accept exactly when the two flags are not both given.  Each refuses a
    value exactly when it is non-empty and the other flag is given. *)
Theorem validators_exclusive F :
  infile_validator F (infile F) = discovery_url_validator F (discovery_url F) /\
  (infile_validator F (infile F) = true <->
     infile F = EmptyString \/ discovery_url F = EmptyString) /\
  (forall i, infile_validator F i = false <->
     i <> EmptyString /\ discovery_url F <> EmptyString) /\
  (forall i, discovery_url_validator F i = false <->
     i <> EmptyString /\ infile F <> EmptyString).
Proof.
  assert (forall a b, negb (str_truthy a && str_truthy b) = false <->
            a <> EmptyString /\ b <> EmptyString) as Hrefuse.
  { intros a b. rewrite negb_false_iff, andb_true_iff.
    rewrite <- !not_false_iff_true, !str_truthy_false. tauto. }
  split; [|split; [|split]].
  - unfold infile_validator, discovery_url_validator. by rewrite andb_comm.
  - unfold infile_validator. rewrite negb_true_iff, andb_false_iff.
    by rewrite !str_truthy_false.
  - intros i. apply Hrefuse.
  - intros i. apply Hrefuse.
Qed.

(** X23.  With flags that the validators accept, a given [--infile] is the
    file that is read: the first call of [_GetCodegenFromFlags] loads its
    expanded name, and the document is not fetched. *)
Theorem accepted_infile_is_read w r w' :
  infile_validator (w_flags w) (infile (w_flags w)) = true ->
  infile (w_flags w) <> EmptyString ->
  _GetCodegenFromFlags w = (r, w') ->
  exists cs,
    w_calls w' =
      w_calls w ++
      json_load (str_or (expanduser (infile (w_flags w))) "/dev/stdin") :: cs /\
    Forall (fun c => is_load c || is_write c = false) cs.
Proof.
  intros Hv Hi H. apply GetCodegenFromFlags_calls in H as (cs & E & Hcs).
  exists cs. split; [|exact Hcs]. rewrite E. unfold load_call.
  unfold infile_validator in Hv.
  apply negb_true_iff, andb_false_iff in Hv as [Hv|Hv];
    apply str_truthy_false in Hv; [contradiction|].
  by rewrite Hv.
Qed.


End EntryPointMore.

(** ** Copying a local file *)

Section LocalFilesMore.

Variable get_data : string -> string -> result (option string).
Variable open_error : string -> option exn.

(** X24.  [_CopyLocalFile] touches the named file only.  When it returns,
    the file holds the package data and nothing of what it held before.
    When it raises after the file was opened, because the data is missing
    or could not be read, the file is left empty: the former content is
    lost.  When the file cannot be opened, nothing changes. *)
Theorem CopyLocalFile_outcome filename fs r fs' :
  _CopyLocalFile get_data open_error filename fs = (r, fs') ->
  (forall n, n <> filename -> fs' n = fs n) /\
  (forall u, r = inr u ->
     exists data, get_data "apitools.base.py" filename = inr (Some data) /\
                  fs' filename = Some data) /\
  (forall e, r = inl e ->
     (open_error filename = Some e /\ fs' = fs) \/
     (open_error filename = None /\ fs' filename = Some EmptyString /\
      (get_data "apitools.base.py" filename = inl e \/
       get_data "apitools.base.py" filename = inr None /\
       e = OtherError "GeneratedClientError"
             ("Could not find file " +:+ filename)))).
Proof.
  unfold _CopyLocalFile, open_w, file_write.
  destruct (open_error filename) as [e0|] eqn:Hopen.
  - intros [= <- <-]. split; [reflexivity|]. split; [discriminate|].
    intros e [= <-]. by left.
  - destruct (get_data "apitools.base.py" filename) as [e0|[data|]] eqn:Hdata;
      intros [= <- <-].
    + split; [intros n Hn; apply String.eqb_neq in Hn; by rewrite Hn|].
      split; [discriminate|]. intros e [= <-]. right.
      rewrite String.eqb_refl. auto.
    + split; [intros n Hn; apply String.eqb_neq in Hn; by rewrite Hn|].
      split; [|discriminate]. intros _ _. exists data.
      split; [reflexivity|]. by rewrite !String.eqb_refl.
    + split; [intros n Hn; apply String.eqb_neq in Hn; by rewrite Hn|].
      split; [discriminate|]. intros e [= <-]. right.
      rewrite String.eqb_refl. auto.
Qed.

End LocalFilesMore.

(** ** The code on the sample document *)

Module SampleRuns.
Import Sample PyStr.

Lemma ComputePaths_splits_on_component_witness :
  let w := start doc_heap flags in
  let full_path := "https://x.com/pkg/v1/" in
  let component := "pkg" +:+ "/" +:+ "v1" +:+ "/" in
  doc_field (w_heap w) (VDict 0) "rootUrl" = Some (VStr "https://x.com/") /\
  doc_field (w_heap w) (VDict 0) "servicePath" = Some (VStr "pkg/v1/") /\
  (occurs component full_path ->
     exists prefix suffix,
       full_path = prefix +:+ component +:+ suffix /\
       _ComputePaths "pkg" "v1" (VDict 0) w =
         (inr (VStr (prefix +:+ component), suffix), w)) /\
  (~ occurs component full_path ->
     _ComputePaths "pkg" "v1" (VDict 0) w =
       (inr (VStr full_path, EmptyString),
        add_log WARNING (path_warning component full_path) w)).
Proof.
  split; [reflexivity|]. split; [reflexivity|].
  exact (ComputePaths_splits_on_component (C := collaborators)
           "pkg" "v1" (VDict 0) "https://x.com/" "pkg/v1/"
           (start doc_heap flags) eq_refl eq_refl).
Defined.

Lemma ComputePaths_concat_last_occurrence_witness :
  let w := start doc_heap flags in
  let full_path := "https://x.com/pkg/v1/" in
  let component := "pkg" +:+ "/" +:+ "v1" +:+ "/" in
  doc_field (w_heap w) (VDict 0) "rootUrl" = Some (VStr "https://x.com/") /\
  doc_field (w_heap w) (VDict 0) "servicePath" = Some (VStr "pkg/v1/") /\
  exists base_url base_path w',
    _ComputePaths "pkg" "v1" (VDict 0) w = (inr (VStr base_url, base_path), w') /\
    base_url +:+ base_path = full_path /\
    forall p q, full_path = p +:+ component +:+ q ->
      exists prefix, base_url = prefix +:+ component /\
                     String.length p <= String.length prefix.
Proof.
  split; [reflexivity|]. split; [reflexivity|].
  exact (ComputePaths_concat_last_occurrence (C := collaborators)
           "pkg" "v1" (VDict 0) "https://x.com/" "pkg/v1/"
           (start doc_heap flags) eq_refl eq_refl).
Defined.

Lemma StandardQueryParametersSchema_spec_witness :
  let w := start doc_heap flags in
  let params := [("fields", VDict 5)] in
  doc_mapping (w_heap w) (VDict 0) "parameters" = Some params /\
  exists sqs w' schema props properties t entry,
    _StandardQueryParametersSchema (VDict 0) w = (inr (VDict sqs), w') /\
    w_heap w' !! sqs = Some schema /\
    Dict.lookup "id" schema = Some (VStr "StandardQueryParameters") /\
    Dict.lookup "type" schema = Some (VStr "object") /\
    Dict.lookup "properties" schema = Some (VDict props) /\
    w_heap w' !! props = Some properties /\
    (forall k, Dict.lookup k properties =
               if String.eqb k "trace" then Some (VDict t) else Dict.lookup k params) /\
    w_heap w' !! t = Some entry /\
    Dict.lookup "type" entry = Some (VStr "string") /\
    Dict.lookup "location" entry = Some (VStr "query").
Proof.
  split; [reflexivity|].
  exact (StandardQueryParametersSchema_spec (C := collaborators) (VDict 0)
           [("fields", VDict 5)] (start doc_heap flags) eq_refl).
Defined.

Lemma construction_order_witness :
  let w := start doc_heap flags in
  let sqs := List.length (w_heap w) + 2 in
  let schema_items := [("Foo", VDict 2)] in
  exists g w',
    construct doc_heap = (inr g, w') /\
    doc_mapping (w_heap w) (VDict 0) "schemas" = Some schema_items /\
    exists d resource_items api,
      w_calls w' =
        w_calls w ++
        construction_calls client names "root" (self_description g)
          (self_base_url g) (self_base_path g) schema_items sqs d
          (py_sorted resource_items ++ api) (scopes (self_client_info g)) /\
      services_follow sqs
        (construction_calls client names "root" (self_description g)
           (self_base_url g) (self_base_path g) schema_items sqs d
           (py_sorted resource_items ++ api) (scopes (self_client_info g))) /\
      doc_field (w_heap w') (VDict sqs) "id" =
        Some (VStr "StandardQueryParameters") /\
      (let h2 := firstn (List.length (w_heap w) + 4) (w_heap w') in
       looked_up
         (steps_before_lookup client names "root" (self_description g)
            (self_base_url g) schema_items sqs
            (w_heap w) (w_heap w ++ [[]]) h2)
         (w_reg w) "StandardQueryParameters" h2 d) /\
      doc_mapping (w_heap w') (VDict 0) "resources" = Some resource_items /\
      py_sorted resource_items ≡ₚ resource_items /\
      api_resource (w_heap w') (VDict 0) api.
Proof.
  unfold construct. eexists _, _.
  match goal with |- ?A /\ _ => assert A as H by (vm_compute; reflexivity) end.
  split; [exact H|].
  match goal with |- ?A /\ _ => assert A as Hs by reflexivity end.
  split; [exact Hs|].
  destruct (construction_order (C := collaborators) (VDict 0) client names
              "root" "out" false (start doc_heap flags) _ _ H)
    as (cs & E & Hf & Hall).
  destruct (Hall _ _ eq_refl Hs)
    as (d & resource_items & api & Ecs & Hid & Hd & Hres & Hperm & Hapi).
  exists d, resource_items, api. subst cs.
  split; [exact E|]. split; [exact Hf|]. split; [exact Hid|].
  split; [exact Hd|]. split; [exact Hres|]. split; [exact Hperm|exact Hapi].
Defined.

(** The calls of the construction on the sample document, one by one. *)
Example construction_calls_on_sample :
  exists g w',
    construct doc_heap = (inr g, w') /\
    w_calls w' =
      [MessageRegistry_new client names (VStr "") "root" "apitools.base.py";
       AddDescriptorFromSchema (VStr "Foo") (VDict 2);
       AddDescriptorFromSchema (VStr "StandardQueryParameters") (VDict 12);
       CommandRegistry_new "pkg" "v1" client "root" "apitools.base.py"
         (VStr "https://x.com/pkg/v1/") names;
       LookupDescriptorOrDie "StandardQueryParameters";
       AddGlobalParameters "StandardQueryParameters";
       ServiceRegistry_new client (VStr "https://x.com/pkg/v1/") "" names "root"
         "apitools.base.py";
       AddServiceFromResource "books" (VDict 7);
       AddServiceFromResource "items" (VDict 6);
       ClientInfo__replace ["scope/books"; "scope/items"]].
Proof.
  unfold construct. eexists _, _. split; vm_compute; reflexivity.
Qed.

Lemma scopes_replaced_once_witness :
  exists g w',
    construct doc_heap = (inr g, w') /\
    let ci' := self_client_info g in
    scopes ci' = registry_scopes (w_reg w') /\
    ci' = ClientInfo__replace_scopes client (registry_scopes (w_reg w')) /\
    (package ci' = package client /\ version ci' = version client /\
     url_version ci' = url_version client /\
     default_directory ci' = default_directory client /\
     client_rule_name ci' = client_rule_name client /\
     messages_rule_name ci' = messages_rule_name client /\
     messages_file_name ci' = messages_file_name client /\
     client_file_name ci' = client_file_name client /\
     cli_file_name ci' = cli_file_name client /\
     messages_proto_file_name ci' = messages_proto_file_name client /\
     services_proto_file_name ci' = services_proto_file_name client) /\
    exists cs,
      w_calls w' =
        w_calls (start doc_heap flags) ++ cs ++ [ClientInfo__replace (scopes ci')] /\
      Forall (fun c => is_replace c = false) cs.
Proof.
  unfold construct. eexists _, _.
  match goal with |- ?A /\ _ => assert A as H by (vm_compute; reflexivity) end.
  split; [exact H|].
  exact (scopes_replaced_once (C := collaborators) (VDict 0) client names
           "root" "out" false (start doc_heap flags) _ _ H).
Defined.


Lemma api_service_iff_methods_witness :
  exists g w',
    construct with_methods = (inr g, w') /\
    exists pre resource_items api o,
      w_calls w' =
        w_calls (start with_methods flags) ++ pre ++
        (add_service <$> py_sorted resource_items) ++
        (add_service <$> api) ++
        [ClientInfo__replace (scopes (self_client_info g))] /\
      Forall (fun c => is_service c = false) pre /\
      doc_mapping (w_heap w') (VDict 0) "resources" = Some resource_items /\
      deref (w_heap w') (VDict 0) = Some o /\
      (api <> [] <->
       exists methods, Dict.lookup "methods" o = Some methods /\
                       truth_value (w_heap w') methods = inr true) /\
      (forall item, item ∈ api ->
         api = [item] /\
         exists a methods,
           item = ("api", VDict a) /\
           Dict.lookup "methods" o = Some methods /\
           w_heap w' !! a = Some [("methods", methods)]).
Proof.
  unfold construct. eexists _, _.
  match goal with |- ?A /\ _ => assert A as H by (vm_compute; reflexivity) end.
  split; [exact H|].
  exact (api_service_iff_methods (C := collaborators) (VDict 0) client names
           "root" "out" false (start with_methods flags) _ _ H).
Defined.

(** The construction on the document with top-level methods: the [api]
    service comes after the two resources. *)
Example api_service_last :
  exists g w',
    construct with_methods = (inr g, w') /\
    filter (fun c => is_service c = true) (w_calls w') =
      [AddServiceFromResource "books" (VDict 7);
       AddServiceFromResource "items" (VDict 6);
       AddServiceFromResource "api" (VDict 15)] /\
    w_heap w' !! 15 = Some [("methods", VDict 8)].
Proof.
  unfold construct. eexists _, _.
  repeat (split; [vm_compute; reflexivity|]). vm_compute. reflexivity.
Qed.

(** The same without top-level methods: no [api] service. *)
Example no_api_service :
  exists g w',
    construct doc_heap = (inr g, w') /\
    filter (fun c => is_service c = true) (w_calls w') =
      [AddServiceFromResource "books" (VDict 7);
       AddServiceFromResource "items" (VDict 6)].
Proof.
  unfold construct. eexists _, _.
  repeat (split; [vm_compute; reflexivity|]). vm_compute. reflexivity.
Qed.

Lemma sample_collaborators_benign :
  forall e, raised_by_collaborators (C := collaborators) e -> benign e.
Proof.
  intros e [(c & h & r & H)|[(name & h & r & H)|[(dir & H)|(base & url & H)]]].
  - destruct c; discriminate H.
  - cbn in H. destruct (is_registered name r.1); [discriminate H|].
    injection H as <-. discriminate.
  - discriminate H.
  - cbn in H. subst e. discriminate.
Qed.

Lemma existing_output_directory_witness :
  let w := start [] flags_existing in
  let F := w_flags w in
  let new_names := Names_new [] "legacy" false in
  let create :=
    ClientInfo_Create (VDict 0) [] (Some "id") (Some "secret") EmptyString
      (names_of_flags F) None in
  let outdir_ := "existing" in
  load_result F (w_heap w) = inr (VDict 0, doc_heap) /\
  respond new_names doc_heap (w_reg w) = inr ([], []) /\
  client_info_create (VDict 0) doc_heap [] (Some "id") (Some "secret")
    EmptyString (names_of_flags F) None = inr client /\
  (path_exists outdir_ = true /\ overwrite F = false ->
     exists w',
       _GetCodegenFromFlags w =
         (inl (ConfigurationValueError output_directory_exists), w') /\
       w_calls w' = w_calls w ++ [load_call F; new_names; create]) /\
  (path_exists outdir_ = false \/ overwrite F = true ->
     (forall e, raised_by_collaborators e -> benign e) ->
     exists r w' cs,
       _GetCodegenFromFlags w = (r, w') /\
       r <> inl (ConfigurationValueError output_directory_exists) /\
       w_calls w' =
         w_calls w ++ [load_call F; new_names; create] ++
         GetPackage (abspath (if String.eqb (root_package_dir F) EmptyString
                              then outdir_ else root_package_dir F)) :: cs).
Proof.
  split; [reflexivity|]. split; [reflexivity|]. split; [reflexivity|].
  exact (existing_output_directory (C := collaborators)
           (start [] flags_existing) (VDict 0) doc_heap ([], []) client
           eq_refl eq_refl eq_refl).
Defined.

(** The check on the sample flags: an existing directory without
    [--overwrite] stops the run after three calls. *)
Example existing_directory_refused :
  exists w',
    _GetCodegenFromFlags (start [] flags_existing) =
      (inl (ConfigurationValueError output_directory_exists), w') /\
    w_calls w' =
      [json_load "doc.json"; Names_new [] "legacy" false;
       ClientInfo_Create (VDict 0) [] (Some "id") (Some "secret") EmptyString
         names None].
Proof. eexists. split; vm_compute; reflexivity. Qed.

(** With a directory that does not exist the run goes on: the package is
    asked for and a generator is returned. *)
Example fresh_directory_proceeds :
  exists g w',
    _GetCodegenFromFlags (start [] flags) = (inr (Some g), w') /\
    firstn 4 (w_calls w') =
      [json_load "doc.json"; Names_new [] "legacy" false;
       ClientInfo_Create (VDict 0) [] (Some "id") (Some "secret") EmptyString
         names None;
       GetPackage "/work/out"].
Proof. eexists _, _. split; vm_compute; reflexivity. Qed.

Lemma fetch_failure_exits_128_witness :
  let w := start [] flags_down in
  discovery_url (w_flags w) <> EmptyString /\
  fetch_discovery_doc (discovery_url (w_flags w)) (w_heap w) =
    inl (CommunicationError "unreachable") /\
  exists w1,
    _GetCodegenFromFlags w = (inr None, w1) /\
    w_calls w1 = w_calls w ++ [FetchDiscoveryDoc (discovery_url (w_flags w))] /\
    w_heap w1 = w_heap w /\ w_reg w1 = w_reg w /\ w_log w1 = w_log w /\
    exists w2,
      GenerateClient_Run w = (inr (VInt 128), w2) /\
      w_calls w2 = w_calls w1 /\
      w_log w2 = w_log w1 ++ [(ERROR, "Failed to create codegen, exiting.")].
Proof.
  assert (discovery_url (w_flags (start [] flags_down)) <> EmptyString) as Hurl
    by discriminate.
  split; [exact Hurl|]. split; [reflexivity|].
  exact (fetch_failure_exits_128 (C := collaborators) (start [] flags_down)
           "unreachable" Hurl eq_refl).
Defined.

(** C8, against the claim as it stands.  The flags name an output
    directory that exists and do not ask to overwrite it; they also name a
    discovery URL that cannot be reached.  The fetch comes first: it fails,
    [_GetCodegenFromFlags] returns [None] without a configuration error,
    the directory was never looked at, and [GenerateClient.Run] exits with
    128. *)
Lemma directory_check_not_reached :
  let w := start [] flags_down_existing in
  let F := w_flags w in
  expanduser (outdir F) = "existing" /\
  path_exists (expanduser (outdir F)) = true /\
  overwrite F = false /\
  exists w1 w2,
    _GetCodegenFromFlags w = (inr None, w1) /\
    w_calls w1 = [FetchDiscoveryDoc "https://down.example/"] /\
    GenerateClient_Run w = (inr (VInt 128), w2).
Proof.
  repeat (split; [reflexivity|]). eexists _, _.
  repeat (split; [vm_compute; reflexivity|]). vm_compute. reflexivity.
Qed.

(** A null [rootUrl] is no error: [urljoin] gives the [servicePath] back
    and the split goes on from there.  Two null fields raise at the
    membership test, and a list that does not hold the component is
    returned as it is, with a warning. *)
Example null_root_url_is_skipped :
  _ComputePaths "pkg" "v1" (VDict 0) (start Broken.null_root_url flags) =
    (inr (VStr "pkg/v1/", EmptyString), start Broken.null_root_url flags) /\
  _ComputePaths "pkg" "v1" (VDict 0) (start Broken.null_paths flags) =
    (inl (TypeError "argument is not iterable"), start Broken.null_paths flags) /\
  exists w',
    _ComputePaths "pkg" "v1" (VDict 0) (start Broken.list_service_path flags) =
      (inr (VList [VStr "v1"], EmptyString), w') /\
    List.length (w_log w') = 1.
Proof.
  split; [vm_compute; reflexivity|]. split; [vm_compute; reflexivity|].
  eexists. split; vm_compute; reflexivity.
Qed.

(** C7, on the sample document.  Before the construction the [parameters]
    mapping of the document has the one entry [fields]; the construction
    completes, the generator holds the document, and the [parameters]
    mapping of that document has a second entry, [trace], which the schema
    builder wrote into it. *)
Theorem construction_mutates_document :
  exists g w',
    construct doc_heap = (inr g, w') /\
    self_discovery_doc g = VDict 0 /\
    doc_mapping doc_heap (VDict 0) "parameters" = Some [("fields", VDict 5)] /\
    doc_mapping (w_heap w') (VDict 0) "parameters" =
      Some [("fields", VDict 5); ("trace", VDict 13)] /\
    doc_field (w_heap w') (VDict 13) "location" = Some (VStr "query").
Proof.
  unfold construct. eexists _, _.
  repeat (split; [vm_compute; reflexivity|]). vm_compute. reflexivity.
Qed.

End SampleRuns.

(** ** The further properties on the sample documents *)

Module MoreRuns.
Import Sample Broken PyStr.

Lemma ComputePaths_missing_key_witness :
  let w := start no_root_url flags in
  let o := [("servicePath", VStr "pkg/v1/")] in
  deref (w_heap w) (VDict 0) = Some o /\
  (Dict.lookup "rootUrl" o = None ->
     _ComputePaths "pkg" "v1" (VDict 0) w = (inl (KeyError "rootUrl"), w)) /\
  (Dict.lookup "rootUrl" o <> None -> Dict.lookup "servicePath" o = None ->
     _ComputePaths "pkg" "v1" (VDict 0) w = (inl (KeyError "servicePath"), w)).
Proof.
  split; [reflexivity|].
  exact (ComputePaths_missing_key (C := collaborators) "pkg" "v1" (VDict 0)
           [("servicePath", VStr "pkg/v1/")] (start no_root_url flags) eq_refl).
Defined.

Lemma ComputePaths_suffix_free_witness :
  exists base_url base_path w',
    _ComputePaths "pkg" "v1" (VDict 0) (start doc_heap flags) =
      (inr (base_url, base_path), w') /\
    ~ occurs ("pkg" +:+ "/" +:+ "v1" +:+ "/") base_path.
Proof.
  eexists _, _, _.
  match goal with |- ?A /\ _ => assert A as H by (vm_compute; reflexivity) end.
  split; [exact H|].
  exact (ComputePaths_suffix_free (C := collaborators) "pkg" "v1" (VDict 0)
           (start doc_heap flags) _ _ _ H).
Defined.

Lemma ComputePaths_frame_witness :
  let w := start doc_heap flags in
  exists r w',
    _ComputePaths "other" "v1" (VDict 0) w = (r, w') /\
    w_heap w' = w_heap w /\ w_calls w' = w_calls w /\
    w_flags w' = w_flags w /\ w_reg w' = w_reg w /\
    (w_log w' = w_log w \/
     exists msg full_path,
       w_log w' = w_log w ++ [(WARNING, msg)] /\ r = inr (full_path, EmptyString)) /\
    (forall e, r = inl e -> w_log w' = w_log w).
Proof.
  eexists _, _.
  match goal with |- ?A /\ _ => assert A as H by (vm_compute; reflexivity) end.
  split; [exact H|].
  exact (ComputePaths_frame (C := collaborators) "other" "v1" (VDict 0)
           (start doc_heap flags) _ _ H).
Defined.

Lemma StandardQueryParametersSchema_bad_parameters_witness :
  let w := start bad_parameters flags in
  exists o,
    deref (w_heap w) (VDict 0) = Some o /\
    Dict.lookup "parameters" o = Some (VStr "none") /\
    (forall a, VStr "none" <> VDict a) /\
    exists w',
      _StandardQueryParametersSchema (VDict 0) w =
        (inl (TypeError "item assignment"), w') /\
      w_calls w' = w_calls w /\
      forall a d, w_heap w !! a = Some d -> w_heap w' !! a = Some d.
Proof.
  assert (forall a, VStr "none" <> VDict a) as Hv by (intros a; discriminate).
  eexists. split; [reflexivity|]. split; [reflexivity|]. split; [exact Hv|].
  exact (StandardQueryParametersSchema_bad_parameters (C := collaborators)
           (VDict 0) _ (VStr "none") (start bad_parameters flags)
           eq_refl eq_refl Hv).
Defined.

Lemma StandardQueryParametersSchema_frame_witness :
  let w := start doc_heap flags in
  exists o r w',
    deref (w_heap w) (VDict 0) = Some o /\
    _StandardQueryParametersSchema (VDict 0) w = (r, w') /\
    w_calls w' = w_calls w /\ w_log w' = w_log w /\
    w_flags w' = w_flags w /\ w_reg w' = w_reg w /\
    forall a d,
      w_heap w !! a = Some d ->
      Dict.lookup "parameters" o <> Some (VDict a) ->
      w_heap w' !! a = Some d.
Proof.
  eexists _, _, _. split; [reflexivity|].
  match goal with |- ?A /\ _ => assert A as H by (vm_compute; reflexivity) end.
  split; [exact H|].
  exact (StandardQueryParametersSchema_frame (C := collaborators) (VDict 0) _
           (start doc_heap flags) _ _ eq_refl H).
Defined.

Lemma StandardQueryParametersSchema_keys_witness :
  let w := start doc_heap flags in
  let params := [("fields", VDict 5)] in
  doc_mapping (w_heap w) (VDict 0) "parameters" = Some params /\
  Dict.wf params /\
  exists sqs w' props properties,
    _StandardQueryParametersSchema (VDict 0) w = (inr (VDict sqs), w') /\
    doc_field (w_heap w') (VDict sqs) "properties" = Some (VDict props) /\
    w_heap w' !! props = Some properties /\
    Dict.wf properties /\
    (forall k, k ∈ Dict.keys properties <-> k = "trace" \/ k ∈ Dict.keys params) /\
    List.length properties =
      match Dict.lookup "trace" params with
      | Some _ => List.length params
      | None => S (List.length params)
      end.
Proof.
  assert (Dict.wf [("fields", VDict 5)]) as Hwf.
  { apply (bool_decide_unpack _). vm_compute. exact I. }
  split; [reflexivity|]. split; [exact Hwf|].
  exact (StandardQueryParametersSchema_keys (C := collaborators) (VDict 0)
           [("fields", VDict 5)] (start doc_heap flags) eq_refl Hwf).
Defined.

Lemma failed_construction_keeps_scopes_witness :
  let w := start bad_parameters flags in
  exists e w',
    DescriptorGenerator__init__ (VDict 0) client names "root" "out" false w =
      (inl e, w') /\
    exists cs,
      w_calls w' = w_calls w ++ cs /\
      Forall (fun c => is_replace c = false) cs.
Proof.
  eexists _, _.
  match goal with |- ?A /\ _ => assert A as H by (vm_compute; reflexivity) end.
  split; [exact H|].
  exact (failed_construction_keeps_scopes (C := collaborators) (VDict 0) client
           names "root" "out" false (start bad_parameters flags) _ _ H).
Defined.


Lemma generator_accessors_witness :
  let w := start doc_heap flags in
  exists g w',
    DescriptorGenerator__init__ (VDict 0) client names "root" "out" true w =
      (inr g, w') /\
    self_discovery_doc g = VDict 0 /\ self_names g = names /\
    self_outdir g = "out" /\ self_use_proto2 g = true /\
    self_root_package g = "root" /\
    self_package g = package client /\ self_version g = version client /\
    exists o,
      deref (w_heap w) (VDict 0) = Some o /\
      (forall description,
         Dict.lookup "description" o = Some description ->
         self_description g = description) /\
      (Dict.lookup "description" o = None -> self_description g = VStr EmptyString).
Proof.
  eexists _, _.
  match goal with |- ?A /\ _ => assert A as H by (vm_compute; reflexivity) end.
  split; [exact H|].
  exact (generator_accessors (C := collaborators) (VDict 0) client names
           "root" "out" true (start doc_heap flags) _ _ H).
Defined.

Lemma construction_frame_witness :
  let w := start doc_heap flags in
  exists o r w',
    deref (w_heap w) (VDict 0) = Some o /\
    DescriptorGenerator__init__ (VDict 0) client names "root" "out" false w =
      (r, w') /\
    forall a d,
      w_heap w !! a = Some d ->
      Dict.lookup "parameters" o <> Some (VDict a) ->
      w_heap w' !! a = Some d.
Proof.
  eexists _, _, _. split; [reflexivity|].
  match goal with |- ?A /\ _ => assert A as H by (vm_compute; reflexivity) end.
  split; [exact H|].
  exact (construction_frame (C := collaborators) (VDict 0) _ client names
           "root" "out" false (start doc_heap flags) _ _ eq_refl H).
Defined.

Lemma fetch_error_propagates_witness :
  let w := start_failing flags_url in
  let e := OtherError "ValueError" "unknown url type" in
  discovery_url (w_flags w) <> EmptyString /\
  @fetch_discovery_doc failing (discovery_url (w_flags w)) (w_heap w) = inl e /\
  (forall msg, e <> CommunicationError msg) /\
  let w1 := record (FetchDiscoveryDoc (discovery_url (w_flags w))) w in
  _GetCodegenFromFlags w = (inl e, w1) /\
  GenerateClient_Run w = (inl e, w1).
Proof.
  assert (discovery_url (w_flags (start_failing flags_url)) <> EmptyString) as Hurl
    by discriminate.
  assert (forall msg, OtherError "ValueError" "unknown url type" <>
                      CommunicationError msg) as He by (intros msg; discriminate).
  split; [exact Hurl|]. split; [reflexivity|]. split; [exact He|].
  exact (fetch_error_propagates (C := failing) (start_failing flags_url)
           (OtherError "ValueError" "unknown url type") Hurl eq_refl He).
Defined.

Lemma file_error_propagates_witness :
  let w := start_failing flags in
  let e := OtherError "IOError" "No such file" in
  discovery_url (w_flags w) = EmptyString /\
  @json_load_file failing "doc.json" (w_heap w) = inl e /\
  _GetCodegenFromFlags w = (inl e, record (json_load "doc.json") w).
Proof.
  split; [reflexivity|]. split; [reflexivity|].
  exact (file_error_propagates (C := failing) (start_failing flags)
           (OtherError "IOError" "No such file") eq_refl eq_refl).
Defined.

Lemma GetCodegenFromFlags_flags_witness :
  let w := start [] flags in
  exists r w',
    _GetCodegenFromFlags w = (r, w') /\
    same_but_root_package_dir (w_flags w) (w_flags w').
Proof.
  eexists _, _.
  match goal with |- ?A /\ _ => assert A as H by (vm_compute; reflexivity) end.
  split; [exact H|].
  exact (GetCodegenFromFlags_flags (C := collaborators) (start [] flags) _ _ H).
Defined.

Lemma returned_generator_witness :
  let w := start [] flags in
  exists g w',
    _GetCodegenFromFlags w = (inr (Some g), w') /\
    let F := w_flags w in
    let dir :=
      abspath (if String.eqb (root_package_dir F) EmptyString
               then self_outdir g else root_package_dir F) in
    (path_exists (self_outdir g) = false \/ overwrite F = true) /\
    (exists h1 ci,
       load_result F (w_heap w) = inr (self_discovery_doc g, h1) /\
       client_info_create (self_discovery_doc g) h1 (scope F) (client_id F)
         (client_secret F) (user_agent F) (names_of_flags F) (api_key F) = inr ci /\
       self_outdir g = str_or (expanduser (outdir F)) (default_directory ci) /\
       self_client_info g =
         ClientInfo__replace_scopes ci (scopes (self_client_info g))) /\
    self_names g = names_of_flags F /\
    self_use_proto2 g = experimental_proto2_output F /\
    get_package dir = inr (self_root_package g) /\
    w_flags w' = set_root_package_dir F dir.
Proof.
  eexists _, _.
  match goal with |- ?A /\ _ => assert A as H by (vm_compute; reflexivity) end.
  split; [exact H|].
  exact (returned_generator (C := collaborators) (start [] flags) _ _ H).
Defined.

Lemma no_generator_only_on_fetch_failure_witness :
  let w := start [] flags_down in
  exists w',
    _GetCodegenFromFlags w = (inr None, w') /\
    discovery_url (w_flags w) <> EmptyString /\
    (exists msg, fetch_discovery_doc (discovery_url (w_flags w)) (w_heap w) =
                   inl (CommunicationError msg)) /\
    w' = record (FetchDiscoveryDoc (discovery_url (w_flags w))) w.
Proof.
  eexists.
  match goal with |- ?A /\ _ => assert A as H by (vm_compute; reflexivity) end.
  split; [exact H|].
  exact (no_generator_only_on_fetch_failure (C := collaborators)
           (start [] flags_down) _ H).
Defined.

Lemma client_run_writes_witness :
  let w := start [] flags in
  exists g w1 r w',
    _GetCodegenFromFlags w = (inr (Some g), w1) /\
    GenerateClient_Run w = (r, w') /\
    exists n reg,
      w' = after (firstn n (planned_writes g)) reg w1 /\
      (forall v, r = inr v ->
         v = VNone /\ w_calls w' = w_calls w1 ++ planned_writes g) /\
      (forall e, r = inl e ->
         exists c h reg0, planned_writes g !! (n - 1) = Some c /\
                          respond c h reg0 = inl e).
Proof.
  eexists _, _, _, _.
  match goal with |- ?A /\ _ => assert A as H by (vm_compute; reflexivity) end.
  split; [exact H|].
  match goal with |- ?A /\ _ => assert A as H' by (vm_compute; reflexivity) end.
  split; [exact H'|].
  exact (client_run_writes (C := collaborators) (start [] flags) _ _ _ _ H H').
Defined.

Lemma exit_128_only_on_fetch_failure_witness :
  let w := start [] flags_down in
  exists w',
    GenerateClient_Run w = (inr (VInt 128), w') /\
    discovery_url (w_flags w) <> EmptyString /\
    (exists msg, fetch_discovery_doc (discovery_url (w_flags w)) (w_heap w) =
                   inl (CommunicationError msg)) /\
    w_calls w' = w_calls w ++ [FetchDiscoveryDoc (discovery_url (w_flags w))] /\
    w_log w' = w_log w ++ [(ERROR, "Failed to create codegen, exiting.")].
Proof.
  eexists.
  match goal with |- ?A /\ _ => assert A as H by (vm_compute; reflexivity) end.
  split; [exact H|].
  exact (exit_128_only_on_fetch_failure (C := collaborators)
           (start [] flags_down) _ H).
Defined.

Lemma proto_run_without_generator_witness :
  let w := start [] flags_down in
  discovery_url (w_flags w) <> EmptyString /\
  fetch_discovery_doc (discovery_url (w_flags w)) (w_heap w) =
    inl (CommunicationError "unreachable") /\
  GenerateProto_Run w =
    (inl (AttributeError "outdir"),
     record (FetchDiscoveryDoc (discovery_url (w_flags w))) w).
Proof.
  assert (discovery_url (w_flags (start [] flags_down)) <> EmptyString) as Hurl
    by discriminate.
  split; [exact Hurl|]. split; [reflexivity|].
  exact (proto_run_without_generator (C := collaborators) (start [] flags_down)
           "unreachable" Hurl eq_refl).
Defined.

Lemma proto_run_writes_witness :
  let w := start [] flags in
  exists g w1 r w',
    _GetCodegenFromFlags w = (inr (Some g), w1) /\
    GenerateProto_Run w = (r, w') /\
    exists n reg,
      w' = after (firstn n (planned_proto_writes g)) reg w1 /\
      (forall v, r = inr v ->
         v = VNone /\ w_calls w' = w_calls w1 ++ planned_proto_writes g) /\
      (forall e, r = inl e ->
         exists c h reg0, planned_proto_writes g !! (n - 1) = Some c /\
                          respond c h reg0 = inl e).
Proof.
  eexists _, _, _, _.
  match goal with |- ?A /\ _ => assert A as H by (vm_compute; reflexivity) end.
  split; [exact H|].
  match goal with |- ?A /\ _ => assert A as H' by (vm_compute; reflexivity) end.
  split; [exact H'|].
  exact (proto_run_writes (C := collaborators) (start [] flags) _ _ _ _ H H').
Defined.

Lemma document_read_once_witness :
  let w := start [] flags in
  exists r w',
    _GetCodegenFromFlags w = (r, w') /\
    exists c cs,
      w_calls w' = w_calls w ++ c :: cs /\
      (discovery_url (w_flags w) <> EmptyString ->
         c = FetchDiscoveryDoc (discovery_url (w_flags w))) /\
      (discovery_url (w_flags w) = EmptyString ->
         c = json_load (str_or (expanduser (infile (w_flags w))) "/dev/stdin")) /\
      Forall (fun c => is_load c || is_write c = false) cs.
Proof.
  eexists _, _.
  match goal with |- ?A /\ _ => assert A as H by (vm_compute; reflexivity) end.
  split; [exact H|].
  exact (document_read_once (C := collaborators) (start [] flags) _ _ H).
Defined.

Lemma accepted_infile_is_read_witness :
  let w := start [] flags in
  infile_validator (w_flags w) (infile (w_flags w)) = true /\
  infile (w_flags w) <> EmptyString /\
  exists r w',
    _GetCodegenFromFlags w = (r, w') /\
    exists cs,
      w_calls w' =
        w_calls w ++
        json_load (str_or (expanduser (infile (w_flags w))) "/dev/stdin") :: cs /\
      Forall (fun c => is_load c || is_write c = false) cs.
Proof.
  assert (infile (w_flags (start [] flags)) <> EmptyString) as Hi by discriminate.
  split; [reflexivity|]. split; [exact Hi|]. eexists _, _.
  match goal with |- ?A /\ _ => assert A as H by (vm_compute; reflexivity) end.
  split; [exact H|].
  exact (accepted_infile_is_read (C := collaborators) (start [] flags) _ _
           eq_refl Hi H).
Defined.

Lemma CopyLocalFile_outcome_witness :
  exists r fs',
    _CopyLocalFile package_data writable "app2.py" old_files = (r, fs') /\
    (forall n, n <> "app2.py" -> fs' n = old_files n) /\
    (forall u, r = inr u ->
       exists data, package_data "apitools.base.py" "app2.py" = inr (Some data) /\
                    fs' "app2.py" = Some data) /\
    (forall e, r = inl e ->
       (writable "app2.py" = Some e /\ fs' = old_files) \/
       (writable "app2.py" = None /\ fs' "app2.py" = Some EmptyString /\
        (package_data "apitools.base.py" "app2.py" = inl e \/
         package_data "apitools.base.py" "app2.py" = inr None /\
         e = OtherError "GeneratedClientError"
               ("Could not find file " +:+ "app2.py")))).
Proof.
  eexists _, _.
  match goal with |- ?A /\ _ => assert A as H by reflexivity end.
  split; [exact H|].
  exact (CopyLocalFile_outcome package_data writable "app2.py" old_files _ _ H).
Defined.

(** The copy on the sample files: the data replaces the older copy, and a
    file without data is emptied. *)
Example copy_replaces_and_empties :
  (_CopyLocalFile package_data writable "base_api.py" old_files).2 "base_api.py" =
    Some "# base api" /\
  (_CopyLocalFile package_data writable "app2.py" old_files).2 "app2.py" =
    Some EmptyString /\
  (_CopyLocalFile package_data writable "app2.py" old_files).2 "base_api.py" =
    Some "# old base api".
Proof. repeat split. Qed.

End MoreRuns.
